(** * Stock analysis agent: a shallow embedding and its verification

    The development follows the layout of the repository:

    - [JS]: the part of the JavaScript platform the agent relies on
      (UTF-16 strings, IEEE 754 numbers, [JSON.parse], [JSON.stringify]);
    - [Zod]: the schema combinators used by [src/utils/validators.js];
    - [Validators]: [validateInput], [validateOutput], [extractKeyMetrics];
    - [GeminiClient]: [invokeWithRetry], [parseJsonResponse];
    - [Analyzer]: [StockAnalyzer.analyze] and [batchAnalyze];
    - [Workflow]: the two LangGraph workflow definitions.

    Definitions come first, the theorems about them after: the schemas
    and the validators, the metrics summary, the retry loop, the response
    parser, the workflows, batch processing, and the round trip of an
    object through [JSON.stringify], a code fence and the response
    parser. *)

From Stdlib Require Import Ascii String.
From Stdlib Require Import List NArith ZArith Bool Lia PeanoNat.
From Stdlib Require Import Floats.SpecFloat.
Import ListNotations.

Set Implicit Arguments.

(* ===================================================================== *)
(** * The JavaScript platform                                             *)
(* ===================================================================== *)

Module JS.

(** ** Strings

    A JavaScript string is a sequence of UTF-16 code units. *)

Definition codeunit := N.
Definition jstring := list codeunit.

(** [str "abc"] is the JavaScript string with the code units of an ASCII
    literal. *)
Definition str (s : string) : jstring :=
  map N_of_ascii (list_ascii_of_string s).

Definition chr (a : ascii) : codeunit := N_of_ascii a.

Arguments str : simpl never.
Arguments chr : simpl never.

Definition DQUOTE : codeunit := 34%N.
Definition BACKSLASH : codeunit := 92%N.
Definition LF : codeunit := 10%N.

Definition jstring_eqb (a b : jstring) : bool :=
  if list_eq_dec N.eq_dec a b then true else false.

(** [WhiteSpace] and [LineTerminator] of ECMAScript: the characters
    removed by [String.prototype.trim] and matched by the regular
    expression class [\s]. *)
Definition is_space (c : codeunit) : bool :=
  ((9 <=? c) && (c <=? 13) || (c =? 32) || (c =? 160) || (c =? 5760)
   || (8192 <=? c) && (c <=? 8202) || (c =? 8232) || (c =? 8233)
   || (c =? 8239) || (c =? 8287) || (c =? 12288) || (c =? 65279))%N.

Fixpoint trimStart (s : jstring) : jstring :=
  match s with
  | c :: r => if is_space c then trimStart r else s
  | [] => []
  end.

Fixpoint trimEnd (s : jstring) : jstring :=
  match s with
  | [] => []
  | c :: r =>
      match trimEnd r with
      | [] => if is_space c then [] else [c]
      | t => c :: t
      end
  end.

(** [String.prototype.trim] *)
Definition trim (s : jstring) : jstring := trimEnd (trimStart s).

(** [String.prototype.startsWith] *)
Fixpoint startsWith (s p : jstring) {struct p} : bool :=
  match p with
  | [] => true
  | a :: p' =>
      match s with
      | b :: s' => (a =? b)%N && startsWith s' p'
      | [] => false
      end
  end.

(** [s.substring(a, b)] for indices [0 <= a <= b]. *)
Definition substring (a b : nat) (s : jstring) : jstring :=
  firstn (b - a) (skipn a s).

(** [s.indexOf(c)] for a one-character needle; [None] stands for [-1]. *)
Fixpoint indexOf (c : codeunit) (s : jstring) : option nat :=
  match s with
  | [] => None
  | d :: r => if (d =? c)%N then Some 0
              else match indexOf c r with
                   | Some i => Some (S i)
                   | None => None
                   end
  end.

(** [s.lastIndexOf(c)] for a one-character needle. *)
Fixpoint lastIndexOf (c : codeunit) (s : jstring) : option nat :=
  match s with
  | [] => None
  | d :: r => match lastIndexOf c r with
              | Some i => Some (S i)
              | None => if (d =? c)%N then Some 0 else None
              end
  end.

(** [(s.match(/c/g) || []).length]: the number of occurrences of a
    character. *)
Definition count_char (c : codeunit) (s : jstring) : nat :=
  length (filter (N.eqb c) s).

(** [Array.prototype.join] on strings. *)
Fixpoint join (sep : jstring) (l : list jstring) : jstring :=
  match l with
  | [] => []
  | [x] => x
  | x :: r => x ++ sep ++ join sep r
  end.

(** Decimal digits of a natural number, most significant first. *)
Fixpoint digits_aux (fuel : nat) (n : N) (acc : jstring) : jstring :=
  match fuel with
  | O => acc
  | S f =>
      let acc' := (48 + n mod 10)%N :: acc in
      if (n / 10 =? 0)%N then acc' else digits_aux f (n / 10)%N acc'
  end.

Definition decimal (n : N) : jstring :=
  digits_aux (S (N.to_nat (N.log2 n))) n [].

(** ** Numbers

    A JavaScript number is an IEEE 754 binary64 value; arithmetic is the
    correctly rounded arithmetic of [SpecFloat] at precision 53. *)

Definition number := spec_float.
Definition prec : Z := 53.
Definition emax : Z := 1024.

Definition Number_of_Z (z : Z) : number := binary_normalize prec emax z 0 false.
Definition Number_of_nat (n : nat) : number := Number_of_Z (Z.of_nat n).
Definition Number_div : number -> number -> number := SFdiv prec emax.
Definition Number_mul : number -> number -> number := SFmul prec emax.

Definition number_eqb (x y : number) : bool :=
  match x, y with
  | S754_zero a, S754_zero b => Bool.eqb a b
  | S754_infinity a, S754_infinity b => Bool.eqb a b
  | S754_nan, S754_nan => true
  | S754_finite a m e, S754_finite b n f =>
      Bool.eqb a b && Pos.eqb m n && Z.eqb e f
  | _, _ => false
  end.

Definition is_finite (x : number) : bool :=
  match x with
  | S754_zero _ | S754_finite _ _ _ => true
  | _ => false
  end.

(** The number denoted by the decimal numeral [m * 10^scale] (negated when
    [neg]): the nearest binary64 value, ties to even.  This is the
    conversion applied to numeric literals. *)
Definition decimal_to_number (neg : bool) (m : N) (scale : Z) : number :=
  match m with
  | N0 => S754_zero neg
  | Npos p =>
      match scale with
      | Zneg k =>
          let '(q, e, l) :=
            SFdiv_core_binary prec emax (Zpos p) 0 (Z.pow 10 (Zpos k)) 0 in
          binary_round_aux prec emax neg q e l
      | _ =>
          binary_normalize prec emax
            (cond_Zopp neg (Zpos p * Z.pow 10 scale)) 0 false
      end
  end.

(** The exact value of a positive finite number [m * 2^e] as a fraction. *)
Definition exact_fraction (m : positive) (e : Z) : Z * Z :=
  match e with
  | Zneg k => (Zpos m, Z.pow 2 (Zpos k))
  | _ => (Zpos m * Z.pow 2 e, 1)
  end%Z.

(** [num/den < 10^n] *)
Definition below_pow10 (num den n : Z) : bool :=
  match n with
  | Zneg k => (num * Z.pow 10 (Zpos k) <? den)
  | _ => (num <? den * Z.pow 10 n)
  end%Z.

(** The least [n], from [n0] on, with [num/den < 10^n]. *)
Fixpoint exponent10 (fuel : nat) (n0 num den : Z) : Z :=
  match fuel with
  | O => n0
  | S f => if below_pow10 num den n0 then n0
           else exponent10 f (n0 + 1)%Z num den
  end.

(** [floor (num/den / 10^q)] *)
Definition scaled_floor (num den q : Z) : Z :=
  match q with
  | Zneg k => (num * Z.pow 10 (Zpos k)) / den
  | _ => num / (den * Z.pow 10 q)
  end%Z.

(** [Number::toString], step 5: the shortest digit string [s] (of [k]
    digits) and exponent [n] such that [s * 10^(n-k)] denotes [x]; among
    several, the one closest to [x]. *)
Definition shortest_candidate (x : number) (num den n : Z) (k : nat)
  : option (Z * Z) :=
  let q := (n - Z.of_nat k)%Z in
  let lo := scaled_floor num den q in
  let hi := (lo + 1)%Z in
  let ok s := number_eqb (decimal_to_number false (Z.to_N s) q) x in
  (* distance of [s * 10^q] to [x], scaled by [den * 10^max(0,-q)] *)
  let dist s :=
    match q with
    | Zneg j => Z.abs (s * den - num * Z.pow 10 (Zpos j))
    | _ => Z.abs (s * Z.pow 10 q * den - num)
    end%Z in
  let norm s := if (s =? Z.pow 10 (Z.of_nat k))%Z
                then (Z.pow 10 (Z.of_nat k - 1), n + 1)%Z else (s, n) in
  match ok lo && (0 <? lo)%Z, ok hi with
  | true, true =>
      if (dist lo <? dist hi)%Z then Some (norm lo)
      else if (dist hi <? dist lo)%Z then Some (norm hi)
      else if Z.even lo then Some (norm lo) else Some (norm hi)
  | true, false => Some (norm lo)
  | false, true => Some (norm hi)
  | false, false => None
  end.

Fixpoint shortest_digits (x : number) (num den n : Z) (k fuel : nat)
  : Z * Z * nat :=
  match fuel with
  | O => (0%Z, n, k)
  | S f =>
      match shortest_candidate x num den n k with
      | Some (s, n') => (s, n', k)
      | None => shortest_digits x num den n (S k) f
      end
  end.

Definition zeros (n : nat) : jstring := repeat 48%N n.

(** [Number::toString] for a positive finite number. *)
Definition positive_to_string (m : positive) (e : Z) : jstring :=
  let '(num, den) := exact_fraction m e in
  let n0 := exponent10 700 (-324) num den in
  let '(s, n, k) := shortest_digits (S754_finite false m e) num den n0 1 17 in
  let ds := decimal (Z.to_N s) in
  if (Z.of_nat k <=? n)%Z && (n <=? 21)%Z then
    ds ++ zeros (Z.to_nat n - k)
  else if (0 <? n)%Z && (n <=? 21)%Z then
    firstn (Z.to_nat n) ds ++ chr "." :: skipn (Z.to_nat n) ds
  else if (-6 <? n)%Z && (n <=? 0)%Z then
    chr "0" :: chr "." :: zeros (Z.to_nat (- n)) ++ ds
  else
    let ex := (n - 1)%Z in
    let sign := if (ex <? 0)%Z then chr "-" else chr "+" in
    let tail := chr "e" :: sign :: decimal (Z.to_N (Z.abs ex)) in
    match ds with
    | [d] => d :: tail
    | d :: r => d :: chr "." :: r ++ tail
    | [] => tail
    end.

(** [Number::toString] (radix 10). *)
Definition NumberToString (x : number) : jstring :=
  match x with
  | S754_nan => str "NaN"
  | S754_zero _ => str "0"
  | S754_infinity false => str "Infinity"
  | S754_infinity true => str "-Infinity"
  | S754_finite false m e => positive_to_string m e
  | S754_finite true m e => chr "-" :: positive_to_string m e
  end.

(** [Number.prototype.toFixed(f)]: for a finite [x] below [10^21], the
    integer [n] for which [n / 10^f - x] is as close to zero as possible
    (the larger [n] on a tie), printed with [f] digits after the point. *)
Definition toFixed_digits (f : nat) (m : positive) (e : Z) : N :=
  let '(num, den) := exact_fraction m e in
  Z.to_N ((2 * num * Z.pow 10 (Z.of_nat f) + den) / (2 * den)).

Definition place_point (f : nat) (ds : jstring) : jstring :=
  let ds := zeros (S f - length ds) ++ ds in
  let k := length ds in
  match f with
  | O => ds
  | _ => firstn (k - f) ds ++ chr "." :: skipn (k - f) ds
  end.

Definition Number_toFixed (f : nat) (x : number) : jstring :=
  match x with
  | S754_zero _ => place_point f (str "0")
  | S754_finite s m e =>
      let '(num, den) := exact_fraction m e in
      if (num <? den * Z.pow 10 21)%Z then
        (if s then [chr "-"] else []) ++
        place_point f (decimal (toFixed_digits f m e))
      else NumberToString x
  | _ => NumberToString x
  end.

(** ** Values

    The values the agent handles: [undefined] and the values that JSON can
    denote.  An object lists its own properties in insertion order;
    integer-like keys, which JavaScript enumerates first, are not treated
    specially. *)

#[local] Unset Elimination Schemes.
Inductive JValue : Type :=
| JUndefined
| JNull
| JBool (b : bool)
| JNumber (x : number)
| JString (s : jstring)
| JArray (items : list JValue)
| JObject (props : list (jstring * JValue)).
#[local] Set Elimination Schemes.

Definition Props := list (jstring * JValue).

(** Own-property lookup. *)
Fixpoint lookup (k : jstring) (ps : Props) : JValue :=
  match ps with
  | [] => JUndefined
  | (k', v) :: r => if jstring_eqb k' k then v else lookup k r
  end.

(** Property definition: an existing key keeps its place. *)
Fixpoint define (k : jstring) (v : JValue) (ps : Props) : Props :=
  match ps with
  | [] => [(k, v)]
  | (k', v') :: r =>
      if jstring_eqb k' k then (k, v) :: r else (k', v') :: define k v r
  end.

Definition keys (ps : Props) : list jstring := map fst ps.

(** The outcome of evaluating JavaScript code: a value, or a thrown error
    of which only [error.message] is kept. *)
Inductive Completion (A : Type) : Type :=
| Return (a : A)
| Throw (message : jstring).
Arguments Return {A} a.
Arguments Throw {A} message.

Definition bindC {A B : Type} (c : Completion A) (k : A -> Completion B)
  : Completion B :=
  match c with
  | Return a => k a
  | Throw m => Throw m
  end.

Declare Scope js_scope.
Delimit Scope js_scope with js.
Notation "'let*' x ':=' c 'in' k" := (bindC c (fun x => k))
  (at level 10, x pattern, c at level 100, k at level 200) : js_scope.

(** ** [JSON.stringify] *)

Definition hexdigit (n : N) : codeunit :=
  if (n <? 10)%N then (48 + n)%N else (87 + n)%N.

Definition unicode_escape (c : codeunit) : jstring :=
  [BACKSLASH; chr "u"; hexdigit ((c / 4096) mod 16); hexdigit ((c / 256) mod 16);
   hexdigit ((c / 16) mod 16); hexdigit (c mod 16)]%N.

Definition is_high_surrogate (c : codeunit) : bool :=
  ((55296 <=? c) && (c <=? 56319))%N.
Definition is_low_surrogate (c : codeunit) : bool :=
  ((56320 <=? c) && (c <=? 57343))%N.

(** The two-character escapes of [QuoteJSONString]. *)
Definition short_escape (c : codeunit) : option codeunit :=
  if (c =? 8)%N then Some (chr "b")
  else if (c =? 9)%N then Some (chr "t")
  else if (c =? 10)%N then Some (chr "n")
  else if (c =? 12)%N then Some (chr "f")
  else if (c =? 13)%N then Some (chr "r")
  else if (c =? DQUOTE)%N then Some DQUOTE
  else if (c =? BACKSLASH)%N then Some BACKSLASH
  else None.

Fixpoint quote_body (s : jstring) : jstring :=
  match s with
  | [] => []
  | c :: r =>
      match short_escape c with
      | Some e => BACKSLASH :: e :: quote_body r
      | None =>
          if (c <? 32)%N then unicode_escape c ++ quote_body r
          else if is_high_surrogate c then
            match r with
            | d :: r' =>
                if is_low_surrogate d then c :: d :: quote_body r'
                else unicode_escape c ++ quote_body r
            | [] => unicode_escape c
            end
          else if is_low_surrogate c then unicode_escape c ++ quote_body r
          else c :: quote_body r
      end
  end.

(** [QuoteJSONString] *)
Definition quote (s : jstring) : jstring :=
  DQUOTE :: quote_body s ++ [DQUOTE].

(** [SerializeJSONProperty] with no replacer and no indentation: [None]
    is the [undefined] result, for which an object omits the property and
    an array prints [null]. *)
Fixpoint serialize (v : JValue) : option jstring :=
  match v with
  | JUndefined => None
  | JNull => Some (str "null")
  | JBool true => Some (str "true")
  | JBool false => Some (str "false")
  | JNumber x => Some (if is_finite x then NumberToString x else str "null")
  | JString s => Some (quote s)
  | JArray items =>
      let item v := match serialize v with
                    | Some t => t
                    | None => str "null"
                    end in
      Some (chr "[" :: join [chr ","] (map item items) ++ [chr "]"])
  | JObject props =>
      let member kv := match serialize (snd kv) with
                       | Some t => [quote (fst kv) ++ chr ":" :: t]
                       | None => []
                       end in
      Some (chr "{" :: join [chr ","] (flat_map member props) ++ [chr "}"])
  end.

(** [JSON.stringify(v)] used as a string: [undefined] prints as such. *)
Definition stringify (v : JValue) : jstring :=
  match serialize v with
  | Some t => t
  | None => str "undefined"
  end.

(** ** [JSON.parse] *)

Inductive presult (A : Type) : Type :=
| POk (a : A) (rest : jstring)
| PErr
| PFuel.
Arguments POk {A} a rest.
Arguments PErr {A}.
Arguments PFuel {A}.

Definition is_json_ws (c : codeunit) : bool :=
  ((c =? 9) || (c =? 10) || (c =? 13) || (c =? 32))%N.

Fixpoint skip_ws (s : jstring) : jstring :=
  match s with
  | c :: r => if is_json_ws c then skip_ws r else s
  | [] => []
  end.

Definition is_digit (c : codeunit) : bool := ((48 <=? c) && (c <=? 57))%N.

Definition hexval (c : codeunit) : option N :=
  if is_digit c then Some (c - 48)%N
  else if ((97 <=? c) && (c <=? 102))%N then Some (c - 87)%N
  else if ((65 <=? c) && (c <=? 70))%N then Some (c - 55)%N
  else None.

Definition hex4 (a b c d : codeunit) : option codeunit :=
  match hexval a, hexval b, hexval c, hexval d with
  | Some x, Some y, Some z, Some w => Some (4096 * x + 256 * y + 16 * z + w)%N
  | _, _, _, _ => None
  end.

Definition unescape (e : codeunit) : option codeunit :=
  if (e =? DQUOTE)%N then Some DQUOTE
  else if (e =? BACKSLASH)%N then Some BACKSLASH
  else if (e =? chr "/")%N then Some (chr "/")
  else if (e =? chr "b")%N then Some 8%N
  else if (e =? chr "f")%N then Some 12%N
  else if (e =? chr "n")%N then Some 10%N
  else if (e =? chr "r")%N then Some 13%N
  else if (e =? chr "t")%N then Some 9%N
  else None.

(** The characters of a string literal after its opening quote, up to and
    including the closing quote. *)
Fixpoint parse_string_body (s : jstring) : option (jstring * jstring) :=
  let cons c r := match r with
                  | Some (body, rest) => Some (c :: body, rest)
                  | None => None
                  end in
  match s with
  | [] => None
  | c :: r =>
      if (c =? DQUOTE)%N then Some ([], r)
      else if (c =? BACKSLASH)%N then
        match r with
        | [] => None
        | e :: r1 =>
            if (e =? chr "u")%N then
              match r1 with
              | h1 :: h2 :: h3 :: h4 :: r2 =>
                  match hex4 h1 h2 h3 h4 with
                  | Some u => cons u (parse_string_body r2)
                  | None => None
                  end
              | _ => None
              end
            else
              match unescape e with
              | Some u => cons u (parse_string_body r1)
              | None => None
              end
        end
      else if (c <? 32)%N then None
      else cons c (parse_string_body r)
  end.

Fixpoint take_digits (s : jstring) : jstring * jstring :=
  match s with
  | c :: r => if is_digit c
              then let '(ds, rest) := take_digits r in (c :: ds, rest)
              else ([], s)
  | [] => ([], [])
  end.

Definition digits_value (ds : jstring) : N :=
  fold_left (fun a d => (10 * a + (d - 48))%N) ds 0%N.

(** A numeric literal of the JSON grammar: an optional minus sign, an
    integer part without a leading zero (or a lone zero), an optional
    fraction and an optional exponent. *)
Definition lex_sign (s : jstring) : bool * jstring :=
  match s with
  | c :: r => if (c =? chr "-")%N then (true, r) else (false, s)
  | [] => (false, s)
  end.

Definition lex_int (s : jstring) : option (jstring * jstring) :=
  match s with
  | c :: r => if (c =? chr "0")%N then Some ([c], r)
              else if is_digit c then Some (take_digits s)
              else None
  | [] => None
  end.

Definition lex_frac (s : jstring) : option (jstring * jstring) :=
  match s with
  | c :: r =>
      if (c =? chr ".")%N then
        match take_digits r with
        | ([], _) => None
        | (ds, rest) => Some (ds, rest)
        end
      else Some ([], s)
  | [] => Some ([], s)
  end.

Definition lex_exp_sign (s : jstring) : bool * jstring :=
  match s with
  | g :: r => if (g =? chr "-")%N then (true, r)
              else if (g =? chr "+")%N then (false, r)
              else (false, s)
  | [] => (false, s)
  end.

Definition lex_exp (s : jstring) : option (Z * jstring) :=
  match s with
  | c :: r =>
      if ((c =? chr "e") || (c =? chr "E"))%N then
        let '(eneg, r1) := lex_exp_sign r in
        match take_digits r1 with
        | ([], _) => None
        | (ds, rest) => Some (cond_Zopp eneg (Z.of_N (digits_value ds)), rest)
        end
      else Some (0%Z, s)
  | [] => Some (0%Z, s)
  end.

Definition parse_number (s : jstring) : option (number * jstring) :=
  let '(neg, s1) := lex_sign s in
  match lex_int s1 with
  | None => None
  | Some (int, s2) =>
      match lex_frac s2 with
      | None => None
      | Some (frac, s3) =>
          match lex_exp s3 with
          | None => None
          | Some (ex, s4) =>
              Some (decimal_to_number neg (digits_value (int ++ frac))
                      (ex - Z.of_nat (length frac)), s4)
          end
      end
  end.

Definition expect (lit : jstring) (v : JValue) (s : jstring) : presult JValue :=
  if startsWith s lit then POk v (skipn (length lit) s) else PErr.

(** Recursive descent on the JSON grammar.  [parse_value] expects its
    input to start at the first character of a value. *)
Fixpoint parse_value (fuel : nat) (s : jstring) : presult JValue :=
  match fuel with
  | O => PFuel
  | S f =>
      match s with
      | [] => PErr
      | c :: r =>
          if (c =? chr "{")%N then
            match skip_ws r with
            | d :: r' =>
                if (d =? chr "}")%N then POk (JObject []) r'
                else
                  match parse_members f (d :: r') with
                  | POk ps rest =>
                      POk (JObject (fold_left (fun o kv => define (fst kv) (snd kv) o) ps [])) rest
                  | PErr => PErr
                  | PFuel => PFuel
                  end
            | [] => PErr
            end
          else if (c =? chr "[")%N then
            match skip_ws r with
            | d :: r' =>
                if (d =? chr "]")%N then POk (JArray []) r'
                else
                  match parse_elements f (d :: r') with
                  | POk vs rest => POk (JArray vs) rest
                  | PErr => PErr
                  | PFuel => PFuel
                  end
            | [] => PErr
            end
          else if (c =? DQUOTE)%N then
            match parse_string_body r with
            | Some (body, rest) => POk (JString body) rest
            | None => PErr
            end
          else if (c =? chr "t")%N then expect (str "true") (JBool true) s
          else if (c =? chr "f")%N then expect (str "false") (JBool false) s
          else if (c =? chr "n")%N then expect (str "null") JNull s
          else
            match parse_number s with
            | Some (x, rest) => POk (JNumber x) rest
            | None => PErr
            end
      end
  end
with parse_elements (fuel : nat) (s : jstring) : presult (list JValue) :=
  match fuel with
  | O => PFuel
  | S f =>
      match parse_value f s with
      | POk v rest =>
          match skip_ws rest with
          | d :: r =>
              if (d =? chr ",")%N then
                match parse_elements f (skip_ws r) with
                | POk vs rest' => POk (v :: vs) rest'
                | PErr => PErr
                | PFuel => PFuel
                end
              else if (d =? chr "]")%N then POk [v] r
              else PErr
          | [] => PErr
          end
      | PErr => PErr
      | PFuel => PFuel
      end
  end
with parse_members (fuel : nat) (s : jstring) : presult Props :=
  match fuel with
  | O => PFuel
  | S f =>
      match s with
      | q :: r =>
          if (q =? DQUOTE)%N then
            match parse_string_body r with
            | Some (k, rest) =>
                match skip_ws rest with
                | d :: r2 =>
                    if (d =? chr ":")%N then
                      match parse_value f (skip_ws r2) with
                      | POk v rest2 =>
                          match skip_ws rest2 with
                          | g :: r3 =>
                              if (g =? chr ",")%N then
                                match parse_members f (skip_ws r3) with
                                | POk ps rest3 => POk ((k, v) :: ps) rest3
                                | PErr => PErr
                                | PFuel => PFuel
                                end
                              else if (g =? chr "}")%N then POk [(k, v)] r3
                              else PErr
                          | [] => PErr
                          end
                      | PErr => PErr
                      | PFuel => PFuel
                      end
                    else PErr
                | [] => PErr
                end
            | None => PErr
            end
          else PErr
      | [] => PErr
      end
  end.

(** The value denoted by a complete JSON text, if it is one. *)
Definition parse_text (text : jstring) : presult JValue :=
  match parse_value (2 * length text + 1) (skip_ws text) with
  | POk v rest => match skip_ws rest with
                  | [] => POk v []
                  | _ :: _ => PErr
                  end
  | r => r
  end.

(** [base.k] on a [base] other than [undefined] and [null]. *)
Definition read (base : JValue) (k : jstring) : JValue :=
  match base with
  | JObject ps => lookup k ps
  | _ => JUndefined
  end.

(** [base?.k] *)
Definition read_optional (base : JValue) (k : jstring) : JValue :=
  match base with
  | JUndefined | JNull => JUndefined
  | _ => read base k
  end.

(** ** Engine-defined error messages

    The text of the errors the engine itself raises is not fixed by the
    language; the development is parametric in it. *)

Record Engine : Type := {
  (** message of the [SyntaxError] thrown by [JSON.parse] on a text *)
  json_error_message : jstring -> jstring;
  (** message of the [TypeError] for reading property [k] of [undefined]
      or [null] *)
  read_error_message : JValue -> jstring -> jstring;
  (** message of the [TypeError] for calling a method a value lacks *)
  call_error_message : JValue -> jstring -> jstring;
  (** message of the [TypeError] for spreading a value that is not
      iterable *)
  iter_error_message : JValue -> jstring
}.

Section WithEngine.
Variable E : Engine.

(** [JSON.parse(text)] *)
Definition JSON_parse (text : jstring) : Completion JValue :=
  match parse_text text with
  | POk v _ => Return v
  | PErr | PFuel => Throw (json_error_message E text)
  end.

(** [base.k], for a property name [k] that no prototype provides (every
    name the agent reads is of this kind). *)
Definition get (base : JValue) (k : jstring) : Completion JValue :=
  match base with
  | JUndefined | JNull => Throw (read_error_message E base k)
  | _ => Return (read base k)
  end.

(** The code points of a string, as the strings its iterator yields. *)
Fixpoint code_points (s : jstring) : list jstring :=
  match s with
  | [] => []
  | c :: r =>
      match r with
      | d :: r' =>
          if is_high_surrogate c && is_low_surrogate d
          then [c; d] :: code_points r'
          else [c] :: code_points r
      | [] => [[c]]
      end
  end.

(** The elements an array literal receives from [...v]. *)
Definition iterate (v : JValue) : Completion (list JValue) :=
  match v with
  | JArray items => Return items
  | JString s => Return (map JString (code_points s))
  | _ => Throw (iter_error_message E v)
  end.

End WithEngine.

(** [ToBoolean] *)
Definition truthy (v : JValue) : bool :=
  match v with
  | JUndefined | JNull => false
  | JBool b => b
  | JNumber (S754_zero _) | JNumber S754_nan => false
  | JNumber _ => true
  | JString [] => false
  | JString (_ :: _) => true
  | JArray _ | JObject _ => true
  end.

(** [a || b] *)
Definition or_else (a b : JValue) : JValue := if truthy a then a else b.

(** [y ?? x] *)
Definition nullish (v : JValue) : bool :=
  match v with
  | JUndefined | JNull => true
  | _ => false
  end.

Definition indexed (items : list JValue) : Props :=
  combine (map (fun i => decimal (N.of_nat i)) (seq 0 (length items))) items.

(** The own enumerable properties that [{...v}] copies. *)
Definition own_enumerable (v : JValue) : Props :=
  match v with
  | JObject ps => ps
  | JArray items => indexed items
  | JString s => indexed (map (fun c => JString [c]) s)
  | _ => []
  end.

(** [{...v, k1: v1, ...}]: the object literal that spreads [v] and then
    defines [more]. *)
Definition spread_object (v : JValue) (more : Props) : JValue :=
  JObject (fold_left (fun o kv => define (fst kv) (snd kv) o)
                     (own_enumerable v ++ more) []).

(** [String.prototype.includes] *)
Fixpoint includes (s sub : jstring) : bool :=
  startsWith s sub ||
  match s with
  | [] => false
  | _ :: r => includes r sub
  end.

End JS.

(* ===================================================================== *)
(** * Zod schemas                                                         *)
(* ===================================================================== *)

Module Zod.
Import JS.

(** The combinators the validators use. *)
#[local] Unset Elimination Schemes.
Inductive Schema : Type :=
| ZString (min : option nat)
| ZNumber (min max : option Z)
| ZBoolean
| ZEnum (options : list jstring)
| ZOptional (inner : Schema)
| ZNullable (inner : Schema)
| ZArray (element : Schema)
| ZObject (shape : list (jstring * Schema))
| ZRecord (value : Schema)
| ZUnion (alternatives : list Schema)
| ZRefine (inner : Schema) (check : JValue -> bool) (message : jstring).
#[local] Set Elimination Schemes.

Inductive PathItem : Type :=
| Key (k : jstring)
| Index (i : nat).

Record Issue : Type := { path : list PathItem; message : jstring }.

Inductive Status : Type := Valid | Dirty | Aborted.

Definition merge (a b : Status) : Status :=
  match a, b with
  | Aborted, _ | _, Aborted => Aborted
  | Dirty, _ | _, Dirty => Dirty
  | Valid, Valid => Valid
  end.

(** [getParsedType] *)
Definition parsed_type (v : JValue) : jstring :=
  match v with
  | JUndefined => str "undefined"
  | JNull => str "null"
  | JBool _ => str "boolean"
  | JNumber S754_nan => str "nan"
  | JNumber _ => str "number"
  | JString _ => str "string"
  | JArray _ => str "array"
  | JObject _ => str "object"
  end.

(** The default error map. *)
Definition invalid_type (p : list PathItem) (expected : jstring) (v : JValue)
  : Status * list Issue :=
  (Aborted,
   [{| path := p;
       message := match v with
                  | JUndefined => str "Required"
                  | _ => str "Expected " ++ expected ++ str ", received "
                         ++ parsed_type v
                  end |}]).

Definition joinValues (options : list jstring) : jstring :=
  join (str " | ") (map (fun o => chr "'" :: o ++ [chr "'"]) options).

Definition valid : Status * list Issue := (Valid, []).

Definition both (a b : Status * list Issue) : Status * list Issue :=
  (merge (fst a) (fst b), snd a ++ snd b).

(** [schema._parse] on [data] at [p]: the status and the issues added. *)
Fixpoint zparse (sch : Schema) (p : list PathItem) (data : JValue)
  {struct sch} : Status * list Issue :=
  match sch with
  | ZString min =>
      match data with
      | JString s =>
          match min with
          | Some n =>
              if length s <? n then
                (Dirty, [{| path := p;
                            message := str "String must contain at least "
                                       ++ decimal (N.of_nat n)
                                       ++ str " character(s)" |}])
              else valid
          | None => valid
          end
      | _ => invalid_type p (str "string") data
      end
  | ZNumber min max =>
      match data with
      | JNumber S754_nan => invalid_type p (str "number") data
      | JNumber x =>
          both
            match min with
            | Some lo =>
                if SFltb x (Number_of_Z lo) then
                  (Dirty, [{| path := p;
                              message := str "Number must be greater than or equal to "
                                         ++ NumberToString (Number_of_Z lo) |}])
                else valid
            | None => valid
            end
            match max with
            | Some hi =>
                if SFltb (Number_of_Z hi) x then
                  (Dirty, [{| path := p;
                              message := str "Number must be less than or equal to "
                                         ++ NumberToString (Number_of_Z hi) |}])
                else valid
            | None => valid
            end
      | _ => invalid_type p (str "number") data
      end
  | ZBoolean =>
      match data with
      | JBool _ => valid
      | _ => invalid_type p (str "boolean") data
      end
  | ZEnum options =>
      match data with
      | JString s =>
          if existsb (jstring_eqb s) options then valid
          else (Aborted,
                [{| path := p;
                    message := str "Invalid enum value. Expected "
                               ++ joinValues options ++ str ", received '"
                               ++ s ++ str "'" |}])
      | _ => invalid_type p (joinValues options) data
      end
  | ZOptional inner =>
      match data with
      | JUndefined => valid
      | _ => zparse inner p data
      end
  | ZNullable inner =>
      match data with
      | JNull => valid
      | _ => zparse inner p data
      end
  | ZArray element =>
      match data with
      | JArray items =>
          fold_right both valid
            (map (fun iv => zparse element (p ++ [Index (fst iv)]) (snd iv))
                 (combine (seq 0 (length items)) items))
      | _ => invalid_type p (str "array") data
      end
  | ZObject shape =>
      match data with
      | JObject ps =>
          (fix fields (sh : list (jstring * Schema)) : Status * list Issue :=
             match sh with
             | [] => valid
             | ks :: rest =>
                 both (zparse (snd ks) (p ++ [Key (fst ks)]) (lookup (fst ks) ps))
                      (fields rest)
             end) shape
      | _ => invalid_type p (str "object") data
      end
  | ZRecord value =>
      match data with
      | JObject ps =>
          fold_right both valid
            (map (fun kv => zparse value (p ++ [Key (fst kv)]) (snd kv)) ps)
      | _ => invalid_type p (str "object") data
      end
  | ZUnion alternatives =>
      (fix try (alts : list Schema) (dirty : option (list Issue))
         : Status * list Issue :=
         match alts with
         | [] =>
             match dirty with
             | Some issues => (Dirty, issues)
             | None => (Aborted, [{| path := p; message := str "Invalid input" |}])
             end
         | a :: rest =>
             match zparse a p data with
             | (Valid, _) => valid
             | (Dirty, issues) =>
                 try rest (match dirty with
                           | None => Some issues
                           | Some _ => dirty
                           end)
             | (Aborted, _) => try rest dirty
             end
         end) alternatives None
  | ZRefine inner check msg =>
      match zparse inner p data with
      | (Aborted, issues) => (Aborted, issues)
      | (st, issues) =>
          if check data then (st, issues)
          else (Dirty, issues ++ [{| path := p; message := msg |}])
      end
  end.

(** [path.join('.')] *)
Definition path_string (p : list PathItem) : jstring :=
  join [chr "."]
    (map (fun it => match it with
                    | Key k => k
                    | Index i => decimal (N.of_nat i)
                    end) p).

(** [schema.parse(data)]: [inl tt] when it returns, [inr issues] when it
    throws a [ZodError]. *)
Definition parse (sch : Schema) (data : JValue) : unit + list Issue :=
  match zparse sch [] data with
  | (Valid, _) => inl tt
  | (_, issues) => inr issues
  end.

End Zod.

(* ===================================================================== *)
(** * src/utils/validators.js                                             *)
(* ===================================================================== *)

Module Validators.
Import JS Zod.
Local Open Scope js_scope.

Definition is_undefined (v : JValue) : bool :=
  match v with
  | JUndefined => true
  | _ => false
  end.

Definition number_or_string : Schema := ZUnion [ZNumber None None; ZString None].

Definition MetricSchema : Schema :=
  ZRefine
    (ZObject
       [(str "name", ZString None);
        (str "value", ZOptional number_or_string);
        (str "threshold", ZOptional (ZString None));
        (str "thresholdRange", ZOptional (ZString None));
        (str "pass", ZOptional ZBoolean);
        (str "actual", ZOptional number_or_string);
        (str "points", ZOptional (ZNumber None None));
        (str "result", ZOptional (ZString None));
        (str "weightedScore", ZOptional (ZNumber None None))])
    (fun data =>
       match data with
       | JObject ps => negb (is_undefined (lookup (str "value") ps))
                       || negb (is_undefined (lookup (str "actual") ps))
       | _ => false
       end)
    (str "Either 'value' or 'actual' must be provided").

Definition MetricGroupSchema : Schema :=
  ZObject [(str "overall", ZString None); (str "metrics", ZArray MetricSchema)].

Definition StockInputSchema : Schema :=
  ZObject
    [(str "stock",
      ZObject [(str "symbol", ZString None); (str "name", ZString None);
               (str "asOf", ZString None); (str "overallResult", ZString None)]);
     (str "quantitative",
      ZObject
        [(str "fundamentalResilience", MetricGroupSchema);
         (str "asymmetricRiskReward", MetricGroupSchema);
         (str "technicalConfirmation", MetricGroupSchema);
         (str "riskSensitivityAlignment",
          ZObject [(str "overall", ZString None);
                   (str "signals",
                    ZArray (ZObject [(str "name", ZString None);
                                     (str "pass", ZBoolean)]))])]);
     (str "sis",
      ZObject [(str "overall", ZNumber None None);
               (str "stocks",
                ZArray (ZObject [(str "symbol", ZString None);
                                 (str "name", ZString None);
                                 (str "sisScore", ZNumber None None);
                                 (str "metrics", ZArray MetricSchema)]))]);
     (str "ssis",
      ZObject [(str "overall", ZNumber None None);
               (str "peers",
                ZArray (ZObject [(str "symbol", ZString None);
                                 (str "name", ZString None);
                                 (str "overallScore", ZNumber None None);
                                 (str "metrics", ZArray MetricSchema)]))]);
     (str "qualitative",
      ZObject [(str "overallRating", ZNumber None None);
               (str "criteria",
                ZArray (ZObject [(str "name", ZString None);
                                 (str "score", ZNumber None None);
                                 (str "notes", ZNullable (ZString None))]))]);
     (str "peerComparison",
      ZObject [(str "baseSymbol", ZString None);
               (str "peers",
                ZArray (ZObject [(str "name", ZString None);
                                 (str "symbol", ZString None);
                                 (str "metrics", ZRecord (ZString None))]))])].

Definition StockAnalysisOutputSchema : Schema :=
  ZObject
    [(str "overallScore", ZNumber (Some 0%Z) (Some 100%Z));
     (str "recommendation", ZEnum [str "Buy"; str "Watchlist"; str "Avoid"]);
     (str "financialHealth", ZString (Some 50));
     (str "valuation", ZString (Some 50));
     (str "futureGrowth", ZString (Some 50));
     (str "competitiveAdvantage", ZString (Some 50));
     (str "managementQuality", ZString (Some 50));
     (str "riskFactors", ZString (Some 50));
     (str "technicalTrend", ZString (Some 50));
     (str "portfolioFit", ZString (Some 50));
     (str "timeHorizon", ZString (Some 50));
     (str "aiSummary", ZString (Some 100));
     (str "finalVerdict", ZString (Some 50))].

Record ValidationResult : Type := { success : bool; errors : list jstring }.

(** The [catch] of both validators also handles errors other than a
    [ZodError]; [schema.parse] throws no other, so that branch is not
    reached. *)
Definition validate (sch : Schema) (data : JValue) : ValidationResult :=
  match Zod.parse sch data with
  | inl _ => {| success := true; errors := [] |}
  | inr issues =>
      {| success := false;
         errors := map (fun e => path_string (path e) ++ str ": " ++ message e)
                       issues |}
  end.

Definition validateInput : JValue -> ValidationResult := validate StockInputSchema.
Definition validateOutput : JValue -> ValidationResult :=
  validate StockAnalysisOutputSchema.

Section WithEngine.
Variable E : Engine.

(** [...data.quantitative.<group>.metrics] *)
Definition group_metrics (data : JValue) (group : jstring)
  : Completion (list JValue) :=
  let* q := get E data (str "quantitative") in
  let* g := get E q group in
  let* m := get E g (str "metrics") in
  iterate E m.

(** The [forEach] over [allMetrics], pushing names onto [passedMetrics]
    and [failedMetrics]. *)
Fixpoint classify (metrics passed failed : list JValue)
  : Completion (list JValue * list JValue) :=
  match metrics with
  | [] => Return (passed, failed)
  | metric :: rest =>
      let* pass := get E metric (str "pass") in
      match pass with
      | JBool true =>
          let* name := get E metric (str "name") in
          classify rest (passed ++ [name]) failed
      | JBool false =>
          let* name := get E metric (str "name") in
          classify rest passed (failed ++ [name])
      | _ => classify rest passed failed
      end
  end.

(** [(passed / total * 100).toFixed(1)] *)
Definition passRate (passed total : nat) : jstring :=
  Number_toFixed 1
    (Number_mul (Number_div (Number_of_nat passed) (Number_of_nat total))
                (Number_of_Z 100)).

Definition extractKeyMetrics (data : JValue) : Completion JValue :=
  let* m1 := group_metrics data (str "fundamentalResilience") in
  let* m2 := group_metrics data (str "asymmetricRiskReward") in
  let* m3 := group_metrics data (str "technicalConfirmation") in
  let allMetrics := m1 ++ m2 ++ m3 in
  let* pf := classify allMetrics [] [] in
  let '(passedMetrics, failedMetrics) := pf in
  let* sis := get E data (str "sis") in
  let* sisScore := get E sis (str "overall") in
  let* ssis := get E data (str "ssis") in
  let* ssisScore := get E ssis (str "overall") in
  let* qualitative := get E data (str "qualitative") in
  let* qualitativeRating := get E qualitative (str "overallRating") in
  Return (JObject
    [(str "totalMetrics", JNumber (Number_of_nat (length allMetrics)));
     (str "passedCount", JNumber (Number_of_nat (length passedMetrics)));
     (str "failedCount", JNumber (Number_of_nat (length failedMetrics)));
     (str "passRate",
      JString (passRate (length passedMetrics) (length allMetrics)));
     (str "sisScore", sisScore);
     (str "ssisScore", ssisScore);
     (str "qualitativeRating", qualitativeRating);
     (str "passedMetrics", JArray passedMetrics);
     (str "failedMetrics", JArray failedMetrics)]).

End WithEngine.

End Validators.

(* ===================================================================== *)
(** * The agent's environment                                             *)
(* ===================================================================== *)

Module Runtime.
Import JS.

(** [CONFIG] of src/config/settings.js *)
Record Config : Type := {
  googleApiKey : jstring;
  geminiModel : jstring;
  mockMode : bool;
  temperature : number;
  maxOutputTokens : N;
  topP : number;
  topK : N;
  maxRetries : nat;
  timeoutMs : N;
  weights : list (jstring * number)
}.

(** The Gemini model object held by the agent classes.
    [generateContent n prompt] is the outcome of the [n]-th request of a
    run (counting from 0) when it carries [prompt]: the text of the
    response, or the error with which the request or the reading of the
    response fails. *)
Record Model : Type := {
  modelName : JValue;
  generateContent : nat -> jstring -> Completion jstring
}.

Record Env : Type := {
  engine : Engine;
  config : Config;
  model : Model;
  (** [new Date().toISOString()] at the [n]-th reading of the clock *)
  now : nat -> jstring;
  (** the prompt sent for an input: [SYSTEM_PROMPT], a blank line and
      [ANALYSIS_PROMPT] with the input filled in *)
  fullPrompt : JValue -> jstring
}.

Inductive Level : Type := Log | Warn | Error.

(** What a run has done so far. *)
Record World : Type := {
  requests : list jstring;          (* prompts sent to the model, in order *)
  timers : list number;             (* delays passed to [setTimeout] *)
  console : list (Level * jstring); (* output of src/agent/gemini-client.js *)
  clock_reads : nat;
  analysisHistory : list JValue     (* [StockAnalyzer.analysisHistory] *)
}.

Definition initial_world : World :=
  {| requests := []; timers := []; console := []; clock_reads := 0;
     analysisHistory := [] |}.

(** Effectful code: a world transformer that returns or throws. *)
Definition M (A : Type) : Type := World -> Completion A * World.

Definition ret {A : Type} (a : A) : M A := fun w => (Return a, w).
Definition throw {A : Type} (m : jstring) : M A := fun w => (Throw m, w).
Definition lift {A : Type} (c : Completion A) : M A := fun w => (c, w).

Definition bind {A B : Type} (c : M A) (k : A -> M B) : M B :=
  fun w => match c w with
           | (Return a, w') => k a w'
           | (Throw m, w') => (Throw m, w')
           end.

(** [try { c } catch (error) { handler(error.message) }] *)
Definition try_catch {A : Type} (c : M A) (handler : jstring -> M A) : M A :=
  fun w => match c w with
           | (Return a, w') => (Return a, w')
           | (Throw m, w') => handler m w'
           end.

Declare Scope m_scope.
Delimit Scope m_scope with m.
Notation "x <- c ;; k" := (bind c (fun x => k))
  (at level 61, c at next level, right associativity) : m_scope.
Notation "c ;;; k" := (bind c (fun _ => k))
  (at level 61, right associativity) : m_scope.

Definition print (l : Level) (text : jstring) : M unit :=
  fun w => (Return tt,
            {| requests := requests w; timers := timers w;
               console := console w ++ [(l, text)];
               clock_reads := clock_reads w;
               analysisHistory := analysisHistory w |}).

(** [await new Promise(resolve => setTimeout(resolve, ms))] *)
Definition sleep (ms : number) : M unit :=
  fun w => (Return tt,
            {| requests := requests w; timers := timers w ++ [ms];
               console := console w; clock_reads := clock_reads w;
               analysisHistory := analysisHistory w |}).

Definition push_history (entry : JValue) : M unit :=
  fun w => (Return tt,
            {| requests := requests w; timers := timers w;
               console := console w; clock_reads := clock_reads w;
               analysisHistory := analysisHistory w ++ [entry] |}).

Section WithEnv.
Variable env : Env.

(** One request to the model: [generateContent], [result.response] and
    [response.text()]. *)
Definition request (prompt : jstring) : M jstring :=
  fun w => (generateContent (model env) (length (requests w)) prompt,
            {| requests := requests w ++ [prompt]; timers := timers w;
               console := console w; clock_reads := clock_reads w;
               analysisHistory := analysisHistory w |}).

(** [new Date().toISOString()] *)
Definition toISOString_now : M jstring :=
  fun w => (Return (now env (clock_reads w)),
            {| requests := requests w; timers := timers w;
               console := console w; clock_reads := S (clock_reads w);
               analysisHistory := analysisHistory w |}).

End WithEnv.

End Runtime.

(* ===================================================================== *)
(** * src/config/settings.js: [validateConfig]                            *)
(* ===================================================================== *)

Module Settings.
Import JS Runtime.

(** [x < y] on numbers: false when either is NaN. *)
Definition Number_lt (x y : number) : bool := SFltb x y.

(** The [errors] array of [validateConfig] when it is tested. *)
Definition config_errors (c : Config) : list jstring :=
  (if negb (truthy (JString (googleApiKey c)))
   then [str "GOOGLE_API_KEY is not set in environment variables"] else [])
  ++ (if Number_lt (temperature c) (Number_of_Z 0)
         || Number_lt (Number_of_Z 1) (temperature c)
      then [str "TEMPERATURE must be between 0 and 1"] else []).

(** [validateConfig] *)
Definition validateConfig (c : Config) : Completion bool :=
  let errors := config_errors c in
  if 0 <? length errors then
    Throw (str "Configuration errors:" ++ LF :: join [LF] errors)
  else Return true.

End Settings.

(* ===================================================================== *)
(** * src/agent/gemini-client.js                                          *)
(* ===================================================================== *)

Module GeminiClient.
Import JS Runtime.
Local Open Scope m_scope.

(** The report returned in mock mode. *)
Definition mockReport : JValue :=
  JObject
    [(str "overallScore", JNumber (Number_of_Z 70));
     (str "recommendation", JString (str "Watchlist"));
     (str "financialHealth", JString (str "The company exhibits a mixed financial health profile. Strengths include a Free Cash Flow Yield of 3%, which surpasses the >2% threshold, and a Return on Invested Capital (ROIC) of 11%, exceeding the >10% benchmark, both indicating efficient capital utilization and cash generation. However, a significant weakness is the Net Debt/EBITDA ratio of 4x, which is considerably above the <2.5x threshold, suggesting elevated leverage and potential financial risk. Additionally, the 5-year Revenue Growth CAGR of 3.5% falls short of the >5% target, indicating slower top-line expansion. The Risk Sensitivity Alignment signals confirm these mixed results, with FCF Yield and ROIC passing, while Net Debt/EBITDA and Revenue Growth fail."));
     (str "valuation", JString (str "The stock appears to be overvalued relative to its sector, as indicated by its Forward P/E being 'Above' the sector median, failing the 'Below Sector Median' threshold. While specific P/E and EV/EBITDA figures for TBD are not provided, a comparison with peers reveals a range: Broadcom (AVGO) has a P/E of 20.4 and EV/EBITDA of 15.8, Intel (INTC) stands at P/E 24.4 and EV/EBITDA 24.4, and Advanced Micro Device (AMD) at P/E 31.1 and EV/EBITDA 27.1. Given TBD's 'Above Sector' P/E, it suggests the stock is trading at a premium compared to many of its peers, implying it is likely overvalued at current levels."));
     (str "futureGrowth", JString (str "Future growth prospects appear challenged. The 5-year Revenue Growth CAGR of 3.5% is below the 5% threshold, indicating a sluggish historical growth trajectory. Furthermore, the Operating Leverage Trend is 'Negative', failing the 'Expanding' threshold, which suggests that the company is not effectively translating revenue growth into disproportionately higher operating income, potentially due to rising costs or inefficiencies. When compared to peers, TBD's 3.5% revenue growth significantly lags the EPS 3Y CAGR of AMD (26.7%), INTC (15.4%), and AVGO (7.3%). While the SIS/SSIS data provides Compounding Scores for peers (JD at 80, ETSY at 50), TBD's specific compounding score is not available, but its own growth metrics point to limited organic expansion."));
     (str "competitiveAdvantage", JString (str "The company exhibits mixed signals regarding its competitive advantage. A key strength is 'Significant' Insider Ownership/Buying, which passes its threshold, indicating strong alignment of management interests with shareholders and confidence in the company's future. However, the 'Negative' Relative Strength vs Sector, which fails the 'Positive' threshold, suggests the stock is underperforming its industry peers, potentially indicating a weakening competitive position or market perception. While direct performance metrics for TBD against peers are not provided, its significantly lower revenue growth (3.5% CAGR) compared to peers' EPS growth (e.g., AMD 26.7%, INTC 15.4%) further underscores a potential lag in market leadership or product innovation, challenging the presence of a strong, sustained competitive moat."));
     (str "managementQuality", JString (str "Management quality appears strong, as evidenced by an overall qualitative rating of 4.5. The 'Investment Process' and 'Valuation Approach' criteria both received a score of 4, indicating robust strategic planning and financial assessment capabilities. The 'Catalyst Recognition' score of 3, while slightly lower, still suggests a reasonable ability to identify and capitalize on market opportunities. Furthermore, the 'Significant' Insider Ownership/Buying metric, which passed its threshold, reinforces confidence in management, as their personal financial interests are closely tied to the company's success, aligning them with shareholder value creation."));
     (str "riskFactors", JString (str "Several risk factors warrant attention. Financial leverage is a concern, with Net Debt/EBITDA at 4x, significantly above the <2.5x threshold. Growth risks are highlighted by a 5-year Revenue Growth CAGR of 3.5% (below 5%) and a 'Negative' Operating Leverage Trend. Valuation risk is present as the Forward P/E is 'Above' the sector median. Technical risks include 'Negative' Relative Strength vs Sector. While TBD's specific Max Drawdown is not provided, peer data shows high drawdowns for JD (37%) and INTC (37.5%), indicating potential for significant price volatility. Beta values for peers range from 0.9 (AVGO) to 1.7 (AMD), suggesting that the sector can exhibit considerable market sensitivity, which could imply similar volatility for TBD."));
     (str "technicalTrend", JString (str "The technical trend presents a mixed picture. Positively, the stock is 'Above' its 200-day Moving Average, which is a bullish indicator. The Accumulation/Distribution Indicator is also 'Positive', suggesting buying interest. However, a significant concern is the 'Negative' Relative Strength vs Sector, indicating underperformance compared to its industry. While specific RSI and 50-DMA trends for TBD are not available, peer data shows RSI levels in a neutral range (AMD 54.6, INTC 57.3, AVGO 52.2) and mixed 50-DMA trends (AMD +2.3%, INTC +4.5%, AVGO -0.9%). Momentum scores for peers JD (46) and ETSY (10) are positive, but TBD's specific momentum is not provided, leaving its overall short-term price action outlook somewhat ambiguous despite the positive MA and accumulation signals."));
     (str "portfolioFit", JString (str "This stock is best suited for a balanced or quality-focused investor with a moderate to high-risk tolerance and a medium-to-long-term investment horizon. It is not ideal for pure growth investors due to its subdued revenue growth and negative operating leverage, nor for deep value investors given its 'Above Sector' P/E. Its strong Free Cash Flow Yield, Return on Invested Capital, and robust management quality suggest a company with underlying fundamental strength, which could appeal to investors seeking stable, albeit slower, compounding. However, the elevated debt levels and underperforming relative strength necessitate a careful assessment of its risk-adjusted return profile and a willingness to tolerate potential volatility."));
     (str "timeHorizon", JString (str "A medium to long-term time horizon is recommended for this investment. The current challenges in revenue growth and elevated debt levels suggest that short-term catalysts for significant price appreciation may be limited, as indicated by a 'Catalyst Recognition' score of 3. However, the company's strong fundamental resilience, demonstrated by its Free Cash Flow Yield and Return on Invested Capital, coupled with high-quality management and significant insider ownership, provides a foundation for potential long-term value creation. Investors should be prepared to hold the stock for several years to allow management to address growth and leverage concerns and for the market to potentially re-rate the stock based on improved operational performance."));
     (str "aiSummary", JString (str "TBD presents a complex investment profile with a blend of notable strengths and significant weaknesses. Key strengths include robust Free Cash Flow Yield (3%) and Return on Invested Capital (11%), strong qualitative management ratings (4.5 overall), and significant insider ownership, indicating sound operational efficiency and aligned leadership. Technically, it trades above its 200-day Moving Average with positive accumulation. However, the company faces critical challenges: high Net Debt/EBITDA (4x), sluggish 5-year Revenue Growth (3.5%), a negative Operating Leverage Trend, and a valuation that appears 'Above Sector' median. Its 'Negative' Relative Strength vs Sector also points to underperformance. The overall investment thesis suggests a fundamentally sound company with strong cash generation and management, but currently hampered by growth deceleration, elevated leverage, and a potentially stretched valuation. Critical decision factors for investors will revolve around management's ability to accelerate top-line growth and deleverage the balance sheet, while maintaining profitability. The mixed signals warrant a cautious approach, placing it on a 'Watchlist' rather than an immediate 'Buy'."));
     (str "finalVerdict", JString (str "TBD is a fundamentally solid but currently imbalanced opportunity that merits Watchlist status rather than an outright Buy. Its strengths in free cash flow generation, return on invested capital, and management quality provide a robust foundation, yet these positives are tempered by elevated leverage, subpar revenue growth, negative operating leverage, and valuation above sector norms. Until the company demonstrates tangible progress in accelerating top-line growth, improving operating efficiency, and reducing debt, the risk-reward profile remains skewed toward caution rather than aggressive accumulation."))].

(** [Math.pow(2, attempt) * 1000] *)
Definition waitTime (attempt : nat) : number :=
  Number_mul (Number_of_Z (Z.pow 2 (Z.of_nat attempt))) (Number_of_Z 1000).

Section WithEnv.
Variable env : Env.

(** The [for] loop of [invokeWithRetry], entered at [attempt] with
    [remaining = retries - attempt] iterations to go; [lastError] holds
    the message of the error caught last. *)
Fixpoint retry_loop (prompt : jstring) (retries remaining attempt : nat)
  (lastError : option jstring) : M jstring :=
  match remaining with
  | O =>
      match lastError with
      | Some msg =>
          throw (str "Failed after " ++ decimal (N.of_nat retries)
                 ++ str " attempts: " ++ msg)
      | None =>
          throw (read_error_message (engine env) JUndefined (str "message"))
      end
  | S remaining' =>
      try_catch (request env prompt)
        (fun msg =>
           print Error (str "Attempt " ++ decimal (N.of_nat (attempt + 1))
                        ++ str " failed: " ++ msg) ;;;
           (if attempt <? retries - 1 then
              print Log (str "Retrying in " ++ NumberToString (waitTime attempt)
                         ++ str "ms...") ;;;
              sleep (waitTime attempt)
            else ret tt) ;;;
           retry_loop prompt retries remaining' (S attempt) (Some msg))
  end.

Definition invokeWithRetry (prompt : jstring) (retries : nat) : M jstring :=
  if mockMode (config env) then ret (stringify mockReport)
  else retry_loop prompt retries retries 0 None.

(** The remainder of [s] after the longest match of [\s*\n] at its
    start. *)
Fixpoint after_space_newline (s : jstring) : option jstring :=
  match s with
  | c :: r =>
      if is_space c then
        match after_space_newline r with
        | Some t => Some t
        | None => if (c =? LF)%N then Some r else None
        end
      else None
  | [] => None
  end.

Definition fence : jstring := str "```".

(** [s.replace(/^```(?:json)?\s*\n/, '')] *)
Definition strip_opening_fence (s : jstring) : jstring :=
  if startsWith s fence then
    let r := skipn 3 s in
    let with_tag :=
      if startsWith r (str "json") then after_space_newline (skipn 4 r)
      else None in
    match with_tag with
    | Some t => t
    | None => match after_space_newline r with
              | Some t => t
              | None => s
              end
    end
  else s.

(** [s.replace(/\n```\s*$/, '')] *)
Fixpoint strip_closing_fence (s : jstring) : jstring :=
  match s with
  | [] => []
  | c :: r =>
      if (c =? LF)%N && startsWith r fence && forallb is_space (skipn 3 r)
      then []
      else c :: strip_closing_fence r
  end.

(** [s.match(/\{[\s\S]*\}/)]: from the first opening brace to the last
    closing brace after it. *)
Definition json_span (s : jstring) : option jstring :=
  match indexOf (chr "{") s with
  | Some i =>
      let t := skipn i s in
      match lastIndexOf (chr "}") t with
      | Some j => Some (firstn (S j) t)
      | None => None
      end
  | None => None
  end.

(** The text handed to [JSON.parse]. *)
Definition clean (response : jstring) : jstring :=
  let cleaned := trim response in
  let cleaned :=
    if startsWith cleaned fence
    then strip_closing_fence (strip_opening_fence cleaned)
    else cleaned in
  match json_span cleaned with
  | Some m => m
  | None => cleaned
  end.

(** The text of the second attempt, when there is one. *)
Definition repair (cleaned : jstring) : option jstring :=
  match lastIndexOf (chr "}") cleaned with
  | Some lastBrace =>
      if 0 <? lastBrace then
        let truncated := substring 0 (lastBrace + 1) cleaned in
        Some
          (if Nat.odd (count_char DQUOTE truncated) then
             match lastIndexOf DQUOTE truncated with
             | Some lastQuote =>
                 if (0 <? lastQuote)
                    && negb (nth (lastQuote - 1) truncated 0 =? BACKSLASH)%N
                 then
                   let beforeQuote := substring 0 lastQuote truncated in
                   if Nat.odd (count_char DQUOTE beforeQuote)
                   then substring 0 (lastQuote + 1) truncated ++ [DQUOTE]
                   else truncated
                 else truncated
             | None => truncated
             end
           else truncated)
      else None
  | None => None
  end.

Definition throw_invalid (cleaned error_message : jstring) : M JValue :=
  print Error (str "Failed to parse JSON response. First 500 chars: "
               ++ substring 0 500 cleaned) ;;;
  throw (str "Invalid JSON response from model: " ++ error_message).

Definition parseJsonResponse (response : JValue) : M JValue :=
  match response with
  | JString text =>
      let cleaned := clean text in
      match JSON_parse (engine env) cleaned with
      | Return v => ret v
      | Throw error_message =>
          match repair cleaned with
          | Some fixed =>
              match JSON_parse (engine env) fixed with
              | Return v => ret v
              | Throw _ =>
                  print Warn (str "Attempting to recover JSON by extracting object...") ;;;
                  throw_invalid cleaned error_message
              end
          | None => throw_invalid cleaned error_message
          end
      end
  | JUndefined | JNull =>
      throw (read_error_message (engine env) response (str "trim"))
  | _ => throw (call_error_message (engine env) response (str "trim"))
  end.

End WithEnv.

End GeminiClient.

(* ===================================================================== *)
(** * src/agent/stock-analyzer.js                                         *)
(* ===================================================================== *)

Module Analyzer.
Import JS Runtime Validators GeminiClient.
Local Open Scope m_scope.

Section WithEnv.
Variable env : Env.
Let E := engine env.

(** The [metadata] block both enriching paths build. *)
Definition metadata (inputData keyMetrics : JValue) : M JValue :=
  stock <- lift (get E inputData (str "stock")) ;;
  stockSymbol <- lift (get E stock (str "symbol")) ;;
  stock <- lift (get E inputData (str "stock")) ;;
  stockName <- lift (get E stock (str "name")) ;;
  analysisDate <- toISOString_now env ;;
  stock <- lift (get E inputData (str "stock")) ;;
  asOfDate <- lift (get E stock (str "asOf")) ;;
  ret (JObject
         [(str "stockSymbol", stockSymbol);
          (str "stockName", stockName);
          (str "analysisDate", JString analysisDate);
          (str "asOfDate", asOfDate);
          (str "keyMetrics", keyMetrics);
          (str "modelUsed",
           or_else (modelName (model env)) (JString (str "gemini-1.5-pro")));
          (str "version", JString (str "1.0.0"))]).

(** [StockAnalyzer.analyze].  What this file writes to the console is not
    recorded; step 5, which validates the report and does nothing but
    log the outcome, leaves no trace here. *)
Definition analyze (inputData : JValue) : M JValue :=
  let inputValidation := validateInput inputData in
  if negb (success inputValidation) then
    throw (str "Input validation failed:" ++ LF :: join [LF] (errors inputValidation))
  else
    keyMetrics <- lift (extractKeyMetrics E inputData) ;;
    rawResponse <- invokeWithRetry env (fullPrompt env inputData)
                                   (maxRetries (config env)) ;;
    report <- try_catch (parseJsonResponse env (JString rawResponse))
                (fun msg => throw (str "Failed to generate valid JSON report: "
                                   ++ msg)) ;;
    meta <- metadata inputData keyMetrics ;;
    let enrichedReport := spread_object report [(str "metadata", meta)] in
    timestamp <- toISOString_now env ;;
    stock <- lift (get E inputData (str "stock")) ;;
    symbol <- lift (get E stock (str "symbol")) ;;
    recommendation <- lift (get E report (str "recommendation")) ;;
    score <- lift (get E report (str "overallScore")) ;;
    push_history (JObject [(str "timestamp", JString timestamp);
                           (str "symbol", symbol);
                           (str "recommendation", recommendation);
                           (str "score", score)]) ;;;
    ret enrichedReport.

(** [stockDataArray[i]?.stock?.symbol || 'Unknown'] *)
Definition symbol_hint (item : JValue) : JValue :=
  or_else (read_optional (read_optional item (str "stock")) (str "symbol"))
          (JString (str "Unknown")).

(** One iteration of the loop in [batchAnalyze]: the entry pushed onto
    [results]. *)
Definition batch_item (item : JValue) : M JValue :=
  try_catch
    (result <- analyze item ;;
     ret (JObject [(str "success", JBool true); (str "data", result)]))
    (fun msg =>
       ret (JObject [(str "success", JBool false);
                     (str "error", JString msg);
                     (str "symbol", symbol_hint item)])).

Fixpoint batch_loop (items results : list JValue) : M (list JValue) :=
  match items with
  | [] => ret results
  | item :: rest =>
      r <- batch_item item ;;
      batch_loop rest (results ++ [r])
  end.

(** [StockAnalyzer.batchAnalyze] *)
Definition batchAnalyze (stockDataArray : list JValue) : M (list JValue) :=
  batch_loop stockDataArray [].

End WithEnv.

End Analyzer.

(* ===================================================================== *)
(** * src/agent/langgraph-workflow.js                                     *)
(* ===================================================================== *)

Module Workflow.
Import JS Runtime Validators GeminiClient.
Local Open Scope m_scope.

(** The values the nodes give to [step]. *)
Inductive StepTag : Type :=
| init | error | parallel_processing | parse_response | enrich_report
| complete | extract_metrics | generate_analysis | validate_output.

Record AnalysisState : Type := {
  inputData : JValue;
  validatedInput : bool;
  keyMetrics : JValue;
  rawAnalysis : JValue;
  parsedReport : JValue;
  validatedReport : bool;
  finalReport : JValue;
  errors : list jstring;
  step : StepTag
}.

(** How the compiled graph combines the object a node returns with the
    state it holds.  The source declares a function for each channel;
    [Declared] applies it.  The graph library gives a channel that is
    declared by a bare function the behaviour of a last-value channel;
    [LastValue] is that reading.  The theorems hold for both. *)
Inductive Channels : Type := Declared | LastValue.

(** [(x, y) => y ?? x] *)
Definition coalesce (x y : JValue) : JValue := if nullish y then x else y.

Definition write (ch : Channels) (old update : AnalysisState) : AnalysisState :=
  match ch with
  | LastValue => update
  | Declared =>
      {| inputData := coalesce (inputData old) (inputData update);
         validatedInput := validatedInput update;
         keyMetrics := coalesce (keyMetrics old) (keyMetrics update);
         rawAnalysis := coalesce (rawAnalysis old) (rawAnalysis update);
         parsedReport := coalesce (parsedReport old) (parsedReport update);
         validatedReport := validatedReport update;
         finalReport := coalesce (finalReport old) (finalReport update);
         errors := errors old ++ errors update;
         step := step update |}
  end.

(** The channels before the input is written. *)
Definition unset : AnalysisState :=
  {| inputData := JUndefined; validatedInput := false;
     keyMetrics := JUndefined; rawAnalysis := JUndefined;
     parsedReport := JUndefined; validatedReport := false;
     finalReport := JUndefined; errors := []; step := init |}.

(** [initialState] of [execute] *)
Definition initialState (input : JValue) : AnalysisState :=
  {| inputData := input; validatedInput := false;
     keyMetrics := JNull; rawAnalysis := JNull;
     parsedReport := JNull; validatedReport := false;
     finalReport := JNull; errors := []; step := init |}.

Definition with_errors (st : AnalysisState) (more : list jstring)
  : AnalysisState :=
  {| inputData := inputData st; validatedInput := validatedInput st;
     keyMetrics := keyMetrics st; rawAnalysis := rawAnalysis st;
     parsedReport := parsedReport st; validatedReport := validatedReport st;
     finalReport := finalReport st; errors := errors st ++ more;
     step := error |}.

(** A compiled graph: the nodes, the function of each, and the edge that
    leaves each ([None] is [END]). *)
Section Graph.
Variable Node : Type.
Variable node : Node -> AnalysisState -> M AnalysisState.
Variable edge : Node -> AnalysisState -> option Node.
Variable ch : Channels.

(** One superstep: run [n], write what it returns, follow its edge. *)
Definition superstep (n : Node) (st : AnalysisState)
  : M (option Node * AnalysisState) :=
  update <- node n st ;;
  let st' := write ch st update in
  ret (edge n st', st').

(** [limit] is the recursion limit of the graph library. *)
Fixpoint run (limit : nat) (n : Node) (st : AnalysisState) : M AnalysisState :=
  match limit with
  | O => throw (str "Recursion limit reached without hitting a stop condition")
  | S limit' =>
      r <- superstep n st ;;
      match fst r with
      | Some n' => run limit' n' (snd r)
      | None => ret (snd r)
      end
  end.

(** The states a run goes through, the first being the one it starts from. *)
Fixpoint states (limit : nat) (n : Node) (st : AnalysisState) (w : World)
  : list AnalysisState :=
  st ::
  match limit with
  | O => []
  | S limit' =>
      match superstep n st w with
      | (Return (Some n', st'), w') => states limit' n' st' w'
      | (Return (None, st'), _) => [st']
      | (Throw _, _) => []
      end
  end.

End Graph.

Definition recursionLimit : nat := 25.

Section WithEnv.
Variable env : Env.
Let E := engine env.

(** *** The nodes shared by both workflow definitions *)

Definition validate_input_node (next : StepTag) (state : AnalysisState)
  : M AnalysisState :=
  let validation := validateInput (inputData state) in
  if negb (success validation) then
    ret {| inputData := inputData state; validatedInput := false;
           keyMetrics := keyMetrics state; rawAnalysis := rawAnalysis state;
           parsedReport := parsedReport state;
           validatedReport := validatedReport state;
           finalReport := finalReport state;
           errors := errors state ++ Validators.errors validation;
           step := error |}
  else
    ret {| inputData := inputData state; validatedInput := true;
           keyMetrics := keyMetrics state; rawAnalysis := rawAnalysis state;
           parsedReport := parsedReport state;
           validatedReport := validatedReport state;
           finalReport := finalReport state; errors := errors state;
           step := next |}.

Definition parse_response_node (next : StepTag) (state : AnalysisState)
  : M AnalysisState :=
  try_catch
    (parsed <- parseJsonResponse env (rawAnalysis state) ;;
     ret {| inputData := inputData state;
            validatedInput := validatedInput state;
            keyMetrics := keyMetrics state; rawAnalysis := rawAnalysis state;
            parsedReport := parsed;
            validatedReport := validatedReport state;
            finalReport := finalReport state; errors := errors state;
            step := next |})
    (fun msg => ret (with_errors state [str "Parse error: " ++ msg])).

Definition error_node (state : AnalysisState) : M AnalysisState :=
  ret {| inputData := inputData state; validatedInput := validatedInput state;
         keyMetrics := keyMetrics state; rawAnalysis := rawAnalysis state;
         parsedReport := parsedReport state;
         validatedReport := validatedReport state;
         finalReport :=
           JObject [(str "error", JBool true);
                    (str "errors", JArray (map JString (errors state)));
                    (str "message", JString (str "Analysis failed"))];
         errors := errors state;
         step := complete |}.

(** *** The workflow of src/agent/langgraph-workflow.js *)

Inductive Node : Type :=
| validate_input_n | parallel_processing_n | parse_response_n
| enrich_report_n | error_n.

(** [Promise.all] over the two tasks.  Task A runs to its end before task
    B starts; the requests of task B are carried out whatever task A
    did. *)
Definition parallel_processing_node (state : AnalysisState) : M AnalysisState :=
  try_catch
    (fun w =>
       let a := extractKeyMetrics E (inputData state) in
       let '(b, w') := invokeWithRetry env (fullPrompt env (inputData state))
                                       (maxRetries (config env)) w in
       match a, b with
       | Throw m, _ => (Throw m, w')
       | Return _, Throw m => (Throw m, w')
       | Return metrics, Return raw =>
           (Return {| inputData := inputData state;
                      validatedInput := validatedInput state;
                      keyMetrics := metrics; rawAnalysis := JString raw;
                      parsedReport := parsedReport state;
                      validatedReport := validatedReport state;
                      finalReport := finalReport state;
                      errors := errors state; step := parse_response |}, w')
       end)
    (fun msg => ret (with_errors state [msg])).

(** "Return ONLY the parsed report from the AI, no extra metadata" *)
Definition enrich_report_node (state : AnalysisState) : M AnalysisState :=
  ret {| inputData := inputData state; validatedInput := validatedInput state;
         keyMetrics := keyMetrics state; rawAnalysis := rawAnalysis state;
         parsedReport := parsedReport state;
         validatedReport := validatedReport state;
         finalReport := parsedReport state; errors := errors state;
         step := complete |}.

Definition node (n : Node) : AnalysisState -> M AnalysisState :=
  match n with
  | validate_input_n => validate_input_node parallel_processing
  | parallel_processing_n => parallel_processing_node
  | parse_response_n => parse_response_node enrich_report
  | enrich_report_n => enrich_report_node
  | error_n => error_node
  end.

Definition edge (n : Node) (state : AnalysisState) : option Node :=
  match n with
  | validate_input_n =>
      Some (if validatedInput state then parallel_processing_n else error_n)
  | parallel_processing_n => Some parse_response_n
  | parse_response_n => Some enrich_report_n
  | enrich_report_n => None
  | error_n => None
  end.

Section WithChannels.
Variable ch : Channels.

(** [this.graph.invoke(initialState)] *)
Definition invoke (initial : AnalysisState) : M AnalysisState :=
  run node edge ch recursionLimit validate_input_n (write ch unset initial).

(** [StockAnalysisWorkflow.execute] *)
Definition execute (input : JValue) : M JValue :=
  result <- invoke (initialState input) ;;
  ret (finalReport result).

End WithChannels.

End WithEnv.

End Workflow.

(* ===================================================================== *)
(** * The second workflow definition (src/unnamed/part_001)               *)
(* ===================================================================== *)

Module SequentialWorkflow.
Import JS Runtime Validators GeminiClient Workflow.
Local Open Scope m_scope.

Inductive Node : Type :=
| validate_input_n | extract_metrics_n | generate_analysis_n
| parse_response_n | validate_output_n | enrich_report_n | error_n.

Section WithEnv.
Variable env : Env.
Let E := engine env.

Definition extract_metrics_node (state : AnalysisState) : M AnalysisState :=
  metrics <- lift (extractKeyMetrics E (inputData state)) ;;
  ret {| inputData := inputData state; validatedInput := validatedInput state;
         keyMetrics := metrics; rawAnalysis := rawAnalysis state;
         parsedReport := parsedReport state;
         validatedReport := validatedReport state;
         finalReport := finalReport state; errors := errors state;
         step := generate_analysis |}.

Definition generate_analysis_node (state : AnalysisState) : M AnalysisState :=
  try_catch
    (response <- invokeWithRetry env (fullPrompt env (inputData state))
                                 (maxRetries (config env)) ;;
     ret {| inputData := inputData state;
            validatedInput := validatedInput state;
            keyMetrics := keyMetrics state; rawAnalysis := JString response;
            parsedReport := parsedReport state;
            validatedReport := validatedReport state;
            finalReport := finalReport state; errors := errors state;
            step := parse_response |})
    (fun msg => ret (with_errors state [msg])).

Definition validate_output_node (state : AnalysisState) : M AnalysisState :=
  let validation := validateOutput (parsedReport state) in
  ret {| inputData := inputData state; validatedInput := validatedInput state;
         keyMetrics := keyMetrics state; rawAnalysis := rawAnalysis state;
         parsedReport := parsedReport state;
         validatedReport := success validation;
         finalReport := finalReport state; errors := errors state;
         step := enrich_report |}.

Definition enrich_report_node (state : AnalysisState) : M AnalysisState :=
  meta <- Analyzer.metadata env (inputData state) (keyMetrics state) ;;
  let enriched := spread_object (parsedReport state) [(str "metadata", meta)] in
  ret {| inputData := inputData state; validatedInput := validatedInput state;
         keyMetrics := keyMetrics state; rawAnalysis := rawAnalysis state;
         parsedReport := parsedReport state;
         validatedReport := validatedReport state;
         finalReport := enriched; errors := errors state;
         step := complete |}.

Definition node (n : Node) : AnalysisState -> M AnalysisState :=
  match n with
  | validate_input_n => validate_input_node extract_metrics
  | extract_metrics_n => extract_metrics_node
  | generate_analysis_n => generate_analysis_node
  | parse_response_n => parse_response_node env validate_output
  | validate_output_n => validate_output_node
  | enrich_report_n => enrich_report_node
  | error_n => error_node
  end.

Definition edge (n : Node) (state : AnalysisState) : option Node :=
  match n with
  | validate_input_n =>
      Some (if validatedInput state then extract_metrics_n else error_n)
  | extract_metrics_n => Some generate_analysis_n
  | generate_analysis_n => Some parse_response_n
  | parse_response_n => Some validate_output_n
  | validate_output_n => Some enrich_report_n
  | enrich_report_n => None
  | error_n => None
  end.

Section WithChannels.
Variable ch : Channels.

Definition invoke (initial : AnalysisState) : M AnalysisState :=
  run node edge ch recursionLimit validate_input_n (write ch unset initial).

Definition execute (input : JValue) : M JValue :=
  result <- invoke (initialState input) ;;
  ret (finalReport result).

End WithChannels.

End WithEnv.

End SequentialWorkflow.

(* ===================================================================== *)
(** * Sample data                                                         *)
(* ===================================================================== *)

Module Samples.
Import JS Runtime.

(** A sample engine.  Its message for reading a property of [undefined]
    or [null], and for calling [response.trim] on a value that has no
    such method, is that of V8 (Node.js 22).  For a failed [JSON.parse]
    it has one message, the one V8 gives for a text that ends before its
    value is complete; V8 words other syntax errors differently (with
    the position, or the offending token and the text), and the samples
    below show this engine's message only for a text of that kind.  The
    message for a value that is not iterable names the value, where V8
    names the expression. *)
Definition describe (v : JValue) : jstring :=
  match v with
  | JUndefined => str "undefined"
  | JNull => str "null"
  | _ => str "value"
  end.

Definition v8 : Engine :=
  {| json_error_message := fun _ => str "Unexpected end of JSON input";
     read_error_message := fun base k =>
       str "Cannot read properties of " ++ describe base
       ++ str " (reading '" ++ k ++ str "')";
     call_error_message := fun _ k => str "response." ++ k ++ str " is not a function";
     iter_error_message := fun v => describe v ++ str " is not iterable" |}.

(** The values of src/config/settings.js, with mock mode as given. *)
Definition settings (mock : bool) : Config :=
  {| googleApiKey := str "key";
     geminiModel := str "gemini-2.5-flash";
     mockMode := mock;
     temperature := decimal_to_number false 3 (-1);
     maxOutputTokens := 8192%N;
     topP := decimal_to_number false 95 (-2);
     topK := 40%N;
     maxRetries := 3;
     timeoutMs := 60000%N;
     weights := [(str "quantitative", decimal_to_number false 40 (-2));
                 (str "sis", decimal_to_number false 15 (-2));
                 (str "ssis", decimal_to_number false 15 (-2));
                 (str "qualitative", decimal_to_number false 20 (-2));
                 (str "peerComparison", decimal_to_number false 10 (-2))] |}.

(** A model whose every request fails. *)
Definition failing_model : Model :=
  {| modelName := JUndefined;
     generateContent := fun _ _ => Throw (str "fetch failed") |}.

(** A model that answers every request with [text]. *)
Definition constant_model (text : jstring) : Model :=
  {| modelName := JUndefined;
     generateContent := fun _ _ => Return text |}.

Definition sample_env (mock : bool) (m : Model) : Env :=
  {| engine := v8; config := settings mock; model := m;
     now := fun n => str "2025-12-15T00:00:0" ++ decimal (N.of_nat n) ++ str ".000Z";
     fullPrompt := fun _ => str "prompt" |}.

Definition metric (name : string) (pass : JValue) : JValue :=
  JObject [(str "name", JString (str name));
           (str "value", JNumber (Number_of_Z 1));
           (str "pass", pass)].

Definition group (metrics : list JValue) : JValue :=
  JObject [(str "overall", JString (str "Pass")); (str "metrics", JArray metrics)].

(** An input of the shape the schema asks for, with the given metrics in
    its three quantitative groups. *)
Definition input_with (symbol : string) (g1 g2 g3 : list JValue) : JValue :=
  JObject
    [(str "stock",
      JObject [(str "symbol", JString (str symbol));
               (str "name", JString (str "Test Corp"));
               (str "asOf", JString (str "2025-12-01"));
               (str "overallResult", JString (str "Pass"))]);
     (str "quantitative",
      JObject [(str "fundamentalResilience", group g1);
               (str "asymmetricRiskReward", group g2);
               (str "technicalConfirmation", group g3);
               (str "riskSensitivityAlignment",
                JObject [(str "overall", JString (str "Pass"));
                         (str "signals", JArray [])])]);
     (str "sis", JObject [(str "overall", JNumber (Number_of_Z 62));
                          (str "stocks", JArray [])]);
     (str "ssis", JObject [(str "overall", JNumber (Number_of_Z 55));
                           (str "peers", JArray [])]);
     (str "qualitative",
      JObject [(str "overallRating", JNumber (decimal_to_number false 45 (-1)));
               (str "criteria", JArray [])]);
     (str "peerComparison",
      JObject [(str "baseSymbol", JString (str symbol));
               (str "peers", JArray [])])].

Definition T := JBool true.
Definition F := JBool false.

(** Ten metrics, six passing and four failing. *)
Definition valid_input : JValue :=
  input_with "TBD"
    [metric "m1" T; metric "m2" T; metric "m3" F; metric "m4" T]
    [metric "m5" F; metric "m6" T; metric "m7" F]
    [metric "m8" T; metric "m9" T; metric "m10" F].

(** The invalid input of examples/api-usage.js: [stock.name] and the
    other required fields are missing. *)
Definition invalid_input : JValue :=
  JObject [(str "stock", JObject [(str "symbol", JString (str "BAD"))])].

(** [valid_input] without [stock.name]. *)
Definition input_missing_name : JValue :=
  match valid_input with
  | JObject ((k, JObject (sym :: _ :: more)) :: rest) =>
      JObject ((k, JObject (sym :: more)) :: rest)
  | v => v
  end.

Definition empty_input : JValue := input_with "TBD" [] [] [].

Definition quoted (s : string) : jstring := DQUOTE :: str s ++ [DQUOTE].

(** The text of an object with properties a and b that is cut off inside
    the string value of b: neither the closing quote nor the closing
    brace is there. *)
Definition text_unterminated : jstring :=
  str "{" ++ quoted "a" ++ str ":" ++ quoted "x" ++ str "," ++ quoted "b"
  ++ str ":" ++ DQUOTE :: str "unterminated".

(** The text of the object with a being x and b being y, followed by
    EXTRA. *)
Definition text_extra : jstring :=
  str "{" ++ quoted "a" ++ str ":" ++ quoted "x" ++ str "," ++ quoted "b"
  ++ str ":" ++ quoted "y" ++ str "}EXTRA".

(** The text of an object that ends after the colon of its first
    property: the input ends where a value is expected. *)
Definition text_cut_short : jstring := str "{" ++ quoted "a" ++ str ":".



End Samples.


(* ===================================================================== *)
(** * Vocabulary of the statements                                        *)
(* ===================================================================== *)

Module Spec.
Import JS Runtime Validators.


(** The elements of an array value. *)
Definition items (v : JValue) : list JValue :=
  match v with
  | JArray l => l
  | _ => []
  end.

(** [metric.pass === b] *)
Definition pass_is (b : bool) (metric : JValue) : bool :=
  match read metric (str "pass") with
  | JBool c => Bool.eqb b c
  | _ => false
  end.

Definition name_of (metric : JValue) : JValue := read metric (str "name").

(** The metric entries of one quantitative group of an input. *)
Definition group_entries (data : JValue) (group : string) : list JValue :=
  items (read (read (read data (str "quantitative")) (str group)) (str "metrics")).

(** The entries of the three groups, in the order of the source. *)
Definition all_entries (data : JValue) : list JValue :=
  group_entries data "fundamentalResilience"
  ++ group_entries data "asymmetricRiskReward"
  ++ group_entries data "technicalConfirmation".

(** The summary the claim describes: the counts and the names by the
    value of [pass], the scores copied from the input.  Its pass rate
    is the text the code prints for the quotient; that this text is
    [passed / total * 100] rounded to one decimal place is proved of it
    in [PassRate], against a statement of the rounding that does not
    mention the code. *)
Definition summary (data : JValue) : JValue :=
  let all := all_entries data in
  let passed := filter (pass_is true) all in
  let failed := filter (pass_is false) all in
  JObject
    [(str "totalMetrics", JNumber (Number_of_nat (length all)));
     (str "passedCount", JNumber (Number_of_nat (length passed)));
     (str "failedCount", JNumber (Number_of_nat (length failed)));
     (str "passRate", JString (passRate (length passed) (length all)));
     (str "sisScore", read (read data (str "sis")) (str "overall"));
     (str "ssisScore", read (read data (str "ssis")) (str "overall"));
     (str "qualitativeRating",
      read (read data (str "qualitative")) (str "overallRating"));
     (str "passedMetrics", JArray (map name_of passed));
     (str "failedMetrics", JArray (map name_of failed))].

(** A number that [JSON.stringify] prints as a numeric literal which
    [JSON.parse] reads back as the same number: every finite number other
    than negative zero, by the round-trip guarantee of [Number::toString]. *)
Definition number_ok (x : number) : bool :=
  is_finite x &&
  match parse_number (NumberToString x) with
  | Some (y, []) => number_eqb y x
  | _ => false
  end.

Fixpoint distinct (l : list jstring) : bool :=
  match l with
  | [] => true
  | x :: r => negb (existsb (jstring_eqb x) r) && distinct r
  end.

(** A well-formed object or value: one that JSON can denote.  It holds no
    [undefined], its numbers are as above, and the keys of each of its
    objects are distinct. *)
Fixpoint wellformed (v : JValue) : bool :=
  match v with
  | JUndefined => false
  | JNull | JBool _ | JString _ => true
  | JNumber x => number_ok x
  | JArray items => forallb wellformed items
  | JObject props =>
      distinct (keys props) && forallb (fun kv => wellformed (snd kv)) props
  end.

(** A text wrapped in a code fence, with or without the language tag. *)
Definition fenced (tag : bool) (text : jstring) : jstring :=
  GeminiClient.fence ++ (if tag then str "json" else []) ++ LF :: text
  ++ LF :: GeminiClient.fence.

(** The input as the nodes of a workflow read it from the state: the
    input itself, except that the declared [??] channels keep
    [undefined] when the input is [null]. *)
Definition input_seen (ch : Workflow.Channels) (input : JValue) : JValue :=
  Workflow.inputData
    (Workflow.write ch Workflow.unset (Workflow.initialState input)).

(** The [metadata] block: identity and date of the security copied from
    the input, the time of the analysis, the summary of the metrics, and
    the model and version strings. *)
Definition metadata_block (env : Env) (input keyMetrics : JValue)
  (date : jstring) : JValue :=
  JObject
    [(str "stockSymbol", read (read input (str "stock")) (str "symbol"));
     (str "stockName", read (read input (str "stock")) (str "name"));
     (str "analysisDate", JString date);
     (str "asOfDate", read (read input (str "stock")) (str "asOf"));
     (str "keyMetrics", keyMetrics);
     (str "modelUsed",
      or_else (modelName (model env)) (JString (str "gemini-1.5-pro")));
     (str "version", JString (str "1.0.0"))].

(** The degraded report of the error node. *)
Definition degraded_report (errors : list jstring) : JValue :=
  JObject [(str "error", JBool true);
           (str "errors", JArray (map JString errors));
           (str "message", JString (str "Analysis failed"))].

End Spec.

(* ===================================================================== *)
(** * Properties of the schemas                                           *)
(* ===================================================================== *)

Module ZodFacts.
Import JS Zod.

Lemma merge_valid (a b : Status) :
  merge a b = Valid -> a = Valid /\ b = Valid.
Proof. destruct a, b; simpl; intros H; try discriminate H; auto. Qed.

Lemma both_valid (a b : Status * list Issue) :
  fst (both a b) = Valid -> fst a = Valid /\ fst b = Valid.
Proof. unfold both; simpl. apply merge_valid. Qed.

Lemma invalid_type_aborted p e v : fst (invalid_type p e v) = Aborted.
Proof. reflexivity. Qed.

(** A valid object has every field of the shape valid. *)
Lemma object_valid shape p data :
  fst (zparse (ZObject shape) p data) = Valid ->
  exists ps, data = JObject ps /\
    forall k s, In (k, s) shape ->
      fst (zparse s (p ++ [Key k]) (lookup k ps)) = Valid.
Proof.
  destruct data; simpl; try discriminate.
  intros H. exists props. split; [reflexivity|].
  induction shape as [|[k0 s0] rest IH]; intros k s Hin; [destruct Hin|].
  apply both_valid in H. destruct H as [H1 H2].
  destruct Hin as [Heq|Hin].
  - inversion Heq; subst. exact H1.
  - apply IH; assumption.
Qed.

Lemma array_fold_valid (f : nat * JValue -> Status * list Issue) items start :
  fst (fold_right both valid (map f (combine (seq start (length items)) items)))
  = Valid ->
  forall v, In v items -> exists i, fst (f (i, v)) = Valid.
Proof.
  revert start. induction items as [|x r IH]; intros start H v Hin;
    [destruct Hin|].
  simpl in H. apply both_valid in H. destruct H as [H1 H2].
  destruct Hin as [->|Hin].
  - exists start. exact H1.
  - apply (IH (S start)); assumption.
Qed.

(** A valid array has every element valid. *)
Lemma array_valid element p data :
  fst (zparse (ZArray element) p data) = Valid ->
  exists l, data = JArray l /\
    forall v, In v l -> exists q, fst (zparse element q v) = Valid.
Proof.
  destruct data; simpl; try discriminate.
  intros H. exists items. split; [reflexivity|].
  intros v Hin.
  destruct (array_fold_valid _ _ _ H v Hin) as [i Hi].
  exists (p ++ [Index i]). exact Hi.
Qed.

Lemma refine_valid inner check msg p data :
  fst (zparse (ZRefine inner check msg) p data) = Valid ->
  fst (zparse inner p data) = Valid /\ check data = true.
Proof.
  simpl. destruct (zparse inner p data) as [[| |] issues]; simpl;
    destruct (check data); simpl; intros H; try discriminate H; auto.
Qed.

(** A schema that does not accept a value reports at least one issue. *)
Lemma both_issues (a b : Status * list Issue) :
  (fst a <> Valid -> snd a <> []) -> (fst b <> Valid -> snd b <> []) ->
  fst (both a b) <> Valid -> snd (both a b) <> [].
Proof.
  destruct a as [sa ia], b as [sb ib]; simpl. intros Ha Hb H.
  destruct sa; [destruct sb; [exfalso; apply H; reflexivity| |]| |];
    intros Hnil; apply app_eq_nil in Hnil; destruct Hnil as [Hn1 Hn2];
    try (apply Hb; [discriminate|exact Hn2]);
    try (apply Ha; [discriminate|exact Hn1]).
Qed.

Section SchemaInduction.
Variable P : Schema -> Prop.
Hypothesis HString : forall m, P (ZString m).
Hypothesis HNumber : forall lo hi, P (ZNumber lo hi).
Hypothesis HBoolean : P ZBoolean.
Hypothesis HEnum : forall o, P (ZEnum o).
Hypothesis HOptional : forall s, P s -> P (ZOptional s).
Hypothesis HNullable : forall s, P s -> P (ZNullable s).
Hypothesis HArray : forall s, P s -> P (ZArray s).
Hypothesis HObject :
  forall shape, Forall (fun ks => P (snd ks)) shape -> P (ZObject shape).
Hypothesis HRecord : forall s, P s -> P (ZRecord s).
Hypothesis HUnion : forall alts, Forall P alts -> P (ZUnion alts).
Hypothesis HRefine : forall s c m, P s -> P (ZRefine s c m).

Fixpoint Schema_induction (s : Schema) : P s :=
  match s with
  | ZString m => HString m
  | ZNumber lo hi => HNumber lo hi
  | ZBoolean => HBoolean
  | ZEnum o => HEnum o
  | ZOptional i => HOptional (Schema_induction i)
  | ZNullable i => HNullable (Schema_induction i)
  | ZArray e => HArray (Schema_induction e)
  | ZObject shape =>
      HObject
        ((fix go (l : list (jstring * Schema))
            : Forall (fun ks => P (snd ks)) l :=
            match l with
            | [] => Forall_nil _
            | x :: r => Forall_cons x (Schema_induction (snd x)) (go r)
            end) shape)
  | ZRecord v => HRecord (Schema_induction v)
  | ZUnion alts =>
      HUnion
        ((fix go (l : list Schema) : Forall P l :=
            match l with
            | [] => Forall_nil _
            | x :: r => Forall_cons x (Schema_induction x) (go r)
            end) alts)
  | ZRefine i c m => HRefine c m (Schema_induction i)
  end.
End SchemaInduction.

Definition reports (r : Status * list Issue) : Prop :=
  fst r <> Valid -> snd r <> [].

Lemma reports_valid : reports valid.
Proof. intros H; exfalso; apply H; reflexivity. Qed.

Lemma reports_one st i : reports (st, [i]).
Proof. intros _; discriminate. Qed.

Lemma reports_both a b : reports a -> reports b -> reports (both a b).
Proof. unfold reports. intros Ha Hb H. exact (both_issues a b Ha Hb H). Qed.

Lemma reports_fold (l : list (Status * list Issue)) :
  Forall reports l -> reports (fold_right both valid l).
Proof.
  induction 1 as [|x r Hx Hr IH]; simpl.
  - apply reports_valid.
  - apply reports_both; assumption.
Qed.

Create HintDb zod.
#[local] Hint Resolve reports_valid reports_one reports_both : zod.

Ltac reports_step :=
  match goal with
  | |- reports (both _ _) => apply reports_both
  | |- reports valid => apply reports_valid
  | |- reports (_, [_]) => apply reports_one
  | |- reports (invalid_type _ _ _) => apply reports_one
  | |- reports (match ?x with _ => _ end) => destruct x
  | |- reports (if ?c then _ else _) => destruct c
  end.

(** Whatever the schema, a value it does not accept comes with an issue:
    a [ZodError] always lists at least one. *)
Lemma zparse_reports sch : forall p data, reports (zparse sch p data).
Proof.
  induction sch using Schema_induction; intros p data.
  - simpl. repeat reports_step.
  - simpl. repeat reports_step.
  - simpl. repeat reports_step.
  - simpl. repeat reports_step.
  - destruct data; simpl; auto with zod.
  - destruct data; simpl; auto with zod.
  - destruct data; simpl; try apply reports_one.
    apply reports_fold. apply Forall_map. apply Forall_forall. intros; apply IHsch.
  - destruct data; simpl; try apply reports_one.
    induction H as [|x r Hx Hr IH]; auto with zod.
  - destruct data; simpl; try apply reports_one.
    apply reports_fold. apply Forall_map. apply Forall_forall. intros; apply IHsch.
  - simpl.
    assert (G : forall dirty,
               (forall i, dirty = Some i -> i <> []) ->
               reports
                 ((fix try (alts0 : list Schema) (dirty0 : option (list Issue))
                     {struct alts0} : Status * list Issue :=
                     match alts0 with
                     | [] =>
                         match dirty0 with
                         | Some issues => (Dirty, issues)
                         | None =>
                             (Aborted,
                              [{| path := p; message := str "Invalid input" |}])
                         end
                     | a :: rest =>
                         match zparse a p data with
                         | (Valid, _) => valid
                         | (Dirty, issues) =>
                             try rest
                               match dirty0 with
                               | Some _ => dirty0
                               | None => Some issues
                               end
                         | (Aborted, _) => try rest dirty0
                         end
                     end) alts dirty)).
    { induction H as [|a rest Ha Hrest IH]; intros dirty Hd.
      - destruct dirty as [i|]; [|apply reports_one].
        intros _. simpl. apply Hd. reflexivity.
      - specialize (Ha p data). destruct (zparse a p data) as [[| |] issues].
        + apply reports_valid.
        + apply IH. intros i Hi. destruct dirty as [j|].
          * apply Hd. exact Hi.
          * inversion Hi; subst. apply Ha. simpl. discriminate.
        + apply IH. exact Hd. }
    apply G. intros i Hi. discriminate Hi.
  - simpl. specialize (IHsch p data).
    destruct (zparse sch p data) as [[| |] issues]; simpl in *.
    + destruct (c data); [intros H; exfalso; apply H; reflexivity|].
      intros _. simpl. destruct issues; discriminate.
    + destruct (c data).
      * exact IHsch.
      * intros _. simpl. destruct issues; discriminate.
    + exact IHsch.
Qed.

End ZodFacts.

(* ===================================================================== *)
(** * src/utils/validators.js: properties                                 *)
(* ===================================================================== *)

Module ValidatorsFacts.
Import JS Zod Validators Spec ZodFacts.
Local Open Scope js_scope.

(** A failed validation lists at least one error. *)
Lemma validate_errors sch data :
  success (validate sch data) = false -> errors (validate sch data) <> [].
Proof.
  unfold validate, Zod.parse.
  pose proof (zparse_reports sch [] data) as R. unfold reports in R.
  destruct (zparse sch [] data) as [[| |] issues]; simpl in *; intros H;
    try discriminate H; intros Hn; apply map_eq_nil in Hn;
    (apply R; [discriminate|exact Hn]).
Qed.

Lemma validate_success sch data :
  success (validate sch data) = true <-> fst (zparse sch [] data) = Valid.
Proof.
  unfold validate, Zod.parse.
  destruct (zparse sch [] data) as [[| |] issues]; simpl; split; intros H;
    try reflexivity; discriminate H.
Qed.

Lemma get_defined E base k :
  nullish base = false -> get E base k = Return (read base k).
Proof. destruct base; simpl; intros H; try discriminate H; reflexivity. Qed.

Lemma read_nullish base k : nullish base = true -> read base k = JUndefined.
Proof. destruct base; simpl; intros H; try discriminate H; reflexivity. Qed.

(** What [extractKeyMetrics] relies on: the three groups hold arrays
    without [null] entries, and the three score blocks exist. *)
Definition group_ok (data : JValue) (group : string) : Prop :=
  exists l,
    read (read (read data (str "quantitative")) (str group)) (str "metrics")
    = JArray l
    /\ Forall (fun m => nullish m = false) l.

Definition well_shaped (data : JValue) : Prop :=
  group_ok data "fundamentalResilience"
  /\ group_ok data "asymmetricRiskReward"
  /\ group_ok data "technicalConfirmation"
  /\ nullish (read data (str "sis")) = false
  /\ nullish (read data (str "ssis")) = false
  /\ nullish (read data (str "qualitative")) = false.

Lemma group_metrics_ok E data group l :
  read (read (read data (str "quantitative")) (str group)) (str "metrics")
  = JArray l ->
  group_metrics E data (str group) = Return l.
Proof.
  intros H. unfold group_metrics.
  destruct (nullish data) eqn:Hd.
  { rewrite (read_nullish _ _ Hd) in H. discriminate H. }
  rewrite (get_defined E _ _ Hd). simpl.
  destruct (nullish (read data (str "quantitative"))) eqn:Hq.
  { rewrite (read_nullish _ _ Hq) in H. discriminate H. }
  rewrite (get_defined E _ _ Hq). simpl.
  destruct (nullish (read (read data (str "quantitative")) (str group))) eqn:Hg.
  { rewrite (read_nullish _ _ Hg) in H. discriminate H. }
  rewrite (get_defined E _ _ Hg). simpl.
  rewrite H. reflexivity.
Qed.

(** On entries that are not [null], the loop never throws and sorts the
    names by the value of [pass]. *)
Lemma classify_total E ms :
  Forall (fun m => nullish m = false) ms ->
  forall passed failed,
    classify E ms passed failed
    = Return (passed ++ map name_of (filter (pass_is true) ms),
              failed ++ map name_of (filter (pass_is false) ms)).
Proof.
  induction 1 as [|m r Hm Hr IH]; intros passed failed; simpl.
  - rewrite !app_nil_r. reflexivity.
  - rewrite (get_defined E _ _ Hm). cbn [bindC filter].
    change (pass_is true m)
      with (match read m (str "pass") with JBool c => Bool.eqb true c | _ => false end).
    change (pass_is false m)
      with (match read m (str "pass") with JBool c => Bool.eqb false c | _ => false end).
    destruct (read m (str "pass")) as [| |[|]| | | |]; cbn [Bool.eqb map];
      try (rewrite IH; reflexivity);
      rewrite (get_defined E _ _ Hm); cbn [bindC]; rewrite IH;
      unfold name_of; rewrite <- !app_assoc; reflexivity.
Qed.

Lemma group_entries_ok data group l :
  read (read (read data (str "quantitative")) (str group)) (str "metrics")
  = JArray l ->
  group_entries data group = l.
Proof. unfold group_entries. intros ->. reflexivity. Qed.

(** On a well-shaped input [extractKeyMetrics] returns the summary. *)
Lemma extract_well_shaped E data :
  well_shaped data -> extractKeyMetrics E data = Return (summary data).
Proof.
  intros ((l1 & H1 & F1) & (l2 & H2 & F2) & (l3 & H3 & F3) & Hs & Hss & Hq).
  unfold extractKeyMetrics, summary, all_entries.
  rewrite (group_metrics_ok E _ _ H1), (group_metrics_ok E _ _ H2),
    (group_metrics_ok E _ _ H3).
  rewrite (group_entries_ok _ _ H1), (group_entries_ok _ _ H2),
    (group_entries_ok _ _ H3).
  simpl bindC.
  assert (F : Forall (fun m => nullish m = false) (l1 ++ l2 ++ l3)).
  { apply Forall_app; split; [assumption|apply Forall_app; split; assumption]. }
  rewrite (classify_total E F). simpl bindC.
  assert (Hd : nullish data = false).
  { destruct (nullish data) eqn:Hd; [|reflexivity].
    rewrite (read_nullish _ _ Hd) in Hs. discriminate Hs. }
  rewrite !(get_defined E _ _ Hd). simpl bindC.
  rewrite (get_defined E _ _ Hs). simpl bindC.
  rewrite (get_defined E _ _ Hss). simpl bindC.
  rewrite (get_defined E _ _ Hq). simpl bindC.
  cbn [app]. rewrite !length_map. reflexivity.
Qed.

Ltac field H k :=
  let F := fresh "F" in
  pose proof (H (str k) _ ltac:(simpl; repeat (try (left; reflexivity); right))) as F;
  simpl in F.

(** A valid metric group holds an array of objects. *)
Lemma metric_group_valid p v :
  fst (zparse MetricGroupSchema p v) = Valid ->
  exists l, read v (str "metrics") = JArray l
            /\ Forall (fun m => nullish m = false) l.
Proof.
  intros H. apply object_valid in H. destruct H as (ps & -> & H).
  pose proof (H (str "metrics") _ (or_intror (or_introl eq_refl))) as F.
  apply array_valid in F. destruct F as (l & Hl & F).
  exists l. split; [exact Hl|].
  apply Forall_forall. intros m Hm. destruct (F m Hm) as (q & Hq).
  apply refine_valid in Hq. destruct Hq as [Hq _].
  apply object_valid in Hq. destruct Hq as (ms & -> & _). reflexivity.
Qed.

Lemma object_not_nullish shape p v :
  fst (zparse (ZObject shape) p v) = Valid -> nullish v = false.
Proof. intros H. apply object_valid in H. destruct H as (ps & -> & _). reflexivity. Qed.

(** An input that passes [validateInput] is well-shaped. *)
Lemma valid_well_shaped data :
  success (validateInput data) = true -> well_shaped data.
Proof.
  intros H. apply validate_success in H.
  apply object_valid in H. destruct H as (ps & -> & H).
  pose proof (H (str "quantitative") _ (or_intror (or_introl eq_refl))) as Q.
  pose proof (H (str "sis") _ (or_intror (or_intror (or_introl eq_refl)))) as S1.
  pose proof (H (str "ssis") _
                (or_intror (or_intror (or_intror (or_introl eq_refl))))) as S2.
  pose proof (H (str "qualitative") _
                (or_intror (or_intror (or_intror (or_intror (or_introl eq_refl))))))
    as S3.
  apply object_not_nullish in S1, S2, S3.
  apply object_valid in Q. destruct Q as (qs & Hq & Q).
  pose proof (Q (str "fundamentalResilience") _ (or_introl eq_refl)) as G1.
  pose proof (Q (str "asymmetricRiskReward") _ (or_intror (or_introl eq_refl)))
    as G2.
  pose proof (Q (str "technicalConfirmation") _
                (or_intror (or_intror (or_introl eq_refl)))) as G3.
  apply metric_group_valid in G1, G2, G3.
  unfold well_shaped, group_ok. simpl read at 3 6 9 10 11 12.
  rewrite Hq. simpl read at 2 4 6.
  repeat split; assumption.
Qed.

End ValidatorsFacts.

(* ===================================================================== *)
(** * MetricsExtractor                                                    *)
(* ===================================================================== *)

Module MetricsExtractor.
Import JS Zod Validators Spec ValidatorsFacts Samples.

Lemma exact_fraction_positive m e :
  (0 < snd (exact_fraction m e))%Z.
Proof.
  destruct e as [|p|p]; unfold exact_fraction; cbn [snd]; lia.
Qed.

(** [toFixed] picks the integer nearest to [x * 10^f]: with [x = num/den]
    and [n] the digits printed, [|n / 10^f - x| <= 1 / (2 * 10^f)]. *)
Lemma toFixed_digits_nearest f m e :
  let num := fst (exact_fraction m e) in
  let den := snd (exact_fraction m e) in
  let n := Z.of_N (toFixed_digits f m e) in
  (2 * Z.abs (n * den - num * 10 ^ Z.of_nat f) <= den)%Z.
Proof.
  unfold toFixed_digits.
  pose proof (exact_fraction_positive m e) as Hden.
  assert (Hnum : (0 < fst (exact_fraction m e))%Z).
  { destruct e as [|p|p]; unfold exact_fraction; cbn [fst];
      [rewrite Z.pow_0_r; lia
      |pose proof (Z.pow_pos_nonneg 2 (Z.pos p) ltac:(lia) ltac:(lia)); nia
      |lia]. }
  destruct (exact_fraction m e) as [num den]. cbn [fst snd] in *.
  assert (Hp : (0 < 10 ^ Z.of_nat f)%Z) by (apply Z.pow_pos_nonneg; lia).
  set (P := (10 ^ Z.of_nat f)%Z) in *.
  set (a := (2 * num * P + den)%Z).
  assert (Ha : (0 <= a / (2 * den))%Z) by (apply Z.div_pos; subst a; nia).
  rewrite Z2N.id by exact Ha.
  pose proof (Z.div_mod a (2 * den) ltac:(lia)) as Hdm.
  pose proof (Z.mod_pos_bound a (2 * den) ltac:(lia)) as Hb.
  set (q := (a / (2 * den))%Z) in *. set (r := (a mod (2 * den))%Z) in *.
  subst a. nia.
Qed.

(** For every validated input, [extractKeyMetrics] returns the summary
    built from the entries of the three quantitative groups taken in the
    order fundamentalResilience, asymmetricRiskReward,
    technicalConfirmation.  With ten entries of which six pass,
    [passRate] is ["60.0"]. *)
Lemma extractKeyMetrics_summary (E : Engine) (data : JValue) :
  success (validateInput data) = true ->
  extractKeyMetrics E data = Return (summary data)
  /\ (length (all_entries data) = 10 ->
      length (filter (pass_is true) (all_entries data)) = 6 ->
      read (summary data) (str "passRate") = JString (str "60.0")).
Proof.
  intros H. split.
  - apply extract_well_shaped, valid_well_shaped, H.
  - intros Ht Hp. unfold summary. rewrite Ht, Hp. reflexivity.
Qed.

(** C10: for an input whose three quantitative groups hold empty metric
    arrays (and which has its sis, ssis and qualitative blocks),
    [extractKeyMetrics] returns without failing, with [totalMetrics],
    [passedCount] and [failedCount] all 0 and [passRate] the string
    ["NaN"]: the division by the zero total is not guarded. *)
Theorem extractKeyMetrics_empty (E : Engine) (data : JValue) :
  group_entries data "fundamentalResilience" = [] ->
  group_entries data "asymmetricRiskReward" = [] ->
  group_entries data "technicalConfirmation" = [] ->
  well_shaped data ->
  extractKeyMetrics E data
  = Return (JObject
      [(str "totalMetrics", JNumber (Number_of_nat 0));
       (str "passedCount", JNumber (Number_of_nat 0));
       (str "failedCount", JNumber (Number_of_nat 0));
       (str "passRate", JString (str "NaN"));
       (str "sisScore", read (read data (str "sis")) (str "overall"));
       (str "ssisScore", read (read data (str "ssis")) (str "overall"));
       (str "qualitativeRating",
        read (read data (str "qualitative")) (str "overallRating"));
       (str "passedMetrics", JArray []);
       (str "failedMetrics", JArray [])]).
Proof.
  intros H1 H2 H3 W. rewrite (extract_well_shaped E W).
  unfold summary, all_entries. rewrite H1, H2, H3. reflexivity.
Qed.

Lemma extractKeyMetrics_empty_witness :
  extractKeyMetrics v8 empty_input
  = Return (JObject
      [(str "totalMetrics", JNumber (Number_of_nat 0));
       (str "passedCount", JNumber (Number_of_nat 0));
       (str "failedCount", JNumber (Number_of_nat 0));
       (str "passRate", JString (str "NaN"));
       (str "sisScore", JNumber (Number_of_Z 62));
       (str "ssisScore", JNumber (Number_of_Z 55));
       (str "qualitativeRating", JNumber (decimal_to_number false 45 (-1)));
       (str "passedMetrics", JArray []);
       (str "failedMetrics", JArray [])]).
Proof.
  apply (@extractKeyMetrics_empty v8 empty_input eq_refl eq_refl eq_refl).
  apply valid_well_shaped. reflexivity.
Defined.

End MetricsExtractor.

(* ===================================================================== *)
(** * ModelInvoker                                                        *)
(* ===================================================================== *)

Module ModelInvoker.
Import JS Runtime GeminiClient Samples.
Local Open Scope m_scope.

Section WithEnv.
Variable env : Env.
Variable prompt : jstring.
Variable retries : nat.



Lemma retry_loop_S remaining attempt last :
  retry_loop env prompt retries (S remaining) attempt last
  = try_catch (request env prompt)
      (fun msg =>
         print Error (str "Attempt " ++ decimal (N.of_nat (attempt + 1))
                      ++ str " failed: " ++ msg) ;;;
         (if attempt <? retries - 1 then
            print Log (str "Retrying in " ++ NumberToString (waitTime attempt)
                       ++ str "ms...") ;;;
            sleep (waitTime attempt)
          else ret tt) ;;;
         retry_loop env prompt retries remaining (S attempt) (Some msg)).
Proof. reflexivity. Qed.



End WithEnv.

Lemma number_eqb_eq x y : number_eqb x y = true -> x = y.
Proof.
  destruct x, y; simpl; intros H; try discriminate H;
    try (apply Bool.eqb_prop in H; subst; reflexivity).
  - reflexivity.
  - apply andb_prop in H. destruct H as [H He].
    apply andb_prop in H. destruct H as [Hs Hm].
    apply Bool.eqb_prop in Hs. apply Pos.eqb_eq in Hm. apply Z.eqb_eq in He.
    subst. reflexivity.
Qed.





End ModelInvoker.

(* ===================================================================== *)
(** * ResponseRecoveryParser: failure and the two sample texts            *)
(* ===================================================================== *)

Module ResponseParser.
Import JS Runtime GeminiClient Samples.
Local Open Scope m_scope.

Definition add_console (w : World) (entries : list (Level * jstring)) : World :=
  {| requests := requests w; timers := timers w;
     console := console w ++ entries; clock_reads := clock_reads w;
     analysisHistory := analysisHistory w |}.

Definition failure_entry (cleaned : jstring) : Level * jstring :=
  (Error, str "Failed to parse JSON response. First 500 chars: "
          ++ substring 0 500 cleaned).

Definition warning_entry : Level * jstring :=
  (Warn, str "Attempting to recover JSON by extracting object...").

Lemma throw_invalid_run cleaned m w :
  throw_invalid cleaned m w
  = (Throw (str "Invalid JSON response from model: " ++ m),
     add_console w [failure_entry cleaned]).
Proof. reflexivity. Qed.

(** C5: on the text that is cut off inside a string, with no closing
    quote and no closing brace, the parser fails: it throws the error
    "Invalid JSON response from model: ..." (no second attempt is
    made, there being no closing brace).  On the text of the object with
    a being x and b being y, followed by EXTRA, it takes the span from the
    first opening brace to the last closing brace, parses it and returns
    that object. *)
Theorem parseJsonResponse_samples (env : Env) (w : World) :
  (repair (clean text_unterminated) = None
   /\ parseJsonResponse env (JString text_unterminated) w
      = (Throw (str "Invalid JSON response from model: "
                ++ json_error_message (engine env) text_unterminated),
         add_console w [failure_entry text_unterminated]))
  /\ (clean text_extra
      = str "{" ++ quoted "a" ++ str ":" ++ quoted "x" ++ str ","
        ++ quoted "b" ++ str ":" ++ quoted "y" ++ str "}"
      /\ parseJsonResponse env (JString text_extra) w
         = (Return (JObject [(str "a", JString (str "x"));
                             (str "b", JString (str "y"))]), w)).
Proof.
  assert (C1 : clean text_unterminated = text_unterminated)
    by (vm_compute; reflexivity).
  assert (P1 : parse_text text_unterminated = PErr) by (vm_compute; reflexivity).
  assert (R1 : repair text_unterminated = None) by (vm_compute; reflexivity).
  assert (P2 : parse_text (clean text_extra)
               = POk (JObject [(str "a", JString (str "x"));
                               (str "b", JString (str "y"))]) [])
    by (vm_compute; reflexivity).
  split; split.
  - rewrite C1. exact R1.
  - unfold parseJsonResponse. cbv zeta. rewrite C1. unfold JSON_parse.
    rewrite P1, R1. apply throw_invalid_run.
  - vm_compute. reflexivity.
  - unfold parseJsonResponse. cbv zeta. unfold JSON_parse. rewrite P2.
    reflexivity.
Qed.

(** C7, amended: for every text on which both attempts fail (that is,
    [JSON.parse] rejects the cleaned text and, when there is a closing
    brace to cut at, rejects the repaired text too), the parser throws:
    the message of the error is "Invalid JSON response from model: "
    followed by the message of the first failure, the one [JSON.parse]
    gave for the cleaned text, and nothing else.  The first 500
    characters of the cleaned text go to the error console, in the line
    written just before the throw (after the warning line when a second
    attempt was made); the parser does not put them into the error. *)
Theorem parseJsonResponse_failure (env : Env) (text : jstring) (w : World)
  (m : jstring) :
  JSON_parse (engine env) (clean text) = Throw m ->
  (forall fixed, repair (clean text) = Some fixed ->
                 exists m', JSON_parse (engine env) fixed = Throw m') ->
  parseJsonResponse env (JString text) w
  = (Throw (str "Invalid JSON response from model: " ++ m),
     add_console w
       (match repair (clean text) with
        | Some _ => [warning_entry; failure_entry (clean text)]
        | None => [failure_entry (clean text)]
        end))
  /\ m = json_error_message (engine env) (clean text)
  /\ snd (failure_entry (clean text))
     = str "Failed to parse JSON response. First 500 chars: "
       ++ firstn 500 (clean text).
Proof.
  intros P1 P2. split; [|split].
  - unfold parseJsonResponse. cbv zeta. rewrite P1.
    destruct (repair (clean text)) as [fixed|];
      [|apply throw_invalid_run].
    destruct (P2 fixed eq_refl) as (m' & ->).
    unfold bind, print. cbn [fst snd]. rewrite throw_invalid_run.
    unfold add_console.
    cbn [requests timers console clock_reads analysisHistory].
    rewrite <- app_assoc. reflexivity.
  - unfold JSON_parse in P1.
    destruct (parse_text (clean text)) as [v rest| |];
      try destruct rest; inversion P1; reflexivity.
  - reflexivity.
Qed.

Lemma parseJsonResponse_failure_witness :
  parseJsonResponse (sample_env false failing_model) (JString text_cut_short)
                    initial_world
  = (Throw (str "Invalid JSON response from model: Unexpected end of JSON input"),
     add_console initial_world [failure_entry text_cut_short])
  /\ str "Unexpected end of JSON input"
     = json_error_message v8 text_cut_short
  /\ snd (failure_entry text_cut_short)
     = str "Failed to parse JSON response. First 500 chars: "
       ++ text_cut_short.
Proof.
  apply (@parseJsonResponse_failure (sample_env false failing_model)
           text_cut_short initial_world (str "Unexpected end of JSON input")).
  - vm_compute. reflexivity.
  - intros fixed H. vm_compute in H. discriminate H.
Defined.

(** C7 as stated fails: on the text that ends after a colon, for which
    the message of [JSON.parse] is "Unexpected end of JSON input", the
    parser throws, and the message of the error carries the original
    message but not the cleaned text, which is only in the line written
    to the console. *)
Lemma parseJsonResponse_failure_counterexample :
  exists msg w',
    parseJsonResponse (sample_env false failing_model)
                      (JString text_cut_short) initial_world
    = (Throw msg, w')
    /\ clean text_cut_short = text_cut_short
    /\ includes msg (json_error_message v8 (clean text_cut_short)) = true
    /\ includes msg (substring 0 500 (clean text_cut_short)) = false
    /\ console w' = [failure_entry text_cut_short].
Proof.
  eexists. eexists. split; [reflexivity|].
  split; [vm_compute; reflexivity|].
  split; [vm_compute; reflexivity|].
  split; vm_compute; reflexivity.
Qed.

End ResponseParser.

Unset Implicit Arguments.

(* ===================================================================== *)
(** * Objects                                                             *)
(* ===================================================================== *)

Module ObjectFacts.
Import JS.

Lemma jstring_eqb_eq a b : jstring_eqb a b = true <-> a = b.
Proof.
  unfold jstring_eqb. destruct (list_eq_dec N.eq_dec a b); split; intros H;
    try reflexivity; try assumption; try discriminate H; contradiction.
Qed.

Lemma jstring_eqb_refl a : jstring_eqb a a = true.
Proof. apply jstring_eqb_eq. reflexivity. Qed.

Lemma jstring_eqb_neq a b : a <> b -> jstring_eqb a b = false.
Proof.
  intros H. destruct (jstring_eqb a b) eqn:E; [|reflexivity].
  apply jstring_eqb_eq in E. contradiction.
Qed.


Lemma lookup_define_other k k' v ps :
  k <> k' -> lookup k' (define k v ps) = lookup k' ps.
Proof.
  intros H. induction ps as [|[k0 v0] r IH]; simpl.
  - rewrite (jstring_eqb_neq _ _ H). reflexivity.
  - destruct (jstring_eqb k0 k) eqn:E; simpl.
    + apply jstring_eqb_eq in E. subst k0.
      rewrite (jstring_eqb_neq _ _ H). reflexivity.
    + rewrite IH. reflexivity.
Qed.


Lemma define_fresh k v ps :
  ~ In k (keys ps) -> define k v ps = ps ++ [(k, v)].
Proof.
  induction ps as [|[k0 v0] r IH]; simpl; intros H; [reflexivity|].
  rewrite jstring_eqb_neq by (intros ->; apply H; left; reflexivity).
  rewrite IH by (intros Hin; apply H; right; exact Hin). reflexivity.
Qed.



(** Defining, one after the other, properties with distinct keys lists
    them in order. *)
Lemma fold_define_fresh (l acc : Props) :
  NoDup (keys acc ++ keys l) ->
  fold_left (fun o kv => define (fst kv) (snd kv) o) l acc = acc ++ l.
Proof.
  revert acc. induction l as [|[k v] r IH]; simpl; intros acc H.
  - rewrite app_nil_r. reflexivity.
  - rewrite define_fresh.
    + rewrite IH.
      * rewrite <- app_assoc. reflexivity.
      * unfold keys in *. rewrite map_app. simpl. rewrite <- app_assoc. exact H.
    + intros Hin. apply NoDup_remove_2 in H. apply H.
      apply in_or_app. left. exact Hin.
Qed.




End ObjectFacts.

(* ===================================================================== *)
(** * WorkflowEngine                                                      *)
(* ===================================================================== *)

Module WorkflowEngine.
Import JS Runtime Validators GeminiClient Workflow Spec ValidatorsFacts Samples.
Local Open Scope m_scope.

Arguments validateInput : simpl never.
Arguments validateOutput : simpl never.
Arguments extractKeyMetrics : simpl never.
Arguments invokeWithRetry : simpl never.
Arguments parseJsonResponse : simpl never.

Section Running.
Variable Node : Type.
Variable node : Node -> AnalysisState -> M AnalysisState.
Variable edge : Node -> AnalysisState -> option Node.
Variable ch : Channels.

(** One superstep of a run. *)
Lemma run_step limit n st w :
  run node edge ch (S limit) n st w
  = match node n st w with
    | (Return update, w') =>
        match edge n (write ch st update) with
        | Some n' => run node edge ch limit n' (write ch st update) w'
        | None => (Return (write ch st update), w')
        end
    | (Throw m, w') => (Throw m, w')
    end.
Proof.
  cbn [run]. unfold bind, superstep, bind, ret.
  destruct (node n st w) as [[update|m] w']; cbn [fst snd]; [|reflexivity].
  destruct (edge n (write ch st update)); reflexivity.
Qed.

End Running.

Lemma input_seen_eq ch input :
  input <> JNull -> input_seen ch input = input.
Proof.
  intros H. destruct ch; [|reflexivity].
  unfold input_seen. cbn. unfold coalesce.
  destruct input; try reflexivity. exfalso; apply H; reflexivity.
Qed.

Lemma input_seen_invalid ch input :
  success (validateInput input) = false ->
  success (validateInput (input_seen ch input)) = false.
Proof.
  intros H. destruct ch; [|exact H].
  unfold input_seen. cbn. unfold coalesce.
  destruct (nullish input); [reflexivity|exact H].
Qed.

Lemma input_seen_valid ch input :
  success (validateInput input) = true -> input_seen ch input = input.
Proof.
  intros H. apply input_seen_eq. intros ->. discriminate H.
Qed.

(** C3: for every input that fails validation, the workflow ends at the
    step [complete] with the degraded report: [error] is [true],
    [errors] is the validator's list of errors, which is not empty, and
    [message] is "Analysis failed".  Nothing is thrown: [execute]
    returns that report, without any request to the model. *)
Theorem execute_invalid_input (env : Env) (ch : Channels) (input : JValue)
  (w : World) :
  success (validateInput input) = false ->
  let errs := Validators.errors (validateInput (input_seen ch input)) in
  errs <> []
  /\ (input <> JNull -> errs = Validators.errors (validateInput input))
  /\ (exists st,
        invoke env ch (initialState input) w = (Return st, w)
        /\ step st = complete
        /\ finalReport st = degraded_report errs)
  /\ execute env ch input w = (Return (degraded_report errs), w).
Proof.
  intros H errs.
  pose proof (input_seen_invalid ch input H) as Hs.
  assert (Hrun : exists st,
             invoke env ch (initialState input) w = (Return st, w)
             /\ step st = complete
             /\ finalReport st = degraded_report errs).
  { unfold invoke, recursionLimit.
    rewrite run_step. cbn [node]. unfold validate_input_node.
    change (inputData (write ch unset (initialState input)))
      with (input_seen ch input).
    rewrite Hs. cbn [negb]. unfold ret at 1.
    destruct ch; cbn [write edge validatedInput];
      rewrite run_step; cbn [node error_node]; unfold ret;
      cbn [write edge]; eexists; (split; [reflexivity|]);
      cbn [step finalReport errors initialState unset app coalesce nullish];
      (split; [reflexivity|]); reflexivity. }
  split; [|split; [|split]].
  - apply validate_errors. exact Hs.
  - intros Hn. unfold errs. rewrite (input_seen_eq ch input Hn). reflexivity.
  - exact Hrun.
  - destruct Hrun as (st & Hinv & _ & Hf).
    unfold execute, bind. rewrite Hinv. unfold ret. rewrite Hf. reflexivity.
Qed.

Lemma execute_invalid_input_witness :
  execute (sample_env false failing_model) LastValue input_missing_name
          initial_world
  = (Return (degraded_report [str "stock.name: Required"]), initial_world).
Proof.
  exact (proj2 (proj2 (proj2
           (execute_invalid_input (sample_env false failing_model) LastValue
              input_missing_name initial_world eq_refl)))).
Defined.

(** C6 at a failing input: a valid input whose every request to the
    model fails.  The parallel-processing node records the failure and
    sets [step] to [error], but its edge leads on to the parsing node and
    from there to the enriching node: the run ends at [complete] with
    [finalReport] still [null] (or [undefined]), the errors staying in
    the state. *)
Theorem failed_request_leaves_no_report (ch : Channels) :
  success (validateInput valid_input) = true
  /\ exists st w',
       invoke (sample_env false failing_model) ch (initialState valid_input)
              initial_world
       = (Return st, w')
       /\ step st = complete
       /\ nullish (finalReport st) = true
       /\ In (str "Failed after 3 attempts: fetch failed") (errors st)
       /\ execute (sample_env false failing_model) ch valid_input initial_world
          = (Return (finalReport st), w').
Proof.
  split; [reflexivity|].
  destruct ch; eexists; eexists; (split; [vm_compute; reflexivity|]);
    (split; [reflexivity|]); (split; [reflexivity|]);
    (split; [left; reflexivity|vm_compute; reflexivity]).
Qed.

(** *** The invariants that do hold *)

Lemma with_errors_errors st more : errors (with_errors st more) = errors st ++ more.
Proof. reflexivity. Qed.

(** Each node returns the errors it was given, possibly with more at the
    end. *)
Lemma node_appends_errors env n st w update w' :
  node env n st w = (Return update, w') ->
  exists more, errors update = errors st ++ more.
Proof.
  destruct n; cbn [node].
  - unfold validate_input_node, ret.
    destruct (negb (success (validateInput (inputData st)))); intros H;
      inversion H; subst; cbn [errors]; eexists;
      [reflexivity|rewrite app_nil_r; reflexivity].
  - unfold parallel_processing_node, try_catch.
    destruct (extractKeyMetrics (engine env) (inputData st)) as [metrics|m];
      destruct (invokeWithRetry env (fullPrompt env (inputData st))
                  (maxRetries (config env)) w) as [[raw|m'] w1];
      unfold ret; intros H; inversion H; subst; cbn [errors with_errors];
      eexists; try reflexivity; rewrite app_nil_r; reflexivity.
  - unfold parse_response_node, try_catch, bind.
    destruct (parseJsonResponse env (rawAnalysis st) w) as [[parsed|m] w1];
      unfold ret; intros H; inversion H; subst; cbn [errors with_errors];
      eexists; try reflexivity; rewrite app_nil_r; reflexivity.
  - unfold enrich_report_node, ret. intros H; inversion H; subst.
    exists []. cbn [errors]. rewrite app_nil_r. reflexivity.
  - unfold error_node, ret. intros H; inversion H; subst.
    exists []. cbn [errors]. rewrite app_nil_r. reflexivity.
Qed.

(** [errors] only grows: every transition keeps the errors and may add
    some at the end. *)
Lemma errors_only_grow env ch n st w r w' :
  superstep (node env) edge ch n st w = (Return r, w') ->
  exists more, errors (snd r) = errors st ++ more.
Proof.
  unfold superstep, bind, ret.
  destruct (node env n st w) as [[update|m] w1] eqn:Hn; intros H;
    inversion H; subst; cbn [snd].
  destruct (node_appends_errors env n st w update w' Hn) as (more & Hm).
  destruct ch; cbn [write errors].
  - rewrite Hm. exists (errors st ++ more). reflexivity.
  - exists more. exact Hm.
Qed.

(** Once [step] is [complete] the run is over: a transition that sets it
    is followed by no other. *)
Lemma complete_is_final env ch n st w r w' :
  superstep (node env) edge ch n st w = (Return r, w') ->
  step (snd r) = complete -> fst r = None.
Proof.
  unfold superstep, bind, ret.
  destruct (node env n st w) as [[update|m] w1] eqn:Hn; intros H;
    inversion H; subst; cbn [fst snd]; clear H.
  assert (Hs : step (write ch st update) = step update)
    by (destruct ch; reflexivity).
  rewrite Hs. destruct n; cbn [edge]; try reflexivity; intros Hc; exfalso;
    cbn [node] in Hn.
  - unfold validate_input_node, ret in Hn.
    destruct (negb (success (validateInput (inputData st))));
      inversion Hn; subst; discriminate Hc.
  - unfold parallel_processing_node, try_catch in Hn.
    destruct (extractKeyMetrics (engine env) (inputData st));
      destruct (invokeWithRetry env (fullPrompt env (inputData st))
                  (maxRetries (config env)) w) as [[raw|m'] w2];
      unfold ret in Hn; inversion Hn; subst; discriminate Hc.
  - unfold parse_response_node, try_catch, bind in Hn.
    destruct (parseJsonResponse env (rawAnalysis st) w) as [[parsed|m] w2];
      unfold ret in Hn; inversion Hn; subst; discriminate Hc.
Qed.

(** *** Enriching *)

Import ObjectFacts ZodFacts.


Lemma valid_stock data :
  success (validateInput data) = true ->
  nullish data = false /\ nullish (read data (str "stock")) = false.
Proof.
  intros H. apply validate_success in H.
  apply object_valid in H. destruct H as (ps & -> & H).
  pose proof (H (str "stock") _ (or_introl eq_refl)) as S1.
  apply object_not_nullish in S1. split; [reflexivity|exact S1].
Qed.

Definition tick (w : World) : World :=
  {| requests := requests w; timers := timers w; console := console w;
     clock_reads := S (clock_reads w);
     analysisHistory := analysisHistory w |}.

(** On a valid input the metadata block is built without failure, at the
    cost of one reading of the clock. *)
Lemma metadata_run env input km w :
  success (validateInput input) = true ->
  Analyzer.metadata env input km w
  = (Return (metadata_block env input km (now env (clock_reads w))), tick w).
Proof.
  intros H. destruct (valid_stock input H) as [Hd Hs].
  unfold Analyzer.metadata, bind, lift, toISOString_now, ret.
  rewrite !(get_defined (engine env) _ _ Hd).
  rewrite !(get_defined (engine env) _ _ Hs).
  reflexivity.
Qed.


Lemma coalesce_defined x y : nullish y = false -> coalesce x y = y.
Proof. unfold coalesce. intros ->. reflexivity. Qed.

Lemma coalesce_unset y : coalesce JUndefined y = y \/ (y = JNull /\ coalesce JUndefined y = JUndefined).
Proof. destruct y; cbn; auto. Qed.

Lemma extract_valid env input :
  success (validateInput input) = true ->
  extractKeyMetrics (engine env) input = Return (summary input).
Proof. intros H. apply extract_well_shaped, valid_well_shaped, H. Qed.

Ltac fields :=
  cbn [write edge SequentialWorkflow.edge validatedInput initialState unset
       inputData keyMetrics rawAnalysis parsedReport validatedReport
       finalReport errors step with_errors app fst snd].










End WorkflowEngine.

(* ===================================================================== *)
(** * Batch processing                                                    *)
(* ===================================================================== *)

Module BatchProcessing.
Import JS Runtime Validators GeminiClient Analyzer Spec Samples.
Local Open Scope m_scope.

Arguments analyze : simpl never.

(** The entry [batchAnalyze] records for an item, given the world the
    item is analysed in: success with the report, or failure with the
    message of the error and the symbol hint. *)
Definition item_result (env : Env) (item : JValue) (w : World) : JValue :=
  match analyze env item w with
  | (Return data, _) =>
      JObject [(str "success", JBool true); (str "data", data)]
  | (Throw m, _) =>
      JObject [(str "success", JBool false); (str "error", JString m);
               (str "symbol", symbol_hint item)]
  end.

Lemma batch_item_returns env item w :
  batch_item env item w
  = (Return (item_result env item w), snd (analyze env item w)).
Proof.
  unfold batch_item, item_result, try_catch, bind, ret.
  destruct (analyze env item w) as [[data|m] w1]; reflexivity.
Qed.







End BatchProcessing.

(* ===================================================================== *)
(** * Numbers: the safe integers print and read back                      *)
(* ===================================================================== *)

Module SafeIntegers.
Import JS Spec.
Local Open Scope Z_scope.

(** ** The binary64 value of an integer below [2^53] *)

Lemma iter_xO_value p c : Zpos (Pos.iter xO p c) = Zpos p * 2 ^ Zpos c.
Proof.
  induction c as [|c IH] using Pos.peano_ind.
  - cbn [Pos.iter]. lia.
  - rewrite Pos.iter_succ, Pos2Z.inj_succ, Z.pow_succ_r by lia.
    rewrite Pos2Z.inj_xO, IH. lia.
Qed.

Lemma iter_xO_digits p c :
  Zpos (digits2_pos (Pos.iter xO p c)) = Zpos (digits2_pos p) + Zpos c.
Proof.
  induction c as [|c IH] using Pos.peano_ind.
  - cbn [Pos.iter digits2_pos]. lia.
  - rewrite Pos.iter_succ. cbn [digits2_pos]. lia.
Qed.

(** A mantissa of 53 bits with an exponent from -52 to 0 is left as it
    is by the rounding. *)
Lemma binary_round_aux_exact s m e :
  Zpos (digits2_pos m) = 53 -> -52 <= e <= 0 ->
  binary_round_aux prec emax s (Zpos m) e loc_Exact = S754_finite s m e.
Proof.
  intros D E. unfold binary_round_aux, shr_fexp, shr_record_of_loc.
  cbn [Zdigits2]. rewrite D.
  assert (F : fexp prec emax (53 + e) - e = 0).
  { unfold fexp, emin, prec, emax. lia. }
  rewrite F. cbn [shr shr_m loc_of_shr_record round_nearest_even Zdigits2].
  rewrite D, F. cbn [shr shr_m].
  assert (L : (e <=? emax - prec) = true) by (unfold emax, prec; lia).
  rewrite L. reflexivity.
Qed.

Lemma digits2_pos_bounds p :
  2 ^ (Zpos (digits2_pos p) - 1) <= Zpos p < 2 ^ Zpos (digits2_pos p).
Proof.
  induction p as [q IH|q IH|]; cbn [digits2_pos].
  - rewrite Pos2Z.inj_succ.
    replace (Z.succ (Zpos (digits2_pos q)) - 1)
      with (Z.succ (Zpos (digits2_pos q) - 1)) by lia.
    rewrite !Z.pow_succ_r by lia. lia.
  - rewrite Pos2Z.inj_succ.
    replace (Z.succ (Zpos (digits2_pos q)) - 1)
      with (Z.succ (Zpos (digits2_pos q) - 1)) by lia.
    rewrite !Z.pow_succ_r by lia. lia.
  - cbn. lia.
Qed.

(** An integer from 1 to [2^53 - 1] is a number, exactly: its mantissa
    is the integer shifted to 53 bits. *)
Lemma Number_of_Z_pos p :
  Zpos p < 2 ^ 53 ->
  exists m e,
    Number_of_Z (Zpos p) = S754_finite false m e
    /\ -52 <= e <= 0 /\ Zpos m = Zpos p * 2 ^ (- e).
Proof.
  intros B. pose proof (digits2_pos_bounds p) as [Lo _].
  assert (D : Zpos (digits2_pos p) <= 53).
  { destruct (Z.le_gt_cases (Zpos (digits2_pos p)) 53) as [H|H]; [exact H|].
    exfalso. assert (2 ^ 53 <= 2 ^ (Zpos (digits2_pos p) - 1))
      by (apply Z.pow_le_mono_r; lia). lia. }
  unfold Number_of_Z, binary_normalize, binary_round, shl_align.
  assert (F : fexp prec emax (Zpos (digits2_pos p) + 0)
              = Zpos (digits2_pos p) - 53).
  { unfold fexp, emin, prec, emax. lia. }
  rewrite F.
  destruct (Zpos (digits2_pos p) - 53 - 0) as [|c|c] eqn:S.
  - exists p, 0. split; [apply binary_round_aux_exact; lia|]. split; lia.
  - lia.
  - exists (Pos.iter xO p c), (Zpos (digits2_pos p) - 53). split.
    + apply binary_round_aux_exact; [rewrite iter_xO_digits|]; lia.
    + split; [lia|]. rewrite iter_xO_value. f_equal. f_equal. lia.
Qed.

Lemma binary_round_sign s m e :
  binary_round prec emax s m e
  = match binary_round prec emax false m e with
    | S754_zero _ => S754_zero s
    | S754_infinity _ => S754_infinity s
    | S754_nan => S754_nan
    | S754_finite _ m' e' => S754_finite s m' e'
    end.
Proof.
  unfold binary_round, binary_round_aux.
  destruct (shl_align _ _ _) as [mz ez].
  destruct (shr_fexp _ _ _ _ _) as [mrs1 e1].
  destruct (shr_fexp _ _ _ _ _) as [mrs2 e2].
  destruct (shr_m mrs2); [reflexivity| |reflexivity].
  destruct (e2 <=? emax - prec); reflexivity.
Qed.

(** ** The decimal exponent *)

Section Fraction.
Variables z den : Z.
Hypothesis z_positive : 1 <= z.
Hypothesis den_positive : 0 < den.

Lemma below_pow10_integer n :
  below_pow10 (z * den) den n = (0 <=? n) && (z <? 10 ^ n).
Proof.
  unfold below_pow10. destruct n as [|k|k].
  - change (10 ^ 0) with 1. cbn [Z.leb Z.compare andb]. apply eq_true_iff_eq.
    rewrite !Z.ltb_lt. nia.
  - change (0 <=? Zpos k) with true. cbn [andb]. apply eq_true_iff_eq.
    rewrite !Z.ltb_lt.
    pose proof (Z.pow_pos_nonneg 10 (Zpos k) ltac:(lia) ltac:(lia)). nia.
  - change (0 <=? Zneg k) with false. cbn [andb]. apply Z.ltb_ge.
    pose proof (Z.pow_pos_nonneg 10 (Zpos k) ltac:(lia) ltac:(lia)).
    assert (den <= z * den) by nia.
    assert (z * den * 1 <= z * den * 10 ^ Zpos k)
      by (apply Z.mul_le_mono_nonneg_l; lia).
    lia.
Qed.

Lemma exponent10_least fuel :
  forall n0 N,
    n0 <= N -> N - n0 < Z.of_nat fuel ->
    below_pow10 (z * den) den N = true ->
    n0 <= exponent10 fuel n0 (z * den) den <= N
    /\ below_pow10 (z * den) den (exponent10 fuel n0 (z * den) den) = true.
Proof.
  induction fuel as [|f IH]; intros n0 N L F B; [lia|].
  cbn [exponent10]. destruct (below_pow10 (z * den) den n0) eqn:E.
  - split; [lia|exact E].
  - assert (n0 <> N) by (intros ->; congruence).
    destruct (IH (n0 + 1) N ltac:(lia) ltac:(lia) B) as [R1 R2].
    split; [lia|exact R2].
Qed.

(** For an integer from 1 to [10^17 - 1] the exponent is its number of
    digits, from 1 to 17. *)
Lemma exponent10_integer :
  z < 10 ^ 17 ->
  1 <= exponent10 700 (-324) (z * den) den <= 17.
Proof.
  intros B.
  destruct (exponent10_least 700 (-324) 17 ltac:(lia) ltac:(lia)) as [R1 R2].
  { rewrite below_pow10_integer. apply andb_true_intro.
    split; [reflexivity|apply Z.ltb_lt; exact B]. }
  rewrite below_pow10_integer in R2. apply andb_prop in R2.
  destruct R2 as [P Q]. apply Z.leb_le in P. apply Z.ltb_lt in Q.
  split; [|lia].
  destruct (Z.eq_dec (exponent10 700 (-324) (z * den) den) 0) as [E|E]; [|lia].
  rewrite E in Q. cbn in Q. lia.
Qed.

End Fraction.

(** ** The shortest digits *)

Lemma number_eqb_refl x : number_eqb x x = true.
Proof.
  destruct x as [b|b| |b m e]; cbn [number_eqb];
    rewrite ?Bool.eqb_reflx, ?Pos.eqb_refl, ?Z.eqb_refl; reflexivity.
Qed.

Lemma scaled_floor_nonneg num den q :
  0 <= num -> 0 < den -> 0 <= scaled_floor num den q.
Proof.
  intros Hn Hd. unfold scaled_floor. destruct q as [|k|k].
  - apply Z.div_pos; lia.
  - pose proof (Z.pow_pos_nonneg 10 (Zpos k) ltac:(lia) ltac:(lia)).
    apply Z.div_pos; nia.
  - pose proof (Z.pow_pos_nonneg 10 (Zpos k) ltac:(lia) ltac:(lia)).
    apply Z.div_pos; nia.
Qed.

(** The digits a candidate gives denote the number, and so do they after
    the carry from [10^k] to [10^(k-1)] with the exponent one up. *)
Lemma candidate_sound x num den n k s n' :
  0 <= num -> 0 < den ->
  shortest_candidate x num den n k = Some (s, n') ->
  exists c,
    1 <= c
    /\ decimal_to_number false (Z.to_N c) (n - Z.of_nat k) = x
    /\ (s, n') = (if c =? 10 ^ Z.of_nat k
                  then (10 ^ (Z.of_nat k - 1), n + 1) else (c, n)).
Proof.
  intros Hn Hd. unfold shortest_candidate. cbv zeta.
  pose proof (scaled_floor_nonneg num den (n - Z.of_nat k) Hn Hd) as Hlo.
  set (lo := scaled_floor num den (n - Z.of_nat k)) in *.
  destruct (number_eqb (decimal_to_number false (Z.to_N lo) (n - Z.of_nat k)) x
            && (0 <? lo)) eqn:A;
    destruct (number_eqb
                (decimal_to_number false (Z.to_N (lo + 1)) (n - Z.of_nat k)) x)
      eqn:B;
    try discriminate;
    try (apply andb_prop in A; destruct A as [A A0]; apply Z.ltb_lt in A0;
         apply ModelInvoker.number_eqb_eq in A);
    try apply ModelInvoker.number_eqb_eq in B;
    repeat match goal with
           | |- context [if ?b then Some _ else _] => destruct b
           end;
    intros H; inversion H as [E];
    first [ exists lo; split; [lia|split; [exact A|reflexivity]]
          | exists (lo + 1); split; [lia|split; [exact B|reflexivity]] ].
Qed.

Lemma shortest_digits_found x num den n :
  forall fuel k k1,
    (k <= k1 < k + fuel)%nat ->
    shortest_candidate x num den n k1 <> None ->
    exists s n' k',
      shortest_digits x num den n k fuel = (s, n', k')
      /\ shortest_candidate x num den n k' = Some (s, n')
      /\ (k <= k' <= k1)%nat.
Proof.
  induction fuel as [|f IH]; intros k k1 R C; [lia|].
  cbn [shortest_digits].
  destruct (shortest_candidate x num den n k) as [[s n']|] eqn:E.
  - exists s, n', k. split; [reflexivity|]. split; [exact E|lia].
  - assert (k <> k1) by (intros ->; contradiction).
    destruct (IH (S k) k1 ltac:(lia) C) as (s & n' & k' & R1 & R2 & R3).
    exists s, n', k'. split; [exact R1|]. split; [exact R2|lia].
Qed.

(** With as many digits as the integer has, the integer itself is a
    candidate. *)
Lemma candidate_at_digits p den n :
  0 < den -> 1 <= n ->
  shortest_candidate (Number_of_Z (Zpos p)) (Zpos p * den) den n (Z.to_nat n)
  <> None.
Proof.
  intros Hd Hn. unfold shortest_candidate. cbv zeta.
  rewrite Z2Nat.id, Z.sub_diag by lia.
  assert (L : scaled_floor (Zpos p * den) den 0 = Zpos p).
  { unfold scaled_floor. change (10 ^ 0) with 1.
    rewrite Z.mul_1_r. apply Z.div_mul. lia. }
  rewrite L.
  assert (K : number_eqb (decimal_to_number false (Z.to_N (Zpos p)) 0)
                         (Number_of_Z (Zpos p)) = true).
  { cbn [Z.to_N decimal_to_number cond_Zopp]. change (10 ^ 0) with 1.
    rewrite Z.mul_1_r. apply number_eqb_refl. }
  rewrite K. cbn [andb Z.ltb Z.compare].
  repeat match goal with
         | |- context [match ?b with _ => _ end] => destruct b
         end; discriminate.
Qed.

(** ** Digits written and read *)

Local Open Scope N_scope.

Lemma digits_value_snoc ds d :
  digits_value (ds ++ [d]) = 10 * digits_value ds + (d - 48).
Proof. unfold digits_value. rewrite fold_left_app. reflexivity. Qed.

Lemma digits_aux_spec f :
  forall n acc,
    1 <= n < 2 ^ N.of_nat f ->
    exists d r,
      digits_aux f n acc = (d :: r) ++ acc
      /\ d <> 48 /\ forallb is_digit (d :: r) = true
      /\ digits_value (d :: r) = n.
Proof.
  induction f as [|f IH]; intros n acc B.
  { cbn in B. lia. }
  cbn [digits_aux]. cbv zeta.
  rewrite Nat2N.inj_succ, N.pow_succ_r' in B.
  destruct (n / 10 =? 0) eqn:E.
  - apply N.eqb_eq in E. exists (48 + n mod 10), []. split; [reflexivity|].
    assert (n < 10) by (apply N.div_small_iff in E; lia).
    rewrite N.mod_small by lia.
    split; [lia|]. split.
    + cbn [forallb]. unfold is_digit. rewrite andb_true_r.
      apply andb_true_intro. split; apply N.leb_le; lia.
    + unfold digits_value. cbn [fold_left]. lia.
  - apply N.eqb_neq in E.
    assert (Hq : 1 <= n / 10 < 2 ^ N.of_nat f).
    { split; [clear B IH; generalize dependent (n / 10); intros q Q; lia|].
      apply N.Div0.div_lt_upper_bound. lia. }
    destruct (IH (n / 10) ((48 + n mod 10) :: acc) Hq)
      as (d & r & R1 & R2 & R3 & R4).
    exists d, (r ++ [48 + n mod 10]). split; [|split; [exact R2|split]].
    + rewrite R1. cbn [app]. rewrite <- app_assoc. reflexivity.
    + change (d :: r ++ [48 + n mod 10]) with ((d :: r) ++ [48 + n mod 10]).
      rewrite forallb_app, R3. cbn [forallb andb]. unfold is_digit.
      rewrite andb_true_r. pose proof (N.mod_lt n 10 ltac:(lia)) as M.
      revert M. generalize (n mod 10). intros u M.
      apply andb_true_intro. split; apply N.leb_le; clear - M; lia.
    + change (d :: r ++ [48 + n mod 10]) with ((d :: r) ++ [48 + n mod 10]).
      rewrite digits_value_snoc, R4, (N.add_comm 48), N.add_sub.
      symmetry. apply N.div_mod. discriminate.
Qed.

Lemma decimal_spec n :
  1 <= n ->
  exists d r,
    decimal n = d :: r /\ d <> 48 /\ forallb is_digit (d :: r) = true
    /\ digits_value (d :: r) = n.
Proof.
  intros B. unfold decimal.
  destruct (digits_aux_spec (S (N.to_nat (N.log2 n))) n []) as (d & r & R).
  { split; [exact B|]. rewrite Nat2N.inj_succ, N2Nat.id.
    apply N.log2_spec. lia. }
  rewrite app_nil_r in R. exists d, r. exact R.
Qed.

Lemma digits_value_zeros ds j :
  digits_value (ds ++ zeros j) = digits_value ds * 10 ^ N.of_nat j.
Proof.
  induction j as [|j IH].
  - cbn [zeros repeat]. rewrite app_nil_r. cbn. lia.
  - assert (Z : zeros (S j) = zeros j ++ [48])
      by (unfold zeros; cbn [repeat]; apply repeat_cons).
    rewrite Z, app_assoc, digits_value_snoc, IH, N.sub_diag.
    rewrite Nat2N.inj_succ, N.pow_succ_r'. lia.
Qed.

Lemma zeros_digits j : forallb is_digit (zeros j) = true.
Proof. induction j as [|j IH]; [reflexivity|]. cbn. exact IH. Qed.

Lemma take_digits_all ds :
  forallb is_digit ds = true -> take_digits ds = (ds, []).
Proof.
  induction ds as [|c r IH]; [reflexivity|]. cbn [forallb take_digits].
  intros H. apply andb_prop in H. destruct H as [Hc Hr].
  rewrite Hc, (IH Hr). reflexivity.
Qed.

(** A string of digits that does not start with a zero, with a minus sign
    or without, is read as the integer it denotes. *)
Lemma parse_digits (neg : bool) d r :
  d <> 48 -> forallb is_digit (d :: r) = true ->
  parse_number ((if neg then [chr "-"] else []) ++ d :: r)
  = Some (decimal_to_number neg (digits_value (d :: r)) 0, []).
Proof.
  intros Hd Hds. pose proof Hds as Hall. cbn [forallb] in Hds.
  apply andb_prop in Hds. destruct Hds as [Hdig _].
  assert (Hm : (d =? chr "-") = false).
  { apply N.eqb_neq. intros ->. discriminate Hdig. }
  assert (Hz : (d =? chr "0") = false) by (apply N.eqb_neq; exact Hd).
  unfold parse_number.
  assert (S1 : lex_sign ((if neg then [chr "-"] else []) ++ d :: r)
               = (neg, d :: r)).
  { destruct neg; cbn [app lex_sign]; [reflexivity|]. rewrite Hm. reflexivity. }
  rewrite S1. cbn [lex_int]. rewrite Hz, Hdig, (take_digits_all _ Hall).
  cbn [lex_frac lex_exp length]. rewrite app_nil_r. reflexivity.
Qed.

(** ** Integers print and read back *)

Local Open Scope Z_scope.

Lemma exact_fraction_integer p m e :
  -52 <= e <= 0 -> Zpos m = Zpos p * 2 ^ (- e) ->
  exists den, 0 < den /\ exact_fraction m e = (Zpos p * den, den).
Proof.
  intros He Hm. destruct e as [|k|k]; [| lia |].
  - exists 1. split; [lia|]. unfold exact_fraction.
    change (- 0) with 0 in Hm. change (2 ^ 0) with 1 in *. rewrite Hm.
    f_equal. lia.
  - exists (2 ^ Zpos k). split; [apply Z.pow_pos_nonneg; lia|].
    unfold exact_fraction. cbn [Z.opp] in Hm. rewrite Hm. reflexivity.
Qed.

Lemma decimal_to_number_nonneg neg m q :
  (1 <= m)%N -> 0 <= q ->
  decimal_to_number neg m q
  = binary_normalize prec emax (cond_Zopp neg (Z.of_N m * 10 ^ q)) 0 false.
Proof.
  intros Hm Hq. destruct m as [|p]; [lia|]. destruct q; try lia; reflexivity.
Qed.

(** The text of an integer from 1 to [2^53 - 1]: digits, the first of
    them not a zero, that denote a decimal which is read as the number. *)
Lemma positive_integer_text p m e :
  Zpos p < 2 ^ 53 ->
  Number_of_Z (Zpos p) = S754_finite false m e ->
  -52 <= e <= 0 -> Zpos m = Zpos p * 2 ^ (- e) ->
  exists d r,
    positive_to_string m e = d :: r
    /\ d <> 48%N /\ forallb is_digit (d :: r) = true
    /\ decimal_to_number false (digits_value (d :: r)) 0
       = S754_finite false m e.
Proof.
  intros B Hx He Hm.
  destruct (exact_fraction_integer p m e He Hm) as (den & Hden & Hf).
  unfold positive_to_string. rewrite Hf.
  assert (B17 : Zpos p < 10 ^ 17).
  { change (2 ^ 53) with 9007199254740992 in B.
    change (10 ^ 17) with 100000000000000000. lia. }
  pose proof (exponent10_integer (Zpos p) den ltac:(lia) Hden B17) as Hn.
  set (n0 := exponent10 700 (-324) (Zpos p * den) den) in *.
  destruct (shortest_digits_found (S754_finite false m e) (Zpos p * den) den
              n0 17 1 (Z.to_nat n0)) as (s & n' & k' & R1 & R2 & R3).
  { lia. }
  { rewrite <- Hx. apply candidate_at_digits; lia. }
  rewrite R1.
  assert (Hnum : 0 <= Zpos p * den) by nia.
  destruct (candidate_sound _ _ _ _ _ _ _ Hnum Hden R2)
    as (c & Hc & Hdec & Hnorm).
  assert (K : 1 <= Z.of_nat k' <= n0) by lia.
  assert (P : 1 <= s /\ n0 <= n' <= n0 + 1
              /\ s * 10 ^ (n' - Z.of_nat k') = c * 10 ^ (n0 - Z.of_nat k')).
  { destruct (c =? 10 ^ Z.of_nat k') eqn:E; inversion Hnorm; subst s n'.
    - apply Z.eqb_eq in E. subst c.
      pose proof (Z.pow_pos_nonneg 10 (Z.of_nat k' - 1) ltac:(lia) ltac:(lia)).
      split; [lia|]. split; [lia|].
      rewrite <- !Z.pow_add_r by lia. f_equal. lia.
    - split; [exact Hc|]. split; [lia|reflexivity]. }
  destruct P as (Hs & Hn' & Hv).
  assert (C : (Z.of_nat k' <=? n') && (n' <=? 21) = true).
  { apply andb_true_intro. split; apply Z.leb_le; lia. }
  rewrite C.
  destruct (decimal_spec (Z.to_N s) ltac:(lia)) as (d & r & D1 & D2 & D3 & D4).
  rewrite D1. exists d, (r ++ zeros (Z.to_nat n' - k')).
  split; [reflexivity|]. split; [exact D2|].
  change (d :: r ++ zeros (Z.to_nat n' - k'))
    with ((d :: r) ++ zeros (Z.to_nat n' - k')).
  split; [rewrite forallb_app, D3, zeros_digits; reflexivity|].
  rewrite digits_value_zeros, D4, <- Hdec.
  rewrite !decimal_to_number_nonneg by lia.
  f_equal. f_equal.
  rewrite N2Z.inj_mul, N2Z.inj_pow, !Z2N.id, nat_N_Z, Nat2Z.inj_sub, Z2Nat.id
    by lia.
  change (10 ^ 0) with 1. change (Z.of_N 10) with 10. rewrite Z.mul_1_r.
  exact Hv.
Qed.

(** Every integer strictly between [-2^53] and [2^53] (the safe integers
    of JavaScript) is a number that [JSON.stringify] prints as a literal
    which [JSON.parse] reads back as the same number. *)
Theorem safe_integer_ok (z : Z) :
  - 2 ^ 53 < z < 2 ^ 53 -> number_ok (Number_of_Z z) = true.
Proof.
  intros B. destruct z as [|p|p].
  - reflexivity.
  - destruct (Number_of_Z_pos p ltac:(lia)) as (m & e & Hx & He & Hm).
    destruct (positive_integer_text p m e ltac:(lia) Hx He Hm)
      as (d & r & T1 & T2 & T3 & T4).
    unfold number_ok. rewrite Hx. cbn [is_finite andb NumberToString].
    assert (Q : parse_number (positive_to_string m e)
                = Some (S754_finite false m e, [])).
    { rewrite T1, <- T4. exact (parse_digits false d r T2 T3). }
    rewrite Q. apply number_eqb_refl.
  - destruct (Number_of_Z_pos p ltac:(lia)) as (m & e & Hx & He & Hm).
    destruct (positive_integer_text p m e ltac:(lia) Hx He Hm)
      as (d & r & T1 & T2 & T3 & T4).
    assert (Hneg : Number_of_Z (Zneg p) = S754_finite true m e).
    { unfold Number_of_Z in *. cbn [binary_normalize] in *.
      rewrite binary_round_sign, Hx. reflexivity. }
    unfold number_ok. rewrite Hneg. cbn [is_finite andb NumberToString].
    assert (S : decimal_to_number true (digits_value (d :: r)) 0
                = S754_finite true m e).
    { destruct (digits_value (d :: r)) as [|v]; [discriminate T4|].
      cbn [decimal_to_number cond_Zopp] in *. change (10 ^ 0) with 1 in *.
      rewrite Z.mul_1_r in *. cbn [Z.opp binary_normalize] in *.
      rewrite binary_round_sign, T4. reflexivity. }
    assert (Q : parse_number (chr "-" :: positive_to_string m e)
                = Some (S754_finite true m e, [])).
    { rewrite T1, <- S. exact (parse_digits true d r T2 T3). }
    rewrite Q. apply number_eqb_refl.
Qed.

End SafeIntegers.

(* ===================================================================== *)
(** * The pass rate                                                       *)
(* ===================================================================== *)

Module PassRate.
Import JS Validators Spec ValidatorsFacts Samples SafeIntegers.
Local Open Scope Z_scope.

(** ** What the claim says of the pass rate *)

(** The text of the decimal [tenths / 10]: the integer part, the point
    and one digit. *)
Definition one_decimal (tenths : N) : jstring :=
  decimal (tenths / 10) ++ chr "." :: decimal (tenths mod 10).

(** [text] is a numeral with one digit after the point, and the number
    it denotes is [tenths / 10]: read without the point, its digits
    give [tenths]. *)
Definition one_decimal_numeral (text : jstring) (tenths : N) : Prop :=
  exists whole frac,
    text = whole ++ chr "." :: [frac]
    /\ whole <> []
    /\ forallb is_digit (whole ++ [frac]) = true
    /\ digits_value (whole ++ [frac]) = tenths.

(** [tenths / 10] is [passed / total * 100] rounded to one decimal
    place: no number with one decimal is nearer, the distance being at
    most [0.05]. *)
Definition nearest_tenths (passed total : nat) (tenths : N) : Prop :=
  2 * Z.abs (Z.of_N tenths * Z.of_nat total - 1000 * Z.of_nat passed)
  <= Z.of_nat total.

(** ** Rounding to 53 bits *)

Lemma digits2_pos_unique p n :
  2 ^ (n - 1) <= Zpos p < 2 ^ n -> Zpos (digits2_pos p) = n.
Proof.
  intros [Lo Hi]. pose proof (digits2_pos_bounds p) as [L H].
  set (d := Zpos (digits2_pos p)) in *.
  assert (0 < n).
  { destruct (Z.le_gt_cases n 0) as [Q|Q]; [|exact Q]. exfalso.
    assert (2 ^ n <= 2 ^ 0) by (apply Z.pow_le_mono_r; lia).
    change (2 ^ 0) with 1 in *. lia. }
  destruct (Z.lt_trichotomy d n) as [Q|[Q|Q]]; [|exact Q|]; exfalso.
  - assert (2 ^ d <= 2 ^ (n - 1)) by (apply Z.pow_le_mono_r; lia). lia.
  - assert (2 ^ n <= 2 ^ (d - 1)) by (apply Z.pow_le_mono_r; lia). lia.
Qed.

Lemma shr_1_m mrs : 0 <= shr_m mrs -> shr_m (shr_1 mrs) = shr_m mrs / 2.
Proof.
  destruct mrs as [m r s]. cbn [shr_m shr_1].
  destruct m as [|[q|q|]|q]; intros H; cbn [shr_m]; try lia.
  - reflexivity.
  - apply Z.div_unique with (r := 1); lia.
  - apply Z.div_unique with (r := 0); lia.
  - reflexivity.
Qed.

Lemma iter_shr_m p :
  forall mrs, 0 <= shr_m mrs ->
              shr_m (iter_pos shr_1 p mrs) = shr_m mrs / 2 ^ Zpos p.
Proof.
  induction p as [q IH|q IH|]; intros mrs H; cbn [iter_pos].
  - assert (H1 : 0 <= shr_m (shr_1 mrs))
      by (rewrite shr_1_m by exact H; apply Z.div_pos; lia).
    assert (P : 0 < 2 ^ Zpos q) by (apply Z.pow_pos_nonneg; lia).
    assert (H2 : 0 <= shr_m (iter_pos shr_1 q (shr_1 mrs)))
      by (rewrite IH by exact H1; apply Z.div_pos; lia).
    rewrite IH by exact H2. rewrite IH by exact H1.
    rewrite shr_1_m by exact H.
    rewrite !Z.div_div by lia. f_equal.
    replace (Zpos q~1) with (1 + Zpos q + Zpos q) by lia.
    rewrite !Z.pow_add_r by lia. change (2 ^ 1) with 2. lia.
  - assert (P : 0 < 2 ^ Zpos q) by (apply Z.pow_pos_nonneg; lia).
    assert (H2 : 0 <= shr_m (iter_pos shr_1 q mrs))
      by (rewrite IH by exact H; apply Z.div_pos; lia).
    rewrite IH by exact H2. rewrite IH by exact H.
    rewrite !Z.div_div by lia. f_equal.
    replace (Zpos q~0) with (Zpos q + Zpos q) by lia.
    rewrite Z.pow_add_r by lia. reflexivity.
  - rewrite shr_1_m by exact H. reflexivity.
Qed.

Lemma shr_m_of_loc m l : shr_m (shr_record_of_loc m l) = m.
Proof. destruct l as [|[| |]]; reflexivity. Qed.

Lemma round_nearest_even_range m l :
  round_nearest_even m l = m \/ round_nearest_even m l = m + 1.
Proof.
  destruct l as [|[| |]]; cbn [round_nearest_even]; auto.
  destruct (Z.even m); auto.
Qed.

(** A mantissa of [53 + k] bits is cut to 53 bits and rounded up or
    down; when rounding up gives [2^53], the exponent takes the
    carry. *)
Lemma round_aux_spec s m e l k :
  Zpos (digits2_pos m) = 53 + k -> 0 <= k ->
  -1074 <= e + k -> e + k + 1 <= 971 ->
  exists m' e' r,
    binary_round_aux prec emax s (Zpos m) e l = S754_finite s m' e'
    /\ (r = Zpos m / 2 ^ k \/ r = Zpos m / 2 ^ k + 1)
    /\ Zpos (digits2_pos m') = 53
    /\ (e' = e + k \/ e' = e + k + 1)
    /\ Zpos m' * 2 ^ (e' - (e + k)) = r.
Proof.
  intros D K Lo Hi.
  pose proof (digits2_pos_bounds m) as [BL BH]. rewrite D in BL, BH.
  assert (P : 0 < 2 ^ k) by (apply Z.pow_pos_nonneg; lia).
  replace (53 + k - 1) with (52 + k) in BL by lia.
  rewrite Z.pow_add_r in BL, BH by lia.
  change (2 ^ 52) with 4503599627370496 in BL.
  change (2 ^ 53) with 9007199254740992 in BH.
  set (a := Zpos m / 2 ^ k).
  assert (A1 : 4503599627370496 <= a)
    by (apply Z.div_le_lower_bound; lia).
  assert (A2 : a < 9007199254740992)
    by (apply Z.div_lt_upper_bound; lia).
  assert (S1 : exists mrs1,
             shr_fexp prec emax (Zpos m) e l = (mrs1, e + k)
             /\ shr_m mrs1 = a).
  { unfold shr_fexp. cbn [Zdigits2]. rewrite D.
    replace (fexp prec emax (53 + k + e) - e) with k
      by (unfold fexp, emin, prec, emax; lia).
    destruct k as [|pk|pk]; [| |lia].
    - eexists. split; [cbn [shr]; rewrite Z.add_0_r; reflexivity|].
      rewrite shr_m_of_loc. unfold a. rewrite Z.pow_0_r, Z.div_1_r.
      reflexivity.
    - eexists. split; [reflexivity|].
      rewrite iter_shr_m by (rewrite shr_m_of_loc; lia).
      rewrite shr_m_of_loc. reflexivity. }
  destruct S1 as (mrs1 & E1 & M1).
  unfold binary_round_aux. rewrite E1, M1.
  set (r := round_nearest_even a (loc_of_shr_record mrs1)).
  assert (R : r = a \/ r = a + 1) by apply round_nearest_even_range.
  assert (L : (e + k <=? emax - prec) = true)
    by (apply Z.leb_le; unfold emax, prec; lia).
  assert (L' : (e + k + 1 <=? emax - prec) = true)
    by (apply Z.leb_le; unfold emax, prec; lia).
  destruct (Z.lt_ge_cases r 9007199254740992) as [Q|Q].
  - destruct r as [|pr|pr] eqn:Er; try lia.
    assert (Dr : Zpos (digits2_pos pr) = 53)
      by (apply digits2_pos_unique;
          change (2 ^ (53 - 1)) with 4503599627370496;
          change (2 ^ 53) with 9007199254740992; lia).
    unfold shr_fexp. cbn [Zdigits2]. rewrite Dr.
    replace (fexp prec emax (53 + (e + k)) - (e + k)) with 0
      by (unfold fexp, emin, prec, emax; lia).
    cbn [shr shr_record_of_loc shr_m]. rewrite L.
    exists pr, (e + k), (Zpos pr). split; [reflexivity|].
    split; [exact R|]. split; [exact Dr|]. split; [left; reflexivity|].
    rewrite Z.sub_diag. change (2 ^ 0) with 1. lia.
  - assert (Er : r = 9007199254740992) by lia. rewrite Er.
    unfold shr_fexp.
    change (Zdigits2 9007199254740992) with 54.
    replace (fexp prec emax (54 + (e + k)) - (e + k)) with 1
      by (unfold fexp, emin, prec, emax; lia).
    cbn [shr shr_record_of_loc iter_pos shr_1 shr_m]. rewrite L'.
    exists 4503599627370496%positive, (e + k + 1), r.
    split; [reflexivity|]. split; [exact R|].
    split; [reflexivity|]. split; [right; reflexivity|].
    replace (e + k + 1 - (e + k)) with 1 by lia. rewrite Er. reflexivity.
Qed.

(** An integer from 1 to [2^53 - 1] as a number: a mantissa of 53 bits
    and the exponent that goes with the length of the integer. *)
Lemma Number_of_Z_normal p :
  Zpos p < 2 ^ 53 ->
  exists m,
    Number_of_Z (Zpos p)
    = S754_finite false m (Zpos (digits2_pos p) - 53)
    /\ Zpos (digits2_pos m) = 53
    /\ Zpos m = Zpos p * 2 ^ (53 - Zpos (digits2_pos p))
    /\ Zpos (digits2_pos p) <= 53.
Proof.
  intros B. pose proof (digits2_pos_bounds p) as [Lo _].
  assert (D : Zpos (digits2_pos p) <= 53).
  { destruct (Z.le_gt_cases (Zpos (digits2_pos p)) 53) as [H|H]; [exact H|].
    exfalso. assert (2 ^ 53 <= 2 ^ (Zpos (digits2_pos p) - 1))
      by (apply Z.pow_le_mono_r; lia). lia. }
  unfold Number_of_Z, binary_normalize, binary_round, shl_align.
  assert (F : fexp prec emax (Zpos (digits2_pos p) + 0)
              = Zpos (digits2_pos p) - 53).
  { unfold fexp, emin, prec, emax. lia. }
  rewrite F.
  destruct (Zpos (digits2_pos p) - 53 - 0) as [|c|c] eqn:S.
  - exists p. assert (E : Zpos (digits2_pos p) = 53) by lia.
    rewrite E. split; [apply binary_round_aux_exact; lia|].
    split; [reflexivity|]. split; [|lia]. change (2 ^ (53 - 53)) with 1. lia.
  - lia.
  - exists (Pos.iter xO p c). split.
    + apply binary_round_aux_exact; [rewrite iter_xO_digits|]; lia.
    + split; [rewrite iter_xO_digits; lia|]. split; [|lia].
      rewrite iter_xO_value. f_equal. f_equal. lia.
Qed.

(** ** The division and the multiplication of the pass rate *)

(** The quotient of two numbers with full mantissas: the mantissa of
    the result is the exact quotient of the mantissas, cut to 53 bits
    and rounded up or down. *)
Lemma div_spec mp ep mt et :
  Zpos (digits2_pos mp) = 53 -> Zpos (digits2_pos mt) = 53 ->
  -60 <= ep <= 0 -> -60 <= et <= 0 ->
  exists m1 e1 r1 k,
    Number_div (S754_finite false mp ep) (S754_finite false mt et)
    = S754_finite false m1 e1
    /\ Zpos (digits2_pos m1) = 53
    /\ (k = 0 \/ k = 1)
    /\ (e1 = ep - et - 53 + k \/ e1 = ep - et - 53 + k + 1)
    /\ Zpos m1 * 2 ^ (e1 - (ep - et - 53 + k)) = r1
    /\ (r1 - 1) * 2 ^ k * Zpos mt <= Zpos mp * 9007199254740992
       <= (r1 + 1) * 2 ^ k * Zpos mt.
Proof.
  intros Dp Dt Ep Et.
  pose proof (digits2_pos_bounds mp) as [Lp Hp]. rewrite Dp in Lp, Hp.
  pose proof (digits2_pos_bounds mt) as [Lt Ht]. rewrite Dt in Lt, Ht.
  change (2 ^ (53 - 1)) with 4503599627370496 in *.
  change (2 ^ 53) with 9007199254740992 in *.
  unfold Number_div, SFdiv, SFdiv_core_binary. cbv zeta.
  cbn [Zdigits2 xorb]. rewrite Dp, Dt.
  replace (Z.min (fexp prec emax (53 + ep - (53 + et))) (ep - et))
    with (ep - et - 53) by (unfold fexp, emin, prec, emax; lia).
  replace (ep - et - (ep - et - 53)) with 53 by lia.
  cbv iota. rewrite Z.shiftl_mul_pow2 by lia.
  change (2 ^ 53) with 9007199254740992.
  set (M := Zpos mp * 9007199254740992).
  pose proof (Z_div_mod M (Zpos mt) ltac:(lia)) as Hdm.
  destruct (Z.div_eucl M (Zpos mt)) as [q r]. destruct Hdm as [Hq Hr].
  assert (Q1 : 4503599627370496 <= q) by (unfold M in Hq; nia).
  assert (Q2 : q < 18014398509481984) by (unfold M in Hq; nia).
  destruct q as [|pq|pq]; try lia.
  destruct (Z.lt_ge_cases (Zpos pq) 9007199254740992) as [C|C].
  - assert (Dq : Zpos (digits2_pos pq) = 53 + 0)
      by (apply digits2_pos_unique;
          change (2 ^ (53 + 0 - 1)) with 4503599627370496;
          change (2 ^ (53 + 0)) with 9007199254740992; lia).
    destruct (round_aux_spec false pq (ep - et - 53)
                (new_location (Zpos mt) r) 0 Dq ltac:(lia) ltac:(lia)
                ltac:(lia))
      as (m1 & e1 & r1 & Hrun & Hr1 & D1 & He1 & Hv).
    exists m1, e1, r1, 0. split; [exact Hrun|]. split; [exact D1|].
    split; [left; reflexivity|]. split; [exact He1|]. split; [exact Hv|].
    change (2 ^ 0) with 1 in *. rewrite Z.div_1_r in Hr1. nia.
  - assert (Dq : Zpos (digits2_pos pq) = 53 + 1)
      by (apply digits2_pos_unique;
          change (2 ^ (53 + 1 - 1)) with 9007199254740992;
          change (2 ^ (53 + 1)) with 18014398509481984; lia).
    destruct (round_aux_spec false pq (ep - et - 53)
                (new_location (Zpos mt) r) 1 Dq ltac:(lia) ltac:(lia)
                ltac:(lia))
      as (m1 & e1 & r1 & Hrun & Hr1 & D1 & He1 & Hv).
    exists m1, e1, r1, 1. split; [exact Hrun|]. split; [exact D1|].
    split; [right; reflexivity|]. split; [exact He1|]. split; [exact Hv|].
    change (2 ^ 1) with 2 in *.
    pose proof (Z.div_mod (Zpos pq) 2 ltac:(lia)) as Hd.
    pose proof (Z.mod_pos_bound (Zpos pq) 2 ltac:(lia)) as Hb.
    set (a := Zpos pq / 2) in *. nia.
Qed.

Lemma hundred : Number_of_Z 100 = S754_finite false 7036874417766400 (-46).
Proof. reflexivity. Qed.

(** The product with 100: the exact product of the mantissas, cut to 53
    bits and rounded up or down. *)
Lemma mul100_spec m1 e1 :
  Zpos (digits2_pos m1) = 53 -> -200 <= e1 <= 0 ->
  exists m2 e2 r2 k2,
    Number_mul (S754_finite false m1 e1) (Number_of_Z 100)
    = S754_finite false m2 e2
    /\ Zpos (digits2_pos m2) = 53
    /\ (k2 = 52 \/ k2 = 53)
    /\ (e2 = e1 - 46 + k2 \/ e2 = e1 - 46 + k2 + 1)
    /\ Zpos m2 * 2 ^ (e2 - (e1 - 46 + k2)) = r2
    /\ (r2 - 1) * 2 ^ k2 <= Zpos m1 * 7036874417766400
       <= (r2 + 1) * 2 ^ k2.
Proof.
  intros D1 E1.
  pose proof (digits2_pos_bounds m1) as [L1 H1]. rewrite D1 in L1, H1.
  change (2 ^ (53 - 1)) with 4503599627370496 in *.
  change (2 ^ 53) with 9007199254740992 in *.
  rewrite hundred. unfold Number_mul, SFmul. cbn [xorb].
  set (M := (m1 * 7036874417766400)%positive).
  assert (HM : Zpos M = Zpos m1 * 7036874417766400)
    by (unfold M; rewrite Pos2Z.inj_mul; reflexivity).
  rewrite <- HM.
  replace (e1 + -46) with (e1 - 46) by lia.
  destruct (Z.lt_ge_cases (Zpos M) (2 ^ 105)) as [C|C].
  - assert (Dq : Zpos (digits2_pos M) = 53 + 52).
    { apply digits2_pos_unique. split; [|exact C].
      change (2 ^ (53 + 52 - 1)) with 20282409603651670423947251286016. lia. }
    destruct (round_aux_spec false M (e1 - 46) loc_Exact 52 Dq ltac:(lia)
                ltac:(lia) ltac:(lia))
      as (m2 & e2 & r2 & Hrun & Hr2 & D2 & He2 & Hv).
    exists m2, e2, r2, 52. split; [exact Hrun|]. split; [exact D2|].
    split; [left; reflexivity|]. split; [exact He2|]. split; [exact Hv|].
    change (2 ^ 52) with 4503599627370496 in *.
    pose proof (Z.div_mod (Zpos M) 4503599627370496 ltac:(lia)) as Hd.
    pose proof (Z.mod_pos_bound (Zpos M) 4503599627370496 ltac:(lia)) as Hb.
    set (a := Zpos M / 4503599627370496) in *. nia.
  - assert (Dq : Zpos (digits2_pos M) = 53 + 53).
    { apply digits2_pos_unique. split; [exact C|].
      change (2 ^ (53 + 53)) with 81129638414606681695789005144064. lia. }
    destruct (round_aux_spec false M (e1 - 46) loc_Exact 53 Dq ltac:(lia)
                ltac:(lia) ltac:(lia))
      as (m2 & e2 & r2 & Hrun & Hr2 & D2 & He2 & Hv).
    exists m2, e2, r2, 53. split; [exact Hrun|]. split; [exact D2|].
    split; [right; reflexivity|]. split; [exact He2|]. split; [exact Hv|].
    change (2 ^ 53) with 9007199254740992 in *.
    pose proof (Z.div_mod (Zpos M) 9007199254740992 ltac:(lia)) as Hd.
    pose proof (Z.mod_pos_bound (Zpos M) 9007199254740992 ltac:(lia)) as Hb.
    set (a := Zpos M / 9007199254740992) in *. nia.
Qed.

(** ** One digit after the point *)

Local Open Scope N_scope.

Lemma digits_aux_acc f :
  forall n acc, digits_aux f n acc = digits_aux f n [] ++ acc.
Proof.
  induction f as [|f IH]; intros n acc; [reflexivity|].
  cbn [digits_aux]. cbv zeta. destruct (n / 10 =? 0); [reflexivity|].
  rewrite (IH _ (_ :: acc)), (IH _ [_]), <- app_assoc. reflexivity.
Qed.

Lemma digits_aux_fuel f :
  forall g n acc,
    n < 2 ^ N.of_nat f -> n < 2 ^ N.of_nat g -> (0 < f)%nat -> (0 < g)%nat ->
    digits_aux f n acc = digits_aux g n acc.
Proof.
  induction f as [|f IH]; intros g n acc Bf Bg Pf Pg; [lia|].
  destruct g as [|g]; [lia|]. cbn [digits_aux]. cbv zeta.
  destruct (n / 10 =? 0) eqn:E; [reflexivity|]. apply N.eqb_neq in E.
  rewrite Nat2N.inj_succ, N.pow_succ_r' in Bf, Bg.
  assert (Q : 1 <= n / 10)
    by (clear - E; generalize dependent (n / 10); intros q Q; lia).
  assert (Qf : n / 10 < 2 ^ N.of_nat f)
    by (apply N.Div0.div_lt_upper_bound; lia).
  assert (Qg : n / 10 < 2 ^ N.of_nat g)
    by (apply N.Div0.div_lt_upper_bound; lia).
  apply IH; try assumption.
  - destruct f; [cbn in Qf; lia|lia].
  - destruct g; [cbn in Qg; lia|lia].
Qed.

Lemma decimal_bound n : n < 2 ^ N.of_nat (S (N.to_nat (N.log2 n))).
Proof.
  rewrite Nat2N.inj_succ, N2Nat.id.
  destruct n as [|p]; [reflexivity|]. apply N.log2_spec. lia.
Qed.

Lemma decimal_small n : n < 10 -> decimal n = [48 + n].
Proof.
  intros H. unfold decimal. cbn [digits_aux]. cbv zeta.
  rewrite N.div_small, N.mod_small by exact H. reflexivity.
Qed.

Lemma decimal_step n :
  10 <= n -> decimal n = decimal (n / 10) ++ [48 + n mod 10].
Proof.
  intros H. unfold decimal at 1. cbn [digits_aux]. cbv zeta.
  assert (Q : 1 <= n / 10) by (apply N.div_le_lower_bound; lia).
  destruct (n / 10 =? 0) eqn:E; [apply N.eqb_eq in E; lia|].
  rewrite digits_aux_acc. f_equal. unfold decimal.
  pose proof (decimal_bound n) as B.
  rewrite Nat2N.inj_succ, N.pow_succ_r' in B.
  assert (Qf : n / 10 < 2 ^ N.of_nat (N.to_nat (N.log2 n)))
    by (apply N.Div0.div_lt_upper_bound; lia).
  apply digits_aux_fuel; try assumption; try lia.
  - apply decimal_bound.
  - destruct (N.to_nat (N.log2 n)); [cbn in Qf; lia|lia].
Qed.

Local Close Scope N_scope.

Lemma place_point_one d :
  place_point 1 (decimal d) = one_decimal d.
Proof.
  unfold place_point, one_decimal.
  destruct (N.lt_ge_cases d 10) as [H|H].
  - rewrite (decimal_small d H).
    rewrite N.div_small, N.mod_small by exact H.
    rewrite (decimal_small d H). reflexivity.
  - rewrite (decimal_step d H).
    rewrite (decimal_small (d mod 10)%N) by (apply N.mod_lt; lia).
    assert (L : (1 <= length (decimal (d / 10)))%nat).
    { assert (Q : (1 <= d / 10)%N) by (apply N.div_le_lower_bound; lia).
      destruct (SafeIntegers.decimal_spec (d / 10) Q) as (c & r & -> & _).
      cbn [length]. lia. }
    set (q := decimal (d / 10)) in *. set (c := (48 + d mod 10)%N).
    assert (E1 : (2 - length (q ++ [c]) = 0)%nat)
      by (rewrite length_app; cbn [length]; lia).
    assert (E2 : (length (q ++ [c]) - 1 = length q)%nat)
      by (rewrite length_app; cbn [length]; lia).
    rewrite E1. cbn [zeros repeat app]. rewrite E2.
    rewrite firstn_app, firstn_all, Nat.sub_diag. cbn [firstn].
    rewrite app_nil_r, skipn_app, skipn_all, Nat.sub_diag. cbn [skipn app].
    reflexivity.
Qed.

Local Open Scope N_scope.

(** The text of [tenths / 10] reads as that number. *)
Lemma one_decimal_reads d : one_decimal_numeral (one_decimal d) d.
Proof.
  unfold one_decimal_numeral, one_decimal.
  assert (M : (d mod 10 < 10)%N) by (apply N.mod_lt; lia).
  exists (decimal (d / 10)), (48 + d mod 10)%N.
  rewrite (decimal_small _ M). split; [reflexivity|].
  assert (Fd : is_digit (48 + d mod 10) = true).
  { unfold is_digit. revert M. generalize (d mod 10). intros u M.
    apply andb_true_intro. split; apply N.leb_le; clear - M; lia. }
  assert (V : forall q, digits_value q = (d / 10)%N ->
                        digits_value (q ++ [(48 + d mod 10)%N]) = d).
  { intros q Q. rewrite SafeIntegers.digits_value_snoc, Q.
    rewrite (N.add_comm 48), N.add_sub. symmetry. apply N.div_mod.
    discriminate. }
  destruct (N.eq_dec (d / 10) 0) as [Z|Z].
  - rewrite Z. change (decimal 0) with [48%N].
    split; [discriminate|]. split.
    + cbn [app forallb]. rewrite Fd. reflexivity.
    + apply V. rewrite Z. reflexivity.
  - assert (Q : 1 <= d / 10)
      by (clear - Z; generalize dependent (d / 10); intros q Z; lia).
    destruct (SafeIntegers.decimal_spec (d / 10) Q)
      as (c & r & E & _ & Dg & Vl).
    rewrite E. split; [discriminate|]. split.
    + rewrite forallb_app, Dg. cbn [forallb]. rewrite Fd. reflexivity.
    + apply V. exact Vl.
Qed.

Local Close Scope N_scope.

(** ** From the three roundings to the nearest tenth *)

Lemma scale_bound a b y :
  - b <= a <= b -> 0 <= y -> - (b * y) <= a * y <= b * y.
Proof. intros H Y. nia. Qed.

Lemma small_error t U V :
  0 < t < 4294967296 -> 4503599627370496 <= U -> 17592186044416 <= V ->
  t * (20 * U + 20 * 7036874417766400) < V * U.
Proof.
  intros Ht HU HV.
  assert (A : 20 * U + 20 * 7036874417766400 <= 60 * U) by lia.
  assert (B : t * (20 * U + 20 * 7036874417766400) <= t * (60 * U))
    by (apply Z.mul_le_mono_nonneg_l; lia).
  assert (C : t * (60 * U) <= 4294967296 * (60 * U))
    by (apply Z.mul_le_mono_nonneg_r; lia).
  assert (D : 17592186044416 * U <= V * U)
    by (apply Z.mul_le_mono_nonneg_r; lia).
  lia.
Qed.

(** The arithmetic that links the three steps: the quotient [r1], the
    product [r2] and the digits [d], each within one unit of its exact
    value at its own scale, leave [d / 10] within [0.05] of
    [100 p / t]: the errors of the first two steps are too small to
    reach the next multiple of [1 / (2 t)]. *)
Lemma tenths_close (d p t r1 m1 r2 m2 A B K J1 K2 J2 S2 : Z) :
  0 < t < 4294967296 -> 0 <= p ->
  0 < A -> 0 < B -> 0 < K -> 0 < J1 -> 0 < J2 -> 0 < S2 ->
  4503599627370496 <= K2 ->
  17592186044416 <= S2 * J2 ->
  S2 * J2 * K2 * J1 * K * B = A * 633825300114114700748351602688 ->
  (r1 - 1) * K * (t * B) <= p * A * 9007199254740992
    <= (r1 + 1) * K * (t * B) ->
  m1 * J1 = r1 ->
  (r2 - 1) * K2 <= m1 * 7036874417766400 <= (r2 + 1) * K2 ->
  m2 * J2 = r2 ->
  2 * Z.abs (d * S2 - m2 * 10) <= S2 ->
  2 * Z.abs (d * t - 1000 * p) <= t.
Proof.
  intros Ht Hp HA HB HK HJ1 HJ2 HS2 HK2 HV HW H1 E1 H2 E2 H3.
  assert (B3 : - S2 <= 2 * d * S2 - 20 * m2 <= S2) by (clear - H3; lia).
  assert (B2 : - K2 <= r2 * K2 - m1 * 7036874417766400 <= K2)
    by (clear - H2; lia).
  assert (B1 : - (K * (t * B))
               <= r1 * K * (t * B) - p * A * 9007199254740992
               <= K * (t * B)) by (clear - H1; lia).
  clear H1 H2 H3.
  set (T3 := 2 * d * S2 - 20 * m2) in *.
  set (T2 := r2 * K2 - m1 * 7036874417766400) in *.
  set (T1 := r1 * K * (t * B) - p * A * 9007199254740992) in *.
  set (U := K2 * J1). set (T := K * B). set (W := S2 * J2 * U * T).
  assert (PU : 4503599627370496 <= U).
  { unfold U. replace 4503599627370496 with (4503599627370496 * 1) by reflexivity.
    apply Z.mul_le_mono_nonneg; clear - HK2 HJ1; lia. }
  assert (PT : 0 < T) by (apply Z.mul_pos_pos; assumption).
  assert (PV : 0 < S2 * J2) by (apply Z.mul_pos_pos; assumption).
  assert (PUT : 0 < U * T) by (apply Z.mul_pos_pos; [clear - PU; lia|exact PT]).
  assert (PW : 0 < W)
    by (unfold W; rewrite <- Z.mul_assoc; apply Z.mul_pos_pos; assumption).
  assert (I : 2 * (d * t - 1000 * p) * W
              = T3 * (t * J2 * U * T) + 20 * (T2 * (t * J1 * T))
                + 20 * 7036874417766400 * T1).
  { transitivity (2 * d * t * W - 2000 * p * W); [ring|].
    replace (2000 * p * W)
      with (2000 * p * (A * 633825300114114700748351602688))
      by (rewrite <- HW; unfold W, U, T; ring).
    unfold T3, T2, T1, W, U, T. rewrite <- E1, <- E2. ring. }
  assert (Y3 : 0 <= t * J2 * U * T).
  { apply Z.mul_nonneg_nonneg;
      [apply Z.mul_nonneg_nonneg;
       [apply Z.mul_nonneg_nonneg; [clear - Ht; lia|clear - HJ2; lia]
       |clear - PU; lia]
      |clear - PT; lia]. }
  assert (Y2 : 0 <= t * J1 * T).
  { apply Z.mul_nonneg_nonneg;
      [apply Z.mul_nonneg_nonneg; [clear - Ht; lia|clear - HJ1; lia]
      |clear - PT; lia]. }
  pose proof (scale_bound T3 S2 _ B3 Y3) as C3.
  pose proof (scale_bound T2 K2 _ B2 Y2) as C2.
  replace (S2 * (t * J2 * U * T)) with (t * W) in C3 by (unfold W; ring).
  replace (K2 * (t * J1 * T)) with (U * (t * T)) in C2 by (unfold U; ring).
  replace (K * (t * B)) with (t * T) in B1 by (unfold T; ring).
  assert (Small : 20 * (U * (t * T)) + 20 * 7036874417766400 * (t * T) < W).
  { pose proof (small_error t U (S2 * J2) Ht PU HV) as Q.
    apply (Z.mul_lt_mono_pos_r T) in Q; [|exact PT].
    replace (20 * (U * (t * T)) + 20 * 7036874417766400 * (t * T))
      with (t * (20 * U + 20 * 7036874417766400) * T) by ring.
    replace W with (S2 * J2 * U * T) by reflexivity. exact Q. }
  assert (Bound : - (t * W + W) < 2 * (d * t - 1000 * p) * W < t * W + W).
  { rewrite I. clear - C3 C2 B1 Small.
    generalize dependent (T3 * (t * J2 * U * T)).
    generalize dependent (T2 * (t * J1 * T)).
    generalize dependent (U * (t * T)). generalize dependent (t * T).
    generalize dependent (t * W). clearbody T1 W. intros. lia. }
  assert (R : - (t + 1) < 2 * (d * t - 1000 * p) < t + 1).
  { replace (t * W + W) with ((t + 1) * W) in Bound by ring.
    split.
    - apply (Z.mul_lt_mono_pos_r W); [exact PW|].
      clear - Bound. lia.
    - apply (Z.mul_lt_mono_pos_r W); [exact PW|].
      clear - Bound. lia. }
  clear - R. lia.
Qed.

(** ** The pass rate is the quotient rounded to one decimal *)

Lemma digits_le p q :
  Zpos p <= Zpos q -> Zpos (digits2_pos p) <= Zpos (digits2_pos q).
Proof.
  intros H. pose proof (digits2_pos_bounds p) as [Lp _].
  pose proof (digits2_pos_bounds q) as [_ Hq].
  destruct (Z.le_gt_cases (Zpos (digits2_pos p)) (Zpos (digits2_pos q)))
    as [Q|Q]; [exact Q|exfalso].
  assert (2 ^ Zpos (digits2_pos q) <= 2 ^ (Zpos (digits2_pos p) - 1))
    by (apply Z.pow_le_mono_r; lia).
  lia.
Qed.

Lemma digits_below p n :
  0 <= n -> Zpos p < 2 ^ n -> Zpos (digits2_pos p) <= n.
Proof.
  intros N H. pose proof (digits2_pos_bounds p) as [Lp _].
  destruct (Z.le_gt_cases (Zpos (digits2_pos p)) n) as [Q|Q];
    [exact Q|exfalso].
  assert (2 ^ n <= 2 ^ (Zpos (digits2_pos p) - 1))
    by (apply Z.pow_le_mono_r; lia).
  lia.
Qed.

(** For a total below [2^32] (a JavaScript array is no longer) and a
    count of passed entries up to the total, [passRate] is the text of a
    number with one decimal that is nearest to [passed / total * 100]. *)
Lemma passRate_nearest (p t : nat) :
  (0 < t)%nat -> Z.of_nat t < 2 ^ 32 -> (p <= t)%nat ->
  exists d, passRate p t = one_decimal d /\ nearest_tenths p t d.
Proof.
  intros T0 T32 PT. change (2 ^ 32) with 4294967296 in T32.
  destruct (Z.of_nat t) as [|pt|pt] eqn:Et; try lia.
  assert (Bt : Zpos pt < 2 ^ 53)
    by (change (2 ^ 53) with 9007199254740992; lia).
  destruct (Number_of_Z_normal pt Bt) as (mt & Rt & Dt & Vt & _).
  unfold passRate, Number_of_nat. rewrite Et, Rt.
  destruct (Z.of_nat p) as [|pp|pp] eqn:Ep; try lia.
  { exists 0%N. split; [reflexivity|]. unfold nearest_tenths.
    rewrite Ep, Et. cbn. lia. }
  assert (Bp : Zpos pp < 2 ^ 53)
    by (change (2 ^ 53) with 9007199254740992; lia).
  destruct (Number_of_Z_normal pp Bp) as (mp & Rp & Dp & Vp & _).
  rewrite Rp.
  assert (Lpt : Zpos (digits2_pos pp) <= Zpos (digits2_pos pt))
    by (apply digits_le; lia).
  assert (Lt32 : Zpos (digits2_pos pt) <= 32)
    by (apply digits_below; [lia|change (2 ^ 32) with 4294967296; lia]).
  set (dp := Zpos (digits2_pos pp)) in *.
  set (dt := Zpos (digits2_pos pt)) in *.
  assert (P1 : 1 <= dp) by (unfold dp; lia).
  destruct (div_spec mp (dp - 53) mt (dt - 53) Dp Dt ltac:(lia) ltac:(lia))
    as (m1 & e1 & r1 & k & Rd & D1 & Hk & He1 & Hv1 & Hb1).
  rewrite Rd.
  destruct (mul100_spec m1 e1 D1 ltac:(lia))
    as (m2 & e2 & r2 & k2 & Rm & D2 & Hk2 & He2 & Hv2 & Hb2).
  rewrite Rm.
  set (G := dp - 53 - (dt - 53) - 53 + k) in *.
  set (F := e1 - 46 + k2) in *.
  destruct e2 as [|n2|n2]; try lia.
  pose proof (digits2_pos_bounds m2) as [_ H2]. rewrite D2 in H2.
  change (2 ^ 53) with 9007199254740992 in H2.
  assert (Pn : 0 < 2 ^ Zpos n2) by (apply Z.pow_pos_nonneg; lia).
  unfold Number_toFixed. cbn [exact_fraction].
  assert (C : (Zpos m2 <? 2 ^ Zpos n2 * 10 ^ 21) = true).
  { apply Z.ltb_lt. change (10 ^ 21) with 1000000000000000000000.
    assert (1 * 1000000000000000000000
            <= 2 ^ Zpos n2 * 1000000000000000000000)
      by (apply Z.mul_le_mono_nonneg_r; clear - Pn; lia).
    clear - H H2. lia. }
  rewrite C. cbn [app]. rewrite place_point_one.
  exists (toFixed_digits 1 m2 (Zneg n2)). split; [reflexivity|].
  unfold nearest_tenths. rewrite Ep, Et.
  pose proof (MetricsExtractor.toFixed_digits_nearest 1 m2 (Zneg n2)) as N.
  cbn [exact_fraction fst snd] in N. cbv zeta in N.
  change (10 ^ Z.of_nat 1) with 10 in N.
  assert (X1 : 0 <= e1 - G <= 1) by (clear - He1; lia).
  assert (X2 : 0 <= Zneg n2 - F <= 1) by (clear - He2; lia).
  assert (Xk : 0 <= k <= 1) by (clear - Hk; lia).
  assert (Xk2 : 52 <= k2 <= 53) by (clear - Hk2; lia).
  assert (Xa : 0 <= 53 - dp) by (clear - Lpt Lt32; lia).
  assert (Xb : 0 <= 53 - dt) by (clear - Lt32; lia).
  assert (Xs : Zpos n2 + (Zneg n2 - F) + k2 + (e1 - G) + k + (53 - dt)
               = 53 - dp + 99)
    by (clear; unfold F, G; lia).
  assert (Xv : 44 <= Zpos n2 + (Zneg n2 - F))
    by (clear - X1 Xk Xk2 Lpt; unfold F, G in *; lia).
  apply (tenths_close _ (Zpos pp) (Zpos pt) r1 (Zpos m1) r2 (Zpos m2)
           (2 ^ (53 - dp)) (2 ^ (53 - dt)) (2 ^ k) (2 ^ (e1 - G)) (2 ^ k2)
           (2 ^ (Zneg n2 - F)) (2 ^ Zpos n2)).
  - clear - T32 Et. lia.
  - clear. lia.
  - apply Z.pow_pos_nonneg; [reflexivity|exact Xa].
  - apply Z.pow_pos_nonneg; [reflexivity|exact Xb].
  - apply Z.pow_pos_nonneg; [reflexivity|apply Xk].
  - apply Z.pow_pos_nonneg; [reflexivity|apply X1].
  - apply Z.pow_pos_nonneg; [reflexivity|apply X2].
  - exact Pn.
  - change 4503599627370496 with (2 ^ 52).
    apply Z.pow_le_mono_r; [reflexivity|apply Xk2].
  - rewrite <- Z.pow_add_r by (clear - X2; lia).
    change 17592186044416 with (2 ^ 44).
    apply Z.pow_le_mono_r; [reflexivity|exact Xv].
  - change 633825300114114700748351602688 with (2 ^ 99).
    rewrite <- (Z.pow_add_r 2 (Zpos n2)) by (clear - X2; lia).
    rewrite <- (Z.pow_add_r 2 _ k2) by (clear - X2 Xk2; lia).
    rewrite <- (Z.pow_add_r 2 _ (e1 - G)) by (clear - X1 X2 Xk2; lia).
    rewrite <- (Z.pow_add_r 2 _ k) by (clear - X1 X2 Xk Xk2; lia).
    rewrite <- (Z.pow_add_r 2 _ (53 - dt)) by (clear - X1 X2 Xk Xk2 Xb; lia).
    rewrite <- (Z.pow_add_r 2 (53 - dp) 99) by (clear - Xa; lia).
    f_equal. exact Xs.
  - rewrite Vp, Vt in Hb1. exact Hb1.
  - exact Hv1.
  - exact Hb2.
  - exact Hv2.
  - exact N.
Qed.

(** C4: for every validated input (with fewer than [2^32] metrics, as
    every JavaScript array has), [extractKeyMetrics] returns the
    summary built from the entries of the three quantitative groups
    taken in the order fundamentalResilience, asymmetricRiskReward,
    technicalConfirmation: [totalMetrics] counts them all,
    [passedCount] those whose [pass] is exactly [true], [failedCount]
    those whose [pass] is exactly [false] (an entry without [pass] is in
    neither), and the sis, ssis and qualitative scores are the input's
    own.  When there is a metric at all, [passRate] is a numeral with
    one digit after the point, and the number it denotes is
    [passedCount / totalMetrics * 100] rounded to one decimal place:
    it is within [0.05] of the quotient.  With ten entries of which six
    pass, [passRate] is ["60.0"]. *)
Theorem extractKeyMetrics_pass_rate (E : Engine) (data : JValue) :
  success (validateInput data) = true ->
  Z.of_nat (length (all_entries data)) < 2 ^ 32 ->
  extractKeyMetrics E data = Return (summary data)
  /\ (all_entries data <> [] ->
      exists text tenths,
        read (summary data) (str "passRate") = JString text
        /\ one_decimal_numeral text tenths
        /\ nearest_tenths (length (filter (pass_is true) (all_entries data)))
             (length (all_entries data)) tenths)
  /\ (length (all_entries data) = 10%nat ->
      length (filter (pass_is true) (all_entries data)) = 6%nat ->
      read (summary data) (str "passRate") = JString (str "60.0")).
Proof.
  intros H B.
  destruct (@MetricsExtractor.extractKeyMetrics_summary E data H) as [H1 H2].
  split; [exact H1|]. split; [|exact H2].
  intros Hne.
  destruct (passRate_nearest
              (length (filter (pass_is true) (all_entries data)))
              (length (all_entries data))) as (d & Hd & Hn).
  - destruct (all_entries data); [contradiction|cbn [length]; lia].
  - exact B.
  - apply filter_length_le.
  - exists (one_decimal d), d. split; [|split; [apply one_decimal_reads|exact Hn]].
    unfold summary. cbn [read lookup]. rewrite <- Hd. reflexivity.
Qed.

Lemma extractKeyMetrics_pass_rate_witness :
  extractKeyMetrics v8 valid_input = Return (summary valid_input)
  /\ (exists text tenths,
        read (summary valid_input) (str "passRate") = JString text
        /\ one_decimal_numeral text tenths
        /\ nearest_tenths 6 10 tenths)
  /\ read (summary valid_input) (str "passRate") = JString (str "60.0").
Proof.
  destruct (extractKeyMetrics_pass_rate v8 valid_input eq_refl eq_refl)
    as (H1 & H2 & H3).
  split; [exact H1|]. split.
  - apply H2. discriminate.
  - apply H3; reflexivity.
Defined.

End PassRate.

(* ===================================================================== *)
(** * JSON texts: the parser terminates                                   *)
(* ===================================================================== *)

Module ParserTermination.
Import JS.

Lemma skip_ws_length s : length (skip_ws s) <= length s.
Proof.
  induction s as [|c r IH]; cbn [skip_ws length]; [lia|].
  destruct (is_json_ws c); cbn [length]; lia.
Qed.

Lemma take_digits_length s :
  length (snd (take_digits s)) <= length s.
Proof.
  induction s as [|c r IH]; cbn [take_digits length snd]; [lia|].
  destruct (is_digit c); [|cbn [snd length]; lia].
  destruct (take_digits r) as [ds rest]. cbn [snd] in *. lia.
Qed.

Lemma parse_string_body_length s :
  forall body rest,
    parse_string_body s = Some (body, rest) -> length rest < length s.
Proof.
  assert (H : forall n s, length s <= n ->
            forall body rest,
              parse_string_body s = Some (body, rest) -> length rest < length s).
  { induction n as [|n IH]; intros [|c r] Hn body rest Hp;
      try discriminate Hp; cbn [length] in *; [lia|].
    cbn [parse_string_body] in Hp.
    destruct (c =? DQUOTE)%N.
    { inversion Hp; subst. lia. }
    destruct (c =? BACKSLASH)%N.
    - destruct r as [|e r1]; [discriminate Hp|].
      destruct (e =? chr "u")%N.
      + destruct r1 as [|h1 [|h2 [|h3 [|h4 r2]]]]; try discriminate Hp.
        destruct (hex4 h1 h2 h3 h4); [|discriminate Hp].
        destruct (parse_string_body r2) as [[b t]|] eqn:E; [|discriminate Hp].
        inversion Hp; subst. apply IH in E; cbn [length] in *; lia.
      + destruct (unescape e); [|discriminate Hp].
        destruct (parse_string_body r1) as [[b t]|] eqn:E; [|discriminate Hp].
        inversion Hp; subst. apply IH in E; cbn [length] in *; lia.
    - destruct (c <? 32)%N; [discriminate Hp|].
      destruct (parse_string_body r) as [[b t]|] eqn:E; [|discriminate Hp].
      inversion Hp; subst. apply IH in E; lia. }
  intros body rest. apply (H (length s)). lia.
Qed.

Lemma parse_number_length s x rest :
  parse_number s = Some (x, rest) -> length rest <= length s.
Proof.
  unfold parse_number.
  destruct (lex_sign s) as [neg s1] eqn:E1.
  assert (L1 : length s1 <= length s).
  { unfold lex_sign in E1. destruct s as [|c r]; [inversion E1; subst; lia|].
    destruct (c =? chr "-")%N; inversion E1; subst; cbn [length]; lia. }
  destruct (lex_int s1) as [[int s2]|] eqn:E2; [|discriminate].
  assert (L2 : length s2 <= length s1).
  { unfold lex_int in E2. destruct s1 as [|c r]; [discriminate E2|].
    pose proof (take_digits_length (c :: r)) as T.
    destruct (take_digits (c :: r)) as [ds t].
    destruct (c =? chr "0")%N; [inversion E2; subst; cbn [length]; lia|].
    destruct (is_digit c); [|discriminate E2].
    inversion E2; subst. exact T. }
  destruct (lex_frac s2) as [[frac s3]|] eqn:E3; [|discriminate].
  assert (L3 : length s3 <= length s2).
  { unfold lex_frac in E3. destruct s2 as [|c r]; [inversion E3; subst; lia|].
    destruct (c =? chr ".")%N; [|inversion E3; subst; lia].
    pose proof (take_digits_length r) as T.
    destruct (take_digits r) as [[|d ds] t]; [discriminate E3|].
    inversion E3; subst. cbn [snd length] in *. lia. }
  destruct (lex_exp s3) as [[ex s4]|] eqn:E4; [|discriminate].
  assert (L4 : length s4 <= length s3).
  { unfold lex_exp in E4. destruct s3 as [|c r]; [inversion E4; subst; lia|].
    destruct ((c =? chr "e") || (c =? chr "E"))%N; [|inversion E4; subst; lia].
    destruct (lex_exp_sign r) as [eneg r1] eqn:E5.
    assert (L5 : length r1 <= length r).
    { unfold lex_exp_sign in E5. destruct r as [|g r']; [inversion E5; subst; lia|].
      destruct (g =? chr "-")%N; [inversion E5; subst; cbn [length]; lia|].
      destruct (g =? chr "+")%N; inversion E5; subst; cbn [length]; lia. }
    pose proof (take_digits_length r1) as T.
    destruct (take_digits r1) as [[|d ds] t]; [discriminate E4|].
    inversion E4; subst. cbn [snd length] in *. lia. }
  intros H. inversion H; subst. lia.
Qed.

Lemma expect_length lit v s w rest :
  expect lit v s = POk w rest -> length rest <= length s.
Proof.
  unfold expect. destruct (startsWith s lit); [|discriminate].
  intros H. inversion H; subst. rewrite length_skipn. lia.
Qed.

(** Case analysis on the tests of a parser whose result is known, with
    the length of what each step leaves. *)
Ltac leaf H :=
  first [ discriminate H
        | inversion H; subst; cbn [length] in *; lia
        | apply expect_length in H; cbn [length] in *; lia ].

Ltac recursive_call IH call :=
  let E := fresh "E" in
  destruct call eqn:E;
  [ apply IH in E;
    try match type of E with
        | context [skip_ws ?x] => pose proof (skip_ws_length x)
        end
  | | ].

Ltac next_case H IHv IHe IHm :=
  match type of H with
  | context [match skip_ws ?x with _ => _ end] =>
      let E := fresh "E" in
      pose proof (skip_ws_length x) as E;
      destruct (skip_ws x); cbn [length] in E
  | context [match parse_string_body ?x with _ => _ end] =>
      let E := fresh "E" in
      destruct (parse_string_body x) as [[? ?]|] eqn:E;
      [apply parse_string_body_length in E|]
  | context [match parse_number ?x with _ => _ end] =>
      let E := fresh "E" in
      destruct (parse_number x) as [[? ?]|] eqn:E;
      [apply parse_number_length in E|]
  | context [match parse_value ?f ?x with _ => _ end] =>
      recursive_call IHv (parse_value f x)
  | context [match parse_elements ?f ?x with _ => _ end] =>
      recursive_call IHe (parse_elements f x)
  | context [match parse_members ?f ?x with _ => _ end] =>
      recursive_call IHm (parse_members f x)
  | context [if ?b then _ else _] => destruct b
  end.

Ltac walk H IHv IHe IHm :=
  first [ leaf H | next_case H IHv IHe IHm; walk H IHv IHe IHm ].

(** What a parser leaves is no longer than what it was given. *)
Lemma parse_length fuel :
  (forall s v rest, parse_value fuel s = POk v rest -> length rest <= length s)
  /\ (forall s vs rest,
        parse_elements fuel s = POk vs rest -> length rest <= length s)
  /\ (forall s ps rest,
        parse_members fuel s = POk ps rest -> length rest <= length s).
Proof.
  induction fuel as [|f (IHv & IHe & IHm)].
  { repeat split; intros; discriminate. }
  repeat split.
  - intros s v rest H. cbn [parse_value] in H.
    destruct s as [|c r]; [discriminate H|]. walk H IHv IHe IHm.
  - intros s vs rest H. cbn [parse_elements] in H. walk H IHv IHe IHm.
  - intros s ps rest H. cbn [parse_members] in H.
    destruct s as [|q r]; [discriminate H|]. walk H IHv IHe IHm.
Qed.

(** The fuel [parse_text] gives is never used up: twice the length of the
    text, and one more, is enough for every text. *)
Ltac out_of_fuel IH call pl :=
  let E := fresh "E" in
  destruct call eqn:E;
  [ apply pl in E;
    try match type of E with
        | context [skip_ws ?x] => pose proof (skip_ws_length x)
        end
  |
  | exfalso; revert E; apply IH;
    try match goal with
        | |- context [skip_ws ?x] => pose proof (skip_ws_length x)
        end;
    cbn [length] in *; lia ].

Ltac fuel_case H IHv IHe IHm f :=
  match type of H with
  | context [match skip_ws ?x with _ => _ end] =>
      let E := fresh "E" in
      pose proof (skip_ws_length x) as E;
      destruct (skip_ws x); cbn [length] in E
  | context [match parse_string_body ?x with _ => _ end] =>
      let E := fresh "E" in
      destruct (parse_string_body x) as [[? ?]|] eqn:E;
      [apply parse_string_body_length in E|]
  | context [match parse_number ?x with _ => _ end] =>
      destruct (parse_number x) as [[? ?]|]
  | context [match parse_value f ?x with _ => _ end] =>
      out_of_fuel IHv (parse_value f x) (proj1 (parse_length f))
  | context [match parse_elements f ?x with _ => _ end] =>
      out_of_fuel IHe (parse_elements f x) (proj1 (proj2 (parse_length f)))
  | context [match parse_members f ?x with _ => _ end] =>
      out_of_fuel IHm (parse_members f x) (proj2 (proj2 (parse_length f)))
  | context [if ?b then _ else _] => destruct b
  end.

Ltac fuel_walk H IHv IHe IHm f :=
  first [ discriminate H
        | unfold expect in H; fuel_case H IHv IHe IHm f;
          fuel_walk H IHv IHe IHm f ].

Lemma parse_fuel fuel :
  (forall s, 2 * length s < fuel -> parse_value fuel s <> PFuel)
  /\ (forall s, 2 * length s + 1 < fuel -> parse_elements fuel s <> PFuel)
  /\ (forall s, 2 * length s + 1 < fuel -> parse_members fuel s <> PFuel).
Proof.
  induction fuel as [|f (IHv & IHe & IHm)].
  { repeat split; intros; lia. }
  repeat split.
  - intros s L H. cbn [parse_value] in H.
    destruct s as [|c r]; [discriminate H|]. cbn [length] in L.
    fuel_walk H IHv IHe IHm f.
  - intros s L H. cbn [parse_elements] in H. fuel_walk H IHv IHe IHm f.
  - intros s L H. cbn [parse_members] in H.
    destruct s as [|q r]; [discriminate H|]. cbn [length] in L.
    fuel_walk H IHv IHe IHm f.
Qed.

(** More fuel does not change a result. *)
Ltac grow N IH call x :=
  let E := fresh "E" in
  destruct call eqn:E;
  [ rewrite (IH x) by (rewrite E; discriminate); rewrite E
  | rewrite (IH x) by (rewrite E; discriminate); rewrite E
  | exfalso; apply N; reflexivity ].

Ltac more_case N IHv IHe IHm f :=
  match type of N with
  | context [match parse_value f ?x with _ => _ end] =>
      grow N IHv (parse_value f x) x
  | context [match parse_elements f ?x with _ => _ end] =>
      grow N IHe (parse_elements f x) x
  | context [match parse_members f ?x with _ => _ end] =>
      grow N IHm (parse_members f x) x
  | context [match ?t with _ => _ end] => destruct t
  end.

Ltac more_walk N IHv IHe IHm f :=
  first [ reflexivity
        | exfalso; apply N; reflexivity
        | more_case N IHv IHe IHm f; more_walk N IHv IHe IHm f ].

Section Step.
Variables f g : nat.
Hypothesis IHv :
  forall s, parse_value f s <> PFuel -> parse_value g s = parse_value f s.
Hypothesis IHe :
  forall s, parse_elements f s <> PFuel ->
            parse_elements g s = parse_elements f s.
Hypothesis IHm :
  forall s, parse_members f s <> PFuel ->
            parse_members g s = parse_members f s.

Lemma parse_value_step s :
  parse_value (S f) s <> PFuel -> parse_value (S g) s = parse_value (S f) s.
Proof.
  intros N. cbn [parse_value] in N |- *. unfold expect in *.
  more_walk N IHv IHe IHm f.
Qed.

Lemma parse_elements_step s :
  parse_elements (S f) s <> PFuel ->
  parse_elements (S g) s = parse_elements (S f) s.
Proof.
  intros N. cbn [parse_elements] in N |- *. more_walk N IHv IHe IHm f.
Qed.

Lemma parse_members_step s :
  parse_members (S f) s <> PFuel ->
  parse_members (S g) s = parse_members (S f) s.
Proof.
  intros N. cbn [parse_members] in N |- *. more_walk N IHv IHe IHm f.
Qed.

End Step.

Lemma parse_more_fuel fuel :
  (forall s, parse_value fuel s <> PFuel ->
             parse_value (S fuel) s = parse_value fuel s)
  /\ (forall s, parse_elements fuel s <> PFuel ->
                parse_elements (S fuel) s = parse_elements fuel s)
  /\ (forall s, parse_members fuel s <> PFuel ->
                parse_members (S fuel) s = parse_members fuel s).
Proof.
  induction fuel as [|f (IHv & IHe & IHm)].
  { repeat split; intros s N; exfalso; apply N; reflexivity. }
  repeat split; intros s N.
  - apply parse_value_step; assumption.
  - apply parse_elements_step; assumption.
  - apply parse_members_step; assumption.
Qed.

Lemma parse_value_fuel (fuel : nat) (s : jstring) :
  2 * length s < fuel ->
  parse_value fuel s = parse_value (2 * length s + 1) s.
Proof.
  intros L. replace fuel with ((fuel - (2 * length s + 1)) + (2 * length s + 1))
    by lia.
  induction (fuel - (2 * length s + 1)) as [|k IH]; [reflexivity|].
  cbn [Nat.add]. rewrite <- IH.
  apply parse_more_fuel. rewrite IH. apply parse_fuel. lia.
Qed.

Theorem parse_text_decides (text : jstring) : parse_text text <> PFuel.
Proof.
  unfold parse_text.
  pose proof (skip_ws_length text) as L.
  destruct (parse_value (2 * length text + 1) (skip_ws text)) eqn:E.
  - destruct (skip_ws rest); discriminate.
  - discriminate.
  - exfalso. revert E. apply parse_fuel. lia.
Qed.

(** So [JSON.parse] throws on a text only for a syntax error. *)
Corollary JSON_parse_throws (E : Engine) (text m : jstring) :
  JSON_parse E text = Throw m ->
  parse_text text = PErr /\ m = json_error_message E text.
Proof.
  unfold JSON_parse. pose proof (parse_text_decides text) as D.
  destruct (parse_text text); intros H; inversion H; subst.
  - split; reflexivity.
  - exfalso. apply D. reflexivity.
Qed.

End ParserTermination.

(* ===================================================================== *)
(** * JSON texts: printing and reading back                               *)
(* ===================================================================== *)

Module RoundTrip.
Import JS Spec ObjectFacts.

(** Character constants as numbers, for [lia]. *)
Ltac norm_chr :=
  repeat match goal with
         | |- context [chr ?a] =>
             let v := eval vm_compute in (chr a) in change (chr a) with v
         | H : context [chr ?a] |- _ =>
             let v := eval vm_compute in (chr a) in change (chr a) with v in H
         end;
  unfold DQUOTE, BACKSLASH, LF in *.

Ltac bool_lia :=
  repeat (progress
            (rewrite ?andb_true_iff, ?orb_true_iff, ?andb_false_iff,
               ?orb_false_iff, ?negb_true_iff, ?negb_false_iff,
               ?N.eqb_eq, ?N.eqb_neq, ?N.leb_le, ?N.leb_gt, ?N.ltb_lt,
               ?N.ltb_ge in *));
  lia.

(** A property checked on every number below a bound holds below it. *)
Lemma below_forall (P : N -> bool) (n : nat) :
  forallb P (map N.of_nat (seq 0 n)) = true ->
  forall c, (c < N.of_nat n)%N -> P c = true.
Proof.
  intros H c Hc. rewrite forallb_forall in H. apply H.
  apply in_map_iff. exists (N.to_nat c). split; [apply N2Nat.id|].
  apply in_seq. lia.
Qed.

(** ** Strings *)

Definition after (c : codeunit) (r : option (jstring * jstring))
  : option (jstring * jstring) :=
  match r with
  | Some (body, rest) => Some (c :: body, rest)
  | None => None
  end.

Lemma string_body_literal c r :
  (c =? DQUOTE)%N = false -> (c =? BACKSLASH)%N = false ->
  (c <? 32)%N = false ->
  parse_string_body (c :: r) = after c (parse_string_body r).
Proof. intros H1 H2 H3. cbn [parse_string_body]. rewrite H1, H2, H3. reflexivity. Qed.

Lemma string_body_short c e r :
  short_escape c = Some e ->
  parse_string_body (BACKSLASH :: e :: r) = after c (parse_string_body r).
Proof.
  unfold short_escape. intros H.
  repeat match type of H with
         | (if ?b then _ else _) = _ => destruct b eqn:?
         end; inversion H; subst; clear H;
    match goal with
    | Hc : (c =? _)%N = true |- _ => apply N.eqb_eq in Hc; subst c
    end; reflexivity.
Qed.

Lemma hexval_hexdigit d : (d < 16)%N -> hexval (hexdigit d) = Some d.
Proof.
  intros H.
  assert (A : forall c, (c < N.of_nat 16)%N ->
                (match hexval (hexdigit c) with
                 | Some u => (u =? c)%N
                 | None => false
                 end) = true).
  { apply below_forall. vm_compute. reflexivity. }
  specialize (A d H). destruct (hexval (hexdigit d)) as [u|]; [|discriminate A].
  apply N.eqb_eq in A. subst u. reflexivity.
Qed.

Lemma hex_digits c :
  (c < 65536)%N ->
  (4096 * ((c / 4096) mod 16) + 256 * ((c / 256) mod 16)
   + 16 * ((c / 16) mod 16) + c mod 16 = c)%N.
Proof.
  intros H.
  assert (H1 := N.div_mod c 16 ltac:(discriminate)).
  assert (H2 := N.div_mod (c / 16) 16 ltac:(discriminate)).
  assert (H3 := N.div_mod (c / 256) 16 ltac:(discriminate)).
  assert (E2 : (c / 16 / 16 = c / 256)%N)
    by (rewrite N.Div0.div_div; reflexivity).
  assert (E3 : (c / 256 / 16 = c / 4096)%N)
    by (rewrite N.Div0.div_div; reflexivity).
  assert (H4 : (c / 4096 < 16)%N) by (apply N.Div0.div_lt_upper_bound; lia).
  rewrite (N.mod_small (c / 4096) 16 H4). rewrite E2 in H2. rewrite E3 in H3.
  lia.
Qed.

Lemma string_body_unicode c r :
  (c < 65536)%N ->
  parse_string_body (unicode_escape c ++ r) = after c (parse_string_body r).
Proof.
  intros H. unfold unicode_escape.
  cbn [app parse_string_body].
  change (BACKSLASH =? DQUOTE)%N with false.
  change (BACKSLASH =? BACKSLASH)%N with true.
  change (chr "u" =? chr "u")%N with true. cbv iota.
  unfold hex4.
  rewrite !hexval_hexdigit by (apply N.mod_lt; discriminate).
  rewrite (hex_digits c H). reflexivity.
Qed.

Lemma short_escape_none c :
  short_escape c = None ->
  (c =? DQUOTE)%N = false /\ (c =? BACKSLASH)%N = false.
Proof.
  unfold short_escape.
  destruct (c =? 8)%N, (c =? 9)%N, (c =? 10)%N, (c =? 12)%N, (c =? 13)%N,
    (c =? DQUOTE)%N, (c =? BACKSLASH)%N; intros H; try discriminate H; auto.
Qed.

(** Reading a quoted string gives the string back. *)
Lemma string_roundtrip_length n :
  forall s rest, length s <= n ->
    parse_string_body (quote_body s ++ DQUOTE :: rest) = Some (s, rest).
Proof.
  induction n as [|n IH]; intros s rest Hn.
  - destruct s; [reflexivity|cbn in Hn; lia].
  - destruct s as [|c r]; [reflexivity|]. cbn [length] in Hn.
    cbn [quote_body].
    destruct (short_escape c) as [e|] eqn:He.
    + cbn [app]. rewrite (string_body_short c e _ He).
      rewrite IH by lia. reflexivity.
    + destruct (short_escape_none c He) as [Hq Hb].
      destruct (c <? 32)%N eqn:Hlow.
      * rewrite <- app_assoc, string_body_unicode by (apply N.ltb_lt in Hlow; lia).
        rewrite IH by lia. reflexivity.
      * destruct (is_high_surrogate c) eqn:Hhigh.
        { destruct r as [|d r'].
          - rewrite string_body_unicode
              by (unfold is_high_surrogate in Hhigh; bool_lia).
            reflexivity.
          - destruct (is_low_surrogate d) eqn:Hd.
            + cbn [app]. rewrite string_body_literal by assumption.
              rewrite string_body_literal
                by (unfold is_low_surrogate, DQUOTE, BACKSLASH in *; bool_lia).
              cbn [length] in Hn. rewrite IH by lia. reflexivity.
            + rewrite <- app_assoc, string_body_unicode
                by (unfold is_high_surrogate in Hhigh; bool_lia).
              rewrite IH by (cbn [length] in *; lia). reflexivity. }
        destruct (is_low_surrogate c) eqn:Hlo.
        { rewrite <- app_assoc, string_body_unicode
            by (unfold is_low_surrogate in Hlo; bool_lia).
          rewrite IH by lia. reflexivity. }
        cbn [app]. rewrite string_body_literal by assumption.
        rewrite IH by lia. reflexivity.
Qed.

Lemma string_roundtrip s rest :
  parse_string_body (quote_body s ++ DQUOTE :: rest) = Some (s, rest).
Proof. apply (string_roundtrip_length (length s)). lia. Qed.

(** ** Numbers *)

(** The characters a numeric literal is made of. *)
Definition number_char (c : codeunit) : bool :=
  is_digit c || (c =? chr ".")%N || (c =? chr "e")%N || (c =? chr "E")%N
  || (c =? chr "+")%N || (c =? chr "-")%N.

(** What may follow a numeric literal without being taken for a part of
    it. *)
Definition stops (rest : jstring) : Prop :=
  match rest with
  | [] => True
  | c :: _ => number_char c = false
  end.

Lemma stops_digit c r : stops (c :: r) -> is_digit c = false.
Proof. unfold stops, number_char. intros H. repeat (apply orb_false_elim in H; destruct H as [H ?]). exact H. Qed.

Lemma stops_char c r a :
  stops (c :: r) -> number_char a = true -> (c =? a)%N = false.
Proof.
  intros H Ha. apply N.eqb_neq. intros ->. cbn in H. congruence.
Qed.

Lemma take_digits_app t rest :
  stops rest ->
  forall ds r, take_digits t = (ds, r) -> take_digits (t ++ rest) = (ds, r ++ rest).
Proof.
  intros Hs. induction t as [|c t IH]; intros ds r H.
  - inversion H; subst. destruct rest as [|c r]; [reflexivity|].
    cbn [app take_digits]. rewrite (stops_digit c r Hs). reflexivity.
  - cbn [app take_digits] in *. destruct (is_digit c).
    + destruct (take_digits t) as [ds' r'] eqn:Ht. inversion H; subst.
      rewrite (IH ds' r eq_refl). reflexivity.
    + inversion H; subst. reflexivity.
Qed.

Lemma lex_sign_app t rest :
  stops rest ->
  forall neg r, lex_sign t = (neg, r) -> lex_sign (t ++ rest) = (neg, r ++ rest).
Proof.
  intros Hs neg r H. destruct t as [|c t].
  - inversion H; subst. destruct rest as [|c r]; [reflexivity|].
    cbn [app lex_sign]. rewrite (stops_char c r (chr "-") Hs eq_refl). reflexivity.
  - cbn [app lex_sign] in *. destruct (c =? chr "-")%N; inversion H; reflexivity.
Qed.

Lemma lex_int_app t rest :
  stops rest ->
  forall ds r, lex_int t = Some (ds, r) -> lex_int (t ++ rest) = Some (ds, r ++ rest).
Proof.
  intros Hs ds r H. destruct t as [|c t]; [discriminate H|].
  cbn [app lex_int] in *. destruct (c =? chr "0")%N.
  - inversion H; reflexivity.
  - destruct (is_digit c); [|discriminate H].
    inversion H as [H1]. change (c :: t ++ rest) with ((c :: t) ++ rest).
    rewrite (take_digits_app (c :: t) rest Hs ds r H1). reflexivity.
Qed.

Lemma lex_frac_app t rest :
  stops rest ->
  forall ds r, lex_frac t = Some (ds, r) -> lex_frac (t ++ rest) = Some (ds, r ++ rest).
Proof.
  intros Hs ds r H. destruct t as [|c t].
  - inversion H; subst. destruct rest as [|c r]; [reflexivity|].
    cbn [app lex_frac]. rewrite (stops_char c r (chr ".") Hs eq_refl). reflexivity.
  - cbn [app lex_frac] in *. destruct (c =? chr ".")%N.
    + destruct (take_digits t) as [ds' r'] eqn:Ht.
      rewrite (take_digits_app t rest Hs ds' r' Ht).
      destruct ds'; [discriminate H|]. inversion H; reflexivity.
    + inversion H; reflexivity.
Qed.

Lemma lex_exp_app t rest :
  stops rest ->
  forall ex r, lex_exp t = Some (ex, r) -> lex_exp (t ++ rest) = Some (ex, r ++ rest).
Proof.
  intros Hs ex r H. destruct t as [|c t].
  - inversion H; subst. destruct rest as [|c r]; [reflexivity|].
    cbn [app lex_exp].
    rewrite (stops_char c r (chr "e") Hs eq_refl),
      (stops_char c r (chr "E") Hs eq_refl). reflexivity.
  - cbn [app lex_exp] in *.
    destruct ((c =? chr "e") || (c =? chr "E"))%N; [|inversion H; reflexivity].
    destruct (lex_exp_sign t) as [eneg r1] eqn:Hsg.
    destruct (take_digits r1) as [ds r2] eqn:Ht.
    destruct ds as [|d ds]; [discriminate H|].
    assert (Hsg' : lex_exp_sign (t ++ rest) = (eneg, r1 ++ rest)).
    { destruct t as [|g t'].
      - inversion Hsg; subst. discriminate Ht.
      - cbn [app lex_exp_sign] in *.
        destruct (g =? chr "-")%N; [inversion Hsg; reflexivity|].
        destruct (g =? chr "+")%N; inversion Hsg; reflexivity. }
    rewrite Hsg', (take_digits_app r1 rest Hs _ _ Ht).
    inversion H; reflexivity.
Qed.

(** A literal is read the same when followed by something that cannot
    continue it. *)
Lemma parse_number_app t rest x :
  stops rest ->
  parse_number t = Some (x, []) -> parse_number (t ++ rest) = Some (x, rest).
Proof.
  intros Hs. unfold parse_number.
  destruct (lex_sign t) as [neg s1] eqn:H1.
  destruct (lex_int s1) as [[int s2]|] eqn:H2; [|discriminate].
  destruct (lex_frac s2) as [[frac s3]|] eqn:H3; [|discriminate].
  destruct (lex_exp s3) as [[ex s4]|] eqn:H4; [|discriminate].
  intros H. inversion H; subst.
  rewrite (lex_sign_app _ _ Hs _ _ H1), (lex_int_app _ _ Hs _ _ H2),
    (lex_frac_app _ _ Hs _ _ H3), (lex_exp_app _ _ Hs _ _ H4).
  reflexivity.
Qed.

Lemma parse_number_first t x r :
  parse_number t = Some (x, r) ->
  exists c t', t = c :: t' /\ ((c =? chr "-")%N = true \/ is_digit c = true).
Proof.
  unfold parse_number. destruct t as [|c t]; [discriminate|].
  intros H. exists c, t. split; [reflexivity|].
  cbn [lex_sign] in H. destruct (c =? chr "-")%N eqn:Hm; [left; reflexivity|].
  right. cbn [lex_int] in H. destruct (c =? chr "0")%N eqn:H0.
  - apply N.eqb_eq in H0. subst c. reflexivity.
  - destruct (is_digit c); [reflexivity|discriminate H].
Qed.

Lemma number_ok_parse x :
  number_ok x = true ->
  is_finite x = true /\ parse_number (NumberToString x) = Some (x, []).
Proof.
  unfold number_ok. intros H. apply andb_prop in H. destruct H as [Hf H].
  split; [exact Hf|].
  destruct (parse_number (NumberToString x)) as [[y [|c r]]|]; try discriminate H.
  apply ModelInvoker.number_eqb_eq in H. subst y. reflexivity.
Qed.

(** ** Values *)

Section ValueInduction.
Variable P : JValue -> Prop.
Hypothesis HUndefined : P JUndefined.
Hypothesis HNull : P JNull.
Hypothesis HBool : forall b, P (JBool b).
Hypothesis HNumber : forall x, P (JNumber x).
Hypothesis HString : forall s, P (JString s).
Hypothesis HArray : forall items, Forall P items -> P (JArray items).
Hypothesis HObject :
  forall props, Forall (fun kv => P (snd kv)) props -> P (JObject props).

Fixpoint JValue_induction (v : JValue) : P v :=
  match v with
  | JUndefined => HUndefined
  | JNull => HNull
  | JBool b => HBool b
  | JNumber x => HNumber x
  | JString s => HString s
  | JArray items =>
      HArray items
        ((fix go (l : list JValue) : Forall P l :=
            match l with
            | [] => Forall_nil _
            | x :: r => Forall_cons x (JValue_induction x) (go r)
            end) items)
  | JObject props =>
      HObject props
        ((fix go (l : Props) : Forall (fun kv => P (snd kv)) l :=
            match l with
            | [] => Forall_nil _
            | x :: r => Forall_cons x (JValue_induction (snd x)) (go r)
            end) props)
  end.
End ValueInduction.

(** The first character of the text of a value. *)
Definition value_start (c : codeunit) : bool :=
  (c =? chr "{")%N || (c =? chr "[")%N || (c =? DQUOTE)%N || (c =? chr "t")%N
  || (c =? chr "f")%N || (c =? chr "n")%N || (c =? chr "-")%N || is_digit c.

Lemma skip_ws_start c r : value_start c = true -> skip_ws (c :: r) = c :: r.
Proof.
  intros H. cbn [skip_ws].
  assert (Hw : is_json_ws c = false).
  { unfold value_start, is_json_ws, is_digit in *. norm_chr. bool_lia. }
  rewrite Hw. reflexivity.
Qed.

Lemma skip_ws_punct c r :
  (c = chr "," \/ c = chr "]" \/ c = chr "}" \/ c = chr ":") ->
  skip_ws (c :: r) = c :: r.
Proof. intros [->|[->|[->| ->]]]; reflexivity. Qed.

Lemma distinct_NoDup l : distinct l = true -> NoDup l.
Proof.
  induction l as [|x r IH]; cbn [distinct]; intros H; [constructor|].
  apply andb_prop in H. destruct H as [Hx Hr]. constructor; [|apply IH, Hr].
  intros Hin. apply negb_true_iff in Hx.
  assert (existsb (jstring_eqb x) r = true)
    by (apply existsb_exists; exists x; split; [exact Hin|apply jstring_eqb_refl]).
  congruence.
Qed.

(** The text of a well-formed value. *)
Lemma serialize_wellformed v :
  wellformed v = true -> serialize v = Some (stringify v).
Proof.
  unfold stringify. destruct v; cbn [wellformed serialize]; intros H;
    try discriminate H; try reflexivity.
  destruct b; reflexivity.
Qed.

Lemma stringify_array items :
  forallb wellformed items = true ->
  stringify (JArray items)
  = chr "[" :: join [chr ","] (map stringify items) ++ [chr "]"].
Proof.
  intros H. unfold stringify at 1. cbn [serialize]. f_equal. f_equal. f_equal.
  apply map_ext_in. intros v Hv. rewrite forallb_forall in H.
  rewrite (serialize_wellformed v (H v Hv)). reflexivity.
Qed.

Definition member_text (kv : jstring * JValue) : jstring :=
  quote (fst kv) ++ chr ":" :: stringify (snd kv).

Lemma stringify_object props :
  forallb (fun kv => wellformed (snd kv)) props = true ->
  stringify (JObject props)
  = chr "{" :: join [chr ","] (map member_text props) ++ [chr "}"].
Proof.
  intros H. unfold stringify at 1. cbn [serialize]. f_equal. f_equal. f_equal.
  induction props as [|kv r IH]; [reflexivity|].
  cbn [forallb] in H. apply andb_prop in H. destruct H as [Hk Hr].
  cbn [flat_map map]. rewrite (serialize_wellformed _ Hk). cbn [app].
  rewrite IH by exact Hr. reflexivity.
Qed.

Lemma stringify_start v :
  wellformed v = true ->
  exists c t, stringify v = c :: t /\ value_start c = true.
Proof.
  destruct v; intros H; try discriminate H.
  - exists (chr "n"). eexists. split; reflexivity.
  - destruct b; [exists (chr "t")|exists (chr "f")]; eexists; split; reflexivity.
  - cbn [wellformed] in H. destruct (number_ok_parse x H) as [Hf Hp].
    destruct (parse_number_first _ _ _ Hp) as (c & t & Ht & Hc).
    exists c, t. unfold stringify. cbn [serialize]. rewrite Hf. split; [exact Ht|].
    unfold value_start. destruct Hc as [Hc|Hc]; rewrite Hc;
      rewrite ?orb_true_r; reflexivity.
  - exists DQUOTE. eexists. split; reflexivity.
  - exists (chr "["). eexists. unfold stringify. cbn [serialize]. split; reflexivity.
  - exists (chr "{"). eexists. unfold stringify. cbn [serialize]. split; reflexivity.
Qed.

(** One step of each of the three functions of the parser. *)
Lemma parse_value_object f r :
  parse_value (S f) (chr "{" :: r)
  = match skip_ws r with
    | d :: r' =>
        if (d =? chr "}")%N then POk (JObject []) r'
        else
          match parse_members f (d :: r') with
          | POk ps rest =>
              POk (JObject (fold_left (fun o kv => define (fst kv) (snd kv) o)
                                      ps [])) rest
          | PErr => PErr
          | PFuel => PFuel
          end
    | [] => PErr
    end.
Proof. reflexivity. Qed.

Lemma parse_value_array f r :
  parse_value (S f) (chr "[" :: r)
  = match skip_ws r with
    | d :: r' =>
        if (d =? chr "]")%N then POk (JArray []) r'
        else
          match parse_elements f (d :: r') with
          | POk vs rest => POk (JArray vs) rest
          | PErr => PErr
          | PFuel => PFuel
          end
    | [] => PErr
    end.
Proof. reflexivity. Qed.

Lemma parse_value_string f r :
  parse_value (S f) (DQUOTE :: r)
  = match parse_string_body r with
    | Some (body, rest) => POk (JString body) rest
    | None => PErr
    end.
Proof. reflexivity. Qed.

Lemma parse_value_number f c r :
  (c =? chr "-")%N = true \/ is_digit c = true ->
  parse_value (S f) (c :: r)
  = match parse_number (c :: r) with
    | Some (x, rest) => POk (JNumber x) rest
    | None => PErr
    end.
Proof.
  intros H. cbn [parse_value].
  assert (E : (c =? chr "{")%N = false /\ (c =? chr "[")%N = false
              /\ (c =? DQUOTE)%N = false /\ (c =? chr "t")%N = false
              /\ (c =? chr "f")%N = false /\ (c =? chr "n")%N = false).
  { unfold is_digit in H. norm_chr. bool_lia. }
  destruct E as (E1 & E2 & E3 & E4 & E5 & E6).
  rewrite E1, E2, E3, E4, E5, E6. reflexivity.
Qed.

Lemma parse_elements_S f s :
  parse_elements (S f) s
  = match parse_value f s with
    | POk v rest =>
        match skip_ws rest with
        | d :: r =>
            if (d =? chr ",")%N then
              match parse_elements f (skip_ws r) with
              | POk vs rest' => POk (v :: vs) rest'
              | PErr => PErr
              | PFuel => PFuel
              end
            else if (d =? chr "]")%N then POk [v] r
            else PErr
        | [] => PErr
        end
    | PErr => PErr
    | PFuel => PFuel
    end.
Proof. reflexivity. Qed.

Lemma parse_members_S f r :
  parse_members (S f) (DQUOTE :: r)
  = match parse_string_body r with
    | Some (k, rest) =>
        match skip_ws rest with
        | d :: r2 =>
            if (d =? chr ":")%N then
              match parse_value f (skip_ws r2) with
              | POk v rest2 =>
                  match skip_ws rest2 with
                  | g :: r3 =>
                      if (g =? chr ",")%N then
                        match parse_members f (skip_ws r3) with
                        | POk ps rest3 => POk ((k, v) :: ps) rest3
                        | PErr => PErr
                        | PFuel => PFuel
                        end
                      else if (g =? chr "}")%N then POk [(k, v)] r3
                      else PErr
                  | [] => PErr
                  end
              | PErr => PErr
              | PFuel => PFuel
              end
            else PErr
        | [] => PErr
        end
    | None => PErr
    end.
Proof. reflexivity. Qed.

(** With fuel above twice the length of its text, a value is read back
    from its text, whatever follows that cannot continue a number. *)
Definition reads_back (v : JValue) : Prop :=
  forall fuel rest,
    2 * length (stringify v) < fuel -> stops rest ->
    parse_value fuel (stringify v ++ rest) = POk v rest.

Lemma join_cons (sep x y : jstring) (r : list jstring) :
  join sep (x :: y :: r) = x ++ sep ++ join sep (y :: r).
Proof. reflexivity. Qed.

Lemma join_start items :
  items <> [] -> forallb wellformed items = true ->
  exists c t, join [chr ","] (map stringify items) = c :: t
              /\ value_start c = true.
Proof.
  destruct items as [|x r]; [congruence|]. intros _ H.
  cbn [forallb] in H. apply andb_prop in H. destruct H as [Hx _].
  destruct (stringify_start x Hx) as (c & t & Ht & Hc).
  exists c. destruct r as [|y r].
  - exists t. split; [exact Ht|exact Hc].
  - cbn [map]. rewrite join_cons, Ht. eexists. split; [reflexivity|exact Hc].
Qed.

Lemma elements_roundtrip items :
  Forall reads_back items ->
  items <> [] -> forallb wellformed items = true ->
  forall fuel rest,
    2 * length (join [chr ","] (map stringify items)) + 1 < fuel ->
    parse_elements fuel
      (join [chr ","] (map stringify items) ++ chr "]" :: rest)
    = POk items rest.
Proof.
  induction 1 as [|x r Hx Hr IH]; intros Hne Hwf fuel rest Hfuel;
    [congruence|].
  cbn [forallb] in Hwf. apply andb_prop in Hwf. destruct Hwf as [Hwx Hwr].
  destruct fuel as [|f]; [lia|]. rewrite parse_elements_S.
  destruct r as [|y r'].
  - cbn [map join] in *.
    rewrite (Hx f (chr "]" :: rest)) by (try reflexivity; lia).
    reflexivity.
  - cbn [map] in *. rewrite join_cons in *. rewrite <- !app_assoc.
    rewrite !length_app in Hfuel. cbn [length] in Hfuel.
    rewrite (Hx f) by (try reflexivity; lia).
    cbn [app skip_ws]. change (is_json_ws (chr ",")) with false. cbv iota.
    change (chr "," =? chr ",")%N with true. cbv iota.
    destruct (join_start (y :: r') ltac:(discriminate) Hwr) as (c & t & Ht & Hc).
    cbn [map] in Ht. rewrite Ht. cbn [app]. rewrite (skip_ws_start c _ Hc).
    change (c :: t ++ chr "]" :: rest) with ((c :: t) ++ chr "]" :: rest).
    rewrite <- Ht. rewrite IH by (try discriminate; try assumption; lia).
    reflexivity.
Qed.

Lemma members_start (props : Props) :
  props <> [] ->
  exists t, join [chr ","] (map member_text props) = DQUOTE :: t.
Proof.
  destruct props as [|kv r]; [congruence|]. intros _.
  destruct r as [|kv' r]; cbn [map]; [|rewrite join_cons];
    unfold member_text at 1, quote; cbn [app]; eexists; reflexivity.
Qed.

Lemma members_roundtrip (props : Props) :
  Forall (fun kv => reads_back (snd kv)) props ->
  props <> [] -> forallb (fun kv => wellformed (snd kv)) props = true ->
  forall fuel rest,
    2 * length (join [chr ","] (map member_text props)) + 1 < fuel ->
    parse_members fuel
      (join [chr ","] (map member_text props) ++ chr "}" :: rest)
    = POk props rest.
Proof.
  induction 1 as [|[k v] r Hx Hr IH]; intros Hne Hwf fuel rest Hfuel;
    [congruence|].
  cbn [forallb snd] in Hwf. apply andb_prop in Hwf. destruct Hwf as [Hwx Hwr].
  cbn [snd] in Hx.
  destruct fuel as [|f]; [lia|].
  destruct (stringify_start v Hwx) as (c & t & Ht & Hc).
  assert (Hmember : forall tail,
            parse_members (S f)
              (member_text (k, v) ++ tail)
            = match parse_value f (stringify v ++ tail) with
              | POk v' rest2 =>
                  match skip_ws rest2 with
                  | g :: r3 =>
                      if (g =? chr ",")%N then
                        match parse_members f (skip_ws r3) with
                        | POk ps rest3 => POk ((k, v') :: ps) rest3
                        | PErr => PErr
                        | PFuel => PFuel
                        end
                      else if (g =? chr "}")%N then POk [(k, v')] r3
                      else PErr
                  | [] => PErr
                  end
              | PErr => PErr
              | PFuel => PFuel
              end).
  { intros tail. unfold member_text, quote. cbn [fst snd app].
    rewrite parse_members_S. rewrite <- !app_assoc. cbn [app].
    rewrite string_roundtrip. cbn [skip_ws].
    change (is_json_ws (chr ":")) with false. cbv iota.
    change (chr ":" =? chr ":")%N with true. cbv iota.
    rewrite Ht. cbn [app]. rewrite (skip_ws_start c _ Hc). reflexivity. }
  assert (Hlen : length (member_text (k, v)) = length (stringify v) + length (quote k) + 1).
  { unfold member_text. cbn [fst snd]. rewrite length_app. cbn [length]. lia. }
  destruct r as [|kv' r'].
  - cbn [map join] in *. rewrite Hmember.
    rewrite (Hx f (chr "}" :: rest)) by (try reflexivity; lia).
    reflexivity.
  - cbn [map] in *. rewrite join_cons in *. rewrite <- !app_assoc.
    rewrite !length_app in Hfuel. cbn [length] in Hfuel.
    rewrite Hmember.
    rewrite (Hx f) by (try reflexivity; lia).
    cbn [app skip_ws]. change (is_json_ws (chr ",")) with false. cbv iota.
    change (chr "," =? chr ",")%N with true. cbv iota.
    destruct (members_start (kv' :: r') ltac:(discriminate)) as (t' & Ht').
    cbn [map] in Ht'. rewrite Ht'. cbn [app skip_ws].
    change (is_json_ws DQUOTE) with false. cbv iota.
    change (DQUOTE :: t' ++ chr "}" :: rest)
      with ((DQUOTE :: t') ++ chr "}" :: rest).
    rewrite <- Ht'. rewrite IH by (try discriminate; try assumption; lia).
    reflexivity.
Qed.

(** Reading the text of a well-formed value gives the value back. *)
Theorem value_roundtrip v : wellformed v = true -> reads_back v.
Proof.
  induction v as [| |b|x|s|l H|ps H] using JValue_induction;
    intros Hwf fuel rest Hfuel Hstop;
    try discriminate Hwf;
    (destruct fuel as [|f]; [lia|]).
  - reflexivity.
  - destruct b; reflexivity.
  - cbn [wellformed] in Hwf. destruct (number_ok_parse x Hwf) as [Hfin Hp].
    unfold stringify. cbn [serialize]. rewrite Hfin.
    destruct (parse_number_first _ _ _ Hp) as (c & t & Ht & Hc).
    rewrite Ht. cbn [app]. rewrite (parse_value_number f c _ Hc).
    change (c :: t ++ rest) with ((c :: t) ++ rest). rewrite <- Ht.
    rewrite (parse_number_app _ rest x Hstop Hp). reflexivity.
  - unfold stringify. cbn [serialize]. unfold quote. cbn [app].
    rewrite parse_value_string, <- app_assoc. cbn [app].
    rewrite string_roundtrip. reflexivity.
  - cbn [wellformed] in Hwf. rewrite (stringify_array l Hwf) in Hfuel |- *.
    cbn [app]. rewrite parse_value_array, <- app_assoc. cbn [app].
    destruct l as [|x r].
    + reflexivity.
    + destruct (join_start (x :: r) ltac:(discriminate) Hwf) as (c & t & Ht & Hc).
      assert (Hf : forall y, In y (x :: r) -> reads_back y).
      { intros y Hy. rewrite Forall_forall in H. rewrite forallb_forall in Hwf.
        apply H; [exact Hy|apply Hwf, Hy]. }
      rewrite Ht. cbn [app]. rewrite (skip_ws_start c _ Hc).
      assert (Hc' : (c =? chr "]")%N = false).
      { unfold value_start, is_digit in Hc. norm_chr. bool_lia. }
      rewrite Hc'. change (c :: t ++ chr "]" :: rest) with ((c :: t) ++ chr "]" :: rest).
      rewrite <- Ht.
      cbn [length] in Hfuel. rewrite length_app in Hfuel. cbn [length] in Hfuel.
      rewrite elements_roundtrip;
        [reflexivity|apply Forall_forall, Hf|discriminate|exact Hwf|lia].
  - cbn [wellformed] in Hwf. apply andb_prop in Hwf. destruct Hwf as [Hd Hwf].
    rewrite (stringify_object ps Hwf) in Hfuel |- *.
    cbn [app]. rewrite parse_value_object, <- app_assoc. cbn [app].
    destruct ps as [|kv r].
    + reflexivity.
    + destruct (members_start (kv :: r) ltac:(discriminate)) as (t & Ht).
      assert (Hf : forall kv', In kv' (kv :: r) -> reads_back (snd kv')).
      { intros y Hy. rewrite Forall_forall in H. rewrite forallb_forall in Hwf.
        apply H; [exact Hy|apply Hwf, Hy]. }
      rewrite Ht. cbn [app skip_ws]. change (is_json_ws DQUOTE) with false.
      cbv iota. change (DQUOTE =? chr "}")%N with false. cbv iota.
      change (DQUOTE :: t ++ chr "}" :: rest) with ((DQUOTE :: t) ++ chr "}" :: rest).
      rewrite <- Ht.
      cbn [length] in Hfuel. rewrite length_app in Hfuel. cbn [length] in Hfuel.
      rewrite members_roundtrip;
        [|apply Forall_forall, Hf|discriminate|exact Hwf|lia].
      rewrite (fold_define_fresh (kv :: r) []) by (apply distinct_NoDup, Hd).
      reflexivity.
Qed.

(** ** Texts in a code fence *)

Import Runtime GeminiClient Samples.

Lemma trimStart_first c s : is_space c = false -> trimStart (c :: s) = c :: s.
Proof. intros H. cbn [trimStart]. rewrite H. reflexivity. Qed.

Lemma trimEnd_last c s : is_space c = false -> trimEnd (s ++ [c]) = s ++ [c].
Proof.
  intros H. induction s as [|d s IH]; cbn [app trimEnd].
  - rewrite H. reflexivity.
  - rewrite IH. destruct (s ++ [c]) eqn:E; [|reflexivity].
    destruct s; discriminate E.
Qed.

Definition BACKTICK : codeunit := chr "`".
Definition RBRACE : codeunit := chr "}".
Definition LBRACE : codeunit := chr "{".

Lemma fence_backticks : fence = [BACKTICK; BACKTICK; BACKTICK].
Proof. reflexivity. Qed.

(** The closing fence is removed from behind a text that ends with a
    closing brace, and nothing else is. *)
Lemma strip_closing_fence_after_brace t :
  strip_closing_fence (t ++ RBRACE :: LF :: fence) = t ++ [RBRACE].
Proof.
  induction t as [|c t IH].
  - reflexivity.
  - cbn [app strip_closing_fence].
    assert (E : (c =? LF)%N
                && startsWith (t ++ RBRACE :: LF :: fence) fence
                && forallb is_space (skipn 3 (t ++ RBRACE :: LF :: fence))
                = false).
    { destruct t as [|a [|b [|d t']]]; cbn [app];
        try (rewrite andb_assoc_false; reflexivity).
      - rewrite fence_backticks. cbn [startsWith].
        change (BACKTICK =? RBRACE)%N with false.
        rewrite andb_false_r. reflexivity.
      - rewrite fence_backticks. cbn [startsWith].
        change (BACKTICK =? RBRACE)%N with false.
        rewrite !andb_false_r. reflexivity.
      - rewrite fence_backticks. cbn [startsWith].
        change (BACKTICK =? RBRACE)%N with false.
        rewrite !andb_false_r. reflexivity.
      - cbn [skipn]. rewrite forallb_app. cbn [forallb].
        change (is_space RBRACE) with false.
        rewrite andb_false_r, andb_false_r. reflexivity. }
    rewrite E, IH. reflexivity.
Qed.

Lemma lastIndexOf_last c s : lastIndexOf c (s ++ [c]) = Some (length s).
Proof.
  induction s as [|d s IH]; cbn [app lastIndexOf length].
  - rewrite N.eqb_refl. reflexivity.
  - rewrite IH. reflexivity.
Qed.

(** The span from the first opening brace to the last closing brace of a
    text that starts with the one and ends with the other is the text. *)
Lemma json_span_braces body :
  json_span (LBRACE :: body ++ [RBRACE]) = Some (LBRACE :: body ++ [RBRACE]).
Proof.
  unfold json_span. cbn [indexOf]. change (LBRACE =? chr "{")%N with true.
  cbv iota. cbn [skipn].
  change (LBRACE :: body ++ [RBRACE]) with ((LBRACE :: body) ++ [RBRACE]).
  rewrite lastIndexOf_last.
  rewrite firstn_all2 by (rewrite length_app; cbn [length]; lia).
  reflexivity.
Qed.

Lemma clean_fenced tag body :
  clean (fenced tag (LBRACE :: body ++ [RBRACE])) = LBRACE :: body ++ [RBRACE].
Proof.
  unfold clean.
  assert (T : trim (fenced tag (LBRACE :: body ++ [RBRACE]))
              = fenced tag (LBRACE :: body ++ [RBRACE])).
  { unfold trim, fenced. rewrite fence_backticks. cbn [app].
    rewrite (trimStart_first BACKTICK _ eq_refl).
    change (BACKTICK :: BACKTICK :: BACKTICK ::
            (if tag then str "json" else []) ++
            LF :: LBRACE :: (body ++ [RBRACE]) ++ [LF; BACKTICK; BACKTICK; BACKTICK])
      with ((BACKTICK :: BACKTICK :: BACKTICK ::
            (if tag then str "json" else [])) ++
           (LF :: LBRACE :: (body ++ [RBRACE])) ++ ([LF; BACKTICK; BACKTICK] ++ [BACKTICK])).
    rewrite !app_assoc. apply trimEnd_last. reflexivity. }
  rewrite T.
  assert (S1 : startsWith (fenced tag (LBRACE :: body ++ [RBRACE])) fence = true)
    by reflexivity.
  rewrite S1.
  assert (O : strip_opening_fence (fenced tag (LBRACE :: body ++ [RBRACE]))
              = LBRACE :: body ++ RBRACE :: LF :: fence).
  { unfold strip_opening_fence. rewrite S1. unfold fenced.
    rewrite fence_backticks. cbn [app skipn].
    destruct tag; cbn [app startsWith skipn after_space_newline];
      rewrite <- app_assoc; reflexivity. }
  rewrite O.
  change (LBRACE :: body ++ RBRACE :: LF :: fence)
    with ((LBRACE :: body) ++ RBRACE :: LF :: fence).
  rewrite strip_closing_fence_after_brace. cbn [app].
  rewrite json_span_braces. reflexivity.
Qed.

(** C8: for every well-formed object, the text [JSON.stringify] gives for
    it, wrapped in a code fence (with the json tag or without), is parsed
    by [parseJsonResponse] into the object itself; nothing is written to
    the console. *)
Theorem fenced_roundtrip (env : Env) (props : Props) (tag : bool) (w : World) :
  wellformed (JObject props) = true ->
  parseJsonResponse env (JString (fenced tag (stringify (JObject props)))) w
  = (Return (JObject props), w).
Proof.
  intros Hwf.
  pose proof (value_roundtrip (JObject props) Hwf) as R. unfold reads_back in R.
  cbn [wellformed] in Hwf. apply andb_prop in Hwf. destruct Hwf as [_ Hwf].
  rewrite (stringify_object props Hwf) in R |- *.
  unfold parseJsonResponse. cbv zeta. rewrite (clean_fenced tag).
  unfold JSON_parse, parse_text, LBRACE, RBRACE.
  change (skip_ws (chr "{" :: join [chr ","] (map member_text props) ++ [chr "}"]))
    with (chr "{" :: join [chr ","] (map member_text props) ++ [chr "}"]).
  specialize (R (2 * length (chr "{" :: join [chr ","] (map member_text props)
                             ++ [chr "}"]) + 1) [] ltac:(lia) I).
  rewrite app_nil_r in R. rewrite R. reflexivity.
Qed.

(** An object with a number, strings that need escapes, a nested array
    and a nested object. *)
Definition sample_object : Props :=
  [(str "overallScore", JNumber (Number_of_Z 70));
   (str "recommendation", JString (str "Watchlist"));
   (str "notes", JString (DQUOTE :: LF :: BACKSLASH :: 1%N :: 55357%N :: str "}{"));
   (str "ratios",
    JArray [JNumber (decimal_to_number false 45 (-1)); JNull; JBool true;
            JNumber (decimal_to_number true 1 21); JArray []]);
   (str "nested", JObject [(str "a", JObject []); (str "b", JString [])])].

Lemma fenced_roundtrip_witness :
  parseJsonResponse (sample_env false failing_model)
    (JString (fenced true (stringify (JObject sample_object)))) initial_world
  = (Return (JObject sample_object), initial_world).
Proof.
  apply fenced_roundtrip. vm_compute. reflexivity.
Defined.

End RoundTrip.

(* ===================================================================== *)
(** * The response parser: what the second attempt is worth               *)
(* ===================================================================== *)

Module ParserRecovery.
Import JS Runtime GeminiClient ParserTermination.

(** ** Where a parser stops *)

Definition suffix (rest s : jstring) : Prop := exists pre, s = pre ++ rest.

Lemma suffix_refl s : suffix s s.
Proof. exists []. reflexivity. Qed.

Lemma suffix_cons c rest s : suffix rest s -> suffix rest (c :: s).
Proof. intros [pre ->]. exists (c :: pre). reflexivity. Qed.

Lemma suffix_trans a b c : suffix a b -> suffix b c -> suffix a c.
Proof.
  intros [p ->] [q ->]. exists (q ++ p). rewrite app_assoc. reflexivity.
Qed.

Lemma suffix_tail c rest s : suffix (c :: rest) s -> suffix rest s.
Proof.
  intros [pre ->]. exists (pre ++ [c]). rewrite <- app_assoc. reflexivity.
Qed.

Lemma suffix_skipn n s : suffix (skipn n s) s.
Proof. exists (firstn n s). symmetry. apply firstn_skipn. Qed.

Lemma skip_ws_suffix s : suffix (skip_ws s) s.
Proof.
  induction s as [|c r IH]; [apply suffix_refl|]. cbn [skip_ws].
  destruct (is_json_ws c); [apply suffix_cons, IH|apply suffix_refl].
Qed.

(** A string literal ends with its closing quote. *)
Lemma string_body_closer s :
  forall body rest,
    parse_string_body s = Some (body, rest) -> suffix (DQUOTE :: rest) s.
Proof.
  assert (H : forall n s, length s <= n ->
            forall body rest,
              parse_string_body s = Some (body, rest) ->
              suffix (DQUOTE :: rest) s).
  { induction n as [|n IH]; intros [|c r] Hn body rest Hp;
      try discriminate Hp; cbn [length] in *; [lia|].
    cbn [parse_string_body] in Hp.
    destruct (c =? DQUOTE)%N eqn:Q.
    { apply N.eqb_eq in Q. inversion Hp; subst. apply suffix_refl. }
    apply suffix_cons.
    destruct (c =? BACKSLASH)%N.
    - destruct r as [|e r1]; [discriminate Hp|]. apply suffix_cons.
      destruct (e =? chr "u")%N.
      + destruct r1 as [|h1 [|h2 [|h3 [|h4 r2]]]]; try discriminate Hp.
        destruct (hex4 h1 h2 h3 h4); [|discriminate Hp].
        destruct (parse_string_body r2) as [[b t]|] eqn:E; [|discriminate Hp].
        inversion Hp; subst. do 4 apply suffix_cons.
        apply (IH r2 ltac:(cbn [length] in *; lia) _ _ E).
      + destruct (unescape e); [|discriminate Hp].
        destruct (parse_string_body r1) as [[b t]|] eqn:E; [|discriminate Hp].
        inversion Hp; subst.
        apply (IH r1 ltac:(cbn [length] in *; lia) _ _ E).
    - destruct (c <? 32)%N; [discriminate Hp|].
      destruct (parse_string_body r) as [[b t]|] eqn:E; [|discriminate Hp].
      inversion Hp; subst. apply (IH r ltac:(lia) _ _ E). }
  intros body rest. apply (H (length s)). lia.
Qed.

(** Digits taken from the front. *)
Lemma take_digits_split s :
  forall ds rest, take_digits s = (ds, rest) ->
                  s = ds ++ rest /\ forallb is_digit ds = true.
Proof.
  induction s as [|c r IH]; intros ds rest H; cbn [take_digits] in H.
  - inversion H; subst. split; reflexivity.
  - destruct (is_digit c) eqn:D.
    + destruct (take_digits r) as [ds' rest'] eqn:E. inversion H; subst.
      destruct (IH _ _ eq_refl) as [-> F]. split; [reflexivity|].
      cbn [forallb]. rewrite D, F. reflexivity.
    + inversion H; subst. split; reflexivity.
Qed.

(** The last of some digits, when there are any, is a digit before what
    follows them. *)
Lemma digits_closer ds rest s :
  ds <> [] -> forallb is_digit ds = true -> suffix (ds ++ rest) s ->
  exists d, is_digit d = true /\ suffix (d :: rest) s.
Proof.
  intros N F S. destruct (exists_last N) as (front & d & ->).
  rewrite forallb_app in F. apply andb_prop in F. destruct F as [_ F].
  cbn [forallb] in F. rewrite andb_true_r in F.
  exists d. split; [exact F|].
  rewrite <- app_assoc in S. cbn [app] in S.
  apply (suffix_trans _ (front ++ d :: rest)); [|exact S].
  exists front. reflexivity.
Qed.

(** A numeric literal ends with a digit. *)
Lemma number_closer s x rest :
  parse_number s = Some (x, rest) ->
  exists d, is_digit d = true /\ suffix (d :: rest) s.
Proof.
  unfold parse_number.
  destruct (lex_sign s) as [neg s1] eqn:E1.
  assert (L1 : suffix s1 s).
  { unfold lex_sign in E1. destruct s as [|c r]; [inversion E1; apply suffix_refl|].
    destruct (c =? chr "-")%N; inversion E1; subst;
      [apply suffix_cons|]; apply suffix_refl. }
  destruct (lex_int s1) as [[int s2]|] eqn:E2; [|discriminate].
  assert (L2 : exists d, is_digit d = true /\ suffix (d :: s2) s1).
  { unfold lex_int in E2. destruct s1 as [|c r]; [discriminate E2|].
    pose proof (take_digits_split (c :: r)) as T.
    destruct (take_digits (c :: r)) as [ds t] eqn:Et.
    destruct (c =? chr "0")%N eqn:Z.
    - apply N.eqb_eq in Z. inversion E2; subst. exists (chr "0").
      split; [reflexivity|apply suffix_refl].
    - destruct (is_digit c) eqn:D; [|discriminate E2].
      inversion E2; subst. destruct (T _ _ eq_refl) as [T1 T2].
      apply (digits_closer int s2); [|exact T2|rewrite <- T1; apply suffix_refl].
      cbn [take_digits] in Et. rewrite D in Et.
      destruct (take_digits r); inversion Et; discriminate. }
  destruct (lex_frac s2) as [[frac s3]|] eqn:E3; [|discriminate].
  assert (L3 : exists d, is_digit d = true /\ suffix (d :: s3) s1).
  { destruct L2 as (d & Hd & S2).
    unfold lex_frac in E3. destruct s2 as [|c r];
      [inversion E3; subst; exists d; split; assumption|].
    destruct (c =? chr ".")%N; [|inversion E3; subst; exists d; split; assumption].
    pose proof (take_digits_split r) as T.
    destruct (take_digits r) as [[|a ds] t]; [discriminate E3|].
    inversion E3; subst. destruct (T _ _ eq_refl) as [T1 T2].
    apply (digits_closer (a :: ds) s3); [discriminate|exact T2|].
    rewrite <- T1. apply (suffix_trans _ (d :: c :: r)); [|exact S2].
    do 2 apply suffix_cons. apply suffix_refl. }
  destruct (lex_exp s3) as [[ex s4]|] eqn:E4; [|discriminate].
  assert (L4 : exists d, is_digit d = true /\ suffix (d :: s4) s1).
  { destruct L3 as (d & Hd & S3).
    unfold lex_exp in E4. destruct s3 as [|c r];
      [inversion E4; subst; exists d; split; assumption|].
    destruct ((c =? chr "e") || (c =? chr "E"))%N;
      [|inversion E4; subst; exists d; split; assumption].
    destruct (lex_exp_sign r) as [eneg r1] eqn:E5.
    assert (L5 : suffix r1 r).
    { unfold lex_exp_sign in E5.
      destruct r as [|g r']; [inversion E5; apply suffix_refl|].
      destruct (g =? chr "-")%N;
        [inversion E5; subst; apply suffix_cons, suffix_refl|].
      destruct (g =? chr "+")%N; inversion E5; subst;
        [apply suffix_cons|]; apply suffix_refl. }
    pose proof (take_digits_split r1) as T.
    destruct (take_digits r1) as [[|a ds] t]; [discriminate E4|].
    inversion E4; subst. destruct (T _ _ eq_refl) as [T1 T2].
    apply (digits_closer (a :: ds) s4); [discriminate|exact T2|].
    rewrite <- T1. apply (suffix_trans _ (d :: c :: r)); [|exact S3].
    do 2 apply suffix_cons. exact L5. }
  intros H. inversion H; subst. destruct L4 as (d & Hd & S4).
  exists d. split; [exact Hd|]. apply (suffix_trans _ s1); assumption.
Qed.

Lemma expect_suffix lit v s w rest :
  expect lit v s = POk w rest -> suffix rest s.
Proof.
  unfold expect. destruct (startsWith s lit); [|discriminate].
  intros H. inversion H; subst. apply suffix_skipn.
Qed.

Ltac chain n :=
  lazymatch n with
  | O => fail
  | S ?k =>
      first [ apply suffix_refl
            | assumption
            | solve [apply suffix_cons; chain k]
            | match goal with
              | H : suffix ?m ?s |- suffix _ ?s =>
                  solve [apply (suffix_trans _ m s); [chain k | exact H]]
              end ]
  end.

Ltac stop_leaf H :=
  first [ discriminate H
        | inversion H; subst; chain 14
        | apply expect_suffix in H; chain 14 ].

Ltac sub_call IH call :=
  let E := fresh "E" in
  destruct call eqn:E;
  [ apply IH in E;
    try match type of E with
        | suffix _ (skip_ws ?x) => pose proof (skip_ws_suffix x)
        end
  | | ].

Ltac stop_case H IHv IHe IHm f :=
  match type of H with
  | context [if (?a =? ?b)%N then _ else _] =>
      let E := fresh "E" in
      destruct (a =? b)%N eqn:E; [apply N.eqb_eq in E|]
  | context [match skip_ws ?x with _ => _ end] =>
      let E := fresh "E" in
      pose proof (skip_ws_suffix x) as E; destruct (skip_ws x)
  | context [match parse_string_body ?x with _ => _ end] =>
      let E := fresh "E" in
      destruct (parse_string_body x) as [[? ?]|] eqn:E;
      [apply string_body_closer in E|]
  | context [match parse_number ?x with _ => _ end] =>
      let E := fresh "E" in
      destruct (parse_number x) as [[? ?]|] eqn:E;
      [apply number_closer in E; destruct E as (? & _ & E)|]
  | context [match parse_value f ?x with _ => _ end] =>
      sub_call IHv (parse_value f x)
  | context [match parse_elements f ?x with _ => _ end] =>
      sub_call IHe (parse_elements f x)
  | context [match parse_members f ?x with _ => _ end] =>
      sub_call IHm (parse_members f x)
  end; cbv beta match in H.

Ltac stop_walk H IHv IHe IHm f :=
  first [ stop_leaf H
        | stop_case H IHv IHe IHm f; stop_walk H IHv IHe IHm f ].

(** What a parser leaves is the end of what it was given; an array ends
    with its bracket and an object with its brace. *)
Lemma parse_stops fuel :
  (forall s v rest, parse_value fuel s = POk v rest -> suffix rest s)
  /\ (forall s vs rest,
        parse_elements fuel s = POk vs rest -> suffix (chr "]" :: rest) s)
  /\ (forall s ps rest,
        parse_members fuel s = POk ps rest -> suffix (chr "}" :: rest) s).
Proof.
  induction fuel as [|f (IHv & IHe & IHm)].
  { repeat split; intros; discriminate. }
  repeat split.
  - intros s v rest H. cbn [parse_value] in H.
    destruct s as [|c r]; [discriminate H|]. stop_walk H IHv IHe IHm f.
  - intros s vs rest H. cbn [parse_elements] in H. stop_walk H IHv IHe IHm f.
  - intros s ps rest H. cbn [parse_members] in H.
    destruct s as [|q r]; [discriminate H|]. stop_walk H IHv IHe IHm f.
Qed.

Lemma startsWith_split p :
  forall s, startsWith s p = true -> s = p ++ skipn (length p) s.
Proof.
  induction p as [|a p IH]; intros s H; [reflexivity|].
  destruct s as [|b s]; [discriminate H|]. cbn [startsWith] in H.
  apply andb_prop in H. destruct H as [E H]. apply N.eqb_eq in E. subst b.
  cbn [app length skipn]. f_equal. apply IH, H.
Qed.

(** A literal [true], [false] or [null] ends with a letter. *)
Lemma expect_closer lit v s w rest :
  lit <> [] -> expect lit v s = POk w rest ->
  exists c, suffix (c :: rest) s /\ In c lit.
Proof.
  intros N. unfold expect. destruct (startsWith s lit) eqn:E; [|discriminate].
  intros H. inversion H; subst. apply startsWith_split in E.
  destruct (exists_last N) as (front & c & ->).
  exists c. split; [|apply in_or_app; right; left; reflexivity].
  exists front. rewrite E at 1. rewrite <- app_assoc. reflexivity.
Qed.

(** The last character of a value.  Only an object ends with a closing
    brace. *)
Lemma value_closer fuel s v rest :
  parse_value fuel s = POk v rest ->
  exists c, suffix (c :: rest) s
            /\ (c = chr "}" -> exists r, s = chr "{" :: r).
Proof.
  destruct fuel as [|f]; [discriminate|].
  destruct (parse_stops f) as (_ & He & Hm).
  cbn [parse_value]. destruct s as [|c0 r]; [discriminate|].
  destruct (c0 =? chr "{")%N eqn:B1.
  { apply N.eqb_eq in B1. subst c0. intros H. exists (chr "}").
    split; [|intros _; exists r; reflexivity].
    pose proof (skip_ws_suffix r) as W. destruct (skip_ws r) as [|d r'];
      [discriminate H|].
    destruct (d =? chr "}")%N eqn:B.
    - apply N.eqb_eq in B. inversion H; subst. chain 6.
    - destruct (parse_members f (d :: r')) eqn:P; try discriminate H.
      apply Hm in P. inversion H; subst. chain 6. }
  destruct (c0 =? chr "[")%N eqn:B2.
  { intros H. exists (chr "]").
    split; [|intros Q; vm_compute in Q; discriminate Q].
    pose proof (skip_ws_suffix r) as W. destruct (skip_ws r) as [|d r'];
      [discriminate H|].
    destruct (d =? chr "]")%N eqn:B.
    - apply N.eqb_eq in B. inversion H; subst. chain 6.
    - destruct (parse_elements f (d :: r')) eqn:P; try discriminate H.
      apply He in P. inversion H; subst. chain 6. }
  destruct (c0 =? DQUOTE)%N.
  { destruct (parse_string_body r) as [[body t]|] eqn:P; [|discriminate].
    apply string_body_closer in P. intros H. inversion H; subst.
    exists DQUOTE. split; [chain 6|intros Q; vm_compute in Q; discriminate Q]. }
  assert (L : forall lit w,
            lit <> [] -> ~ In (chr "}") lit ->
            expect lit w (c0 :: r) = POk v rest ->
            exists c, suffix (c :: rest) (c0 :: r)
                      /\ (c = chr "}" -> exists r0, c0 :: r = chr "{" :: r0)).
  { intros lit w N1 N2 H. destruct (expect_closer _ _ _ _ _ N1 H) as (c & S & I).
    exists c. split; [exact S|]. intros ->. contradiction. }
  destruct (c0 =? chr "t")%N;
    [apply L; [discriminate|vm_compute; intuition discriminate]|].
  destruct (c0 =? chr "f")%N;
    [apply L; [discriminate|vm_compute; intuition discriminate]|].
  destruct (c0 =? chr "n")%N;
    [apply L; [discriminate|vm_compute; intuition discriminate]|].
  destruct (parse_number (c0 :: r)) as [[x t]|] eqn:P; [|discriminate].
  apply number_closer in P. destruct P as (d & Hd & S).
  intros H. inversion H; subst. exists d. split; [exact S|].
  intros ->. discriminate Hd.
Qed.

Lemma skip_ws_nil s : skip_ws s = [] -> forallb is_json_ws s = true.
Proof.
  induction s as [|c r IH]; [reflexivity|]. cbn [skip_ws forallb].
  destruct (is_json_ws c); [exact IH|discriminate].
Qed.

(** A JSON text that ends with a closing brace is an object: its first
    character, blanks apart, is an opening brace. *)
Lemma text_closed_by_brace front v rest :
  parse_text (front ++ [chr "}"]) = POk v rest ->
  In (chr "{") (front ++ [chr "}"]).
Proof.
  unfold parse_text. set (t := front ++ [chr "}"]).
  destruct (parse_value (2 * length t + 1) (skip_ws t)) as [v' r| |] eqn:P;
    try discriminate.
  destruct (skip_ws r) eqn:W; [|discriminate]. intros _.
  apply skip_ws_nil in W.
  destruct (value_closer _ _ _ _ P) as (c & [pre S] & Hc).
  destruct (skip_ws_suffix t) as [ws T].
  assert (E : t = (ws ++ pre) ++ c :: r).
  { rewrite T, S at 1. rewrite app_assoc. reflexivity. }
  destruct r as [|x r0] using rev_ind.
  - unfold t in E. apply app_inj_tail in E. destruct E as [_ E].
    destruct (Hc (eq_sym E)) as (r1 & Hs).
    rewrite T, Hs. apply in_or_app. right. left. reflexivity.
  - exfalso. rewrite forallb_app in W. apply andb_prop in W.
    destruct W as [_ W]. cbn [forallb] in W. rewrite andb_true_r in W.
    change (c :: r0 ++ [x]) with ((c :: r0) ++ [x]) in E.
    rewrite app_assoc in E. unfold t in E. apply app_inj_tail in E.
    destruct E as [_ E]. subst x. discriminate W.
Qed.

(** ** Searching a text *)

Lemma in_firstn (c : codeunit) n : forall s, In c (firstn n s) -> In c s.
Proof.
  induction n as [|n IH]; intros [|d s] H; try contradiction.
  cbn [firstn] in H. destruct H as [H|H]; [left; exact H|right; apply IH, H].
Qed.

Lemma indexOf_none c s : indexOf c s = None -> ~ In c s.
Proof.
  induction s as [|d r IH]; intros H; [intros []|]. cbn [indexOf] in H.
  destruct (d =? c)%N eqn:E; [discriminate H|]. apply N.eqb_neq in E.
  destruct (indexOf c r); [discriminate H|].
  intros [I|I]; [contradiction|apply (IH eq_refl I)].
Qed.

Lemma indexOf_first c s i :
  indexOf c s = Some i ->
  ~ In c (firstn i s) /\ exists r, skipn i s = c :: r.
Proof.
  revert i. induction s as [|d r IH]; intros i H; [discriminate H|].
  cbn [indexOf] in H. destruct (d =? c)%N eqn:E.
  - apply N.eqb_eq in E. inversion H; subst. split; [intros []|].
    exists r. reflexivity.
  - apply N.eqb_neq in E. destruct (indexOf c r) as [k|]; [|discriminate H].
    inversion H; subst. destruct (IH k eq_refl) as [N1 N2]. split; [|exact N2].
    cbn [firstn]. intros [I|I]; [contradiction|contradiction].
Qed.

Lemma indexOf_fresh c p r : ~ In c p -> indexOf c (p ++ c :: r) = Some (length p).
Proof.
  induction p as [|d p IH]; intros N; cbn [app indexOf length].
  - rewrite N.eqb_refl. reflexivity.
  - destruct (d =? c)%N eqn:E.
    + apply N.eqb_eq in E. exfalso. apply N. left. exact E.
    + rewrite IH; [reflexivity|]. intros I. apply N. right. exact I.
Qed.

Lemma lastIndexOf_none c s : lastIndexOf c s = None -> ~ In c s.
Proof.
  induction s as [|d r IH]; intros H; [intros []|]. cbn [lastIndexOf] in H.
  destruct (lastIndexOf c r); [discriminate H|].
  destruct (d =? c)%N eqn:E; [discriminate H|]. apply N.eqb_neq in E.
  intros [I|I]; [contradiction|apply (IH eq_refl I)].
Qed.

Lemma lastIndexOf_absent c s : ~ In c s -> lastIndexOf c s = None.
Proof.
  intros N. destruct (lastIndexOf c s) as [j|] eqn:E; [|reflexivity].
  exfalso. revert j E. induction s as [|d r IH]; intros j E; [discriminate E|].
  cbn [lastIndexOf] in E. destruct (lastIndexOf c r) as [k|].
  - apply (IH (fun I => N (or_intror I)) k eq_refl).
  - destruct (d =? c)%N eqn:Q; [|discriminate E]. apply N.eqb_eq in Q.
    apply N. left. exact Q.
Qed.

Lemma lastIndexOf_fresh c l q :
  ~ In c q -> lastIndexOf c (l ++ c :: q) = Some (length l).
Proof.
  intros N. induction l as [|d l IH]; cbn [app lastIndexOf length].
  - rewrite (lastIndexOf_absent c q N), N.eqb_refl. reflexivity.
  - rewrite IH. reflexivity.
Qed.

(** The last occurrence splits the text: the character is there, and
    not after. *)
Lemma lastIndexOf_split c s j :
  lastIndexOf c s = Some j ->
  s = firstn j s ++ c :: skipn (S j) s /\ ~ In c (skipn (S j) s)
  /\ length (firstn j s) = j.
Proof.
  revert j. induction s as [|d r IH]; intros j H; [discriminate H|].
  cbn [lastIndexOf] in H. destruct (lastIndexOf c r) as [k|] eqn:E.
  - inversion H; subst. destruct (IH k eq_refl) as (S1 & S2 & S3).
    cbn [firstn skipn app length]. split; [f_equal; exact S1|].
    split; [exact S2|]. rewrite S3. reflexivity.
  - destruct (d =? c)%N eqn:Q; [|discriminate H]. apply N.eqb_eq in Q.
    inversion H; subst. cbn [firstn skipn app]. split; [reflexivity|].
    split; [apply lastIndexOf_none, E|reflexivity].
Qed.

Lemma count_char_app c a b :
  count_char c (a ++ b) = count_char c a + count_char c b.
Proof. unfold count_char. rewrite filter_app, length_app. reflexivity. Qed.

Lemma count_char_absent c s : ~ In c s -> count_char c s = 0.
Proof.
  unfold count_char. induction s as [|d r IH]; intros N; [reflexivity|].
  cbn [filter]. destruct (c =? d)%N eqn:E.
  - apply N.eqb_eq in E. exfalso. apply N. left. symmetry. exact E.
  - apply IH. intros I. apply N. right. exact I.
Qed.

(** All the occurrences of a character but the last one come before the
    last one. *)
Lemma count_before_last c s j :
  lastIndexOf c s = Some j ->
  count_char c s = S (count_char c (firstn j s)).
Proof.
  intros H. destruct (lastIndexOf_split c s j H) as (S1 & S2 & _).
  rewrite S1 at 1. rewrite count_char_app.
  change (c :: skipn (S j) s) with ([c] ++ skipn (S j) s).
  rewrite count_char_app, (count_char_absent c _ S2).
  unfold count_char at 2. cbn [filter]. rewrite N.eqb_refl. cbn [length]. lia.
Qed.

(** ** The second attempt *)

(** The text of the second attempt is the cleaned text cut after its
    last closing brace: the closing quote is never added, the quotes
    before the last quote of a text with an odd number of them being
    even in number. *)
Lemma repair_truncates cleaned fixed :
  repair cleaned = Some fixed ->
  exists b, lastIndexOf (chr "}") cleaned = Some b /\ 0 < b
            /\ fixed = firstn (S b) cleaned.
Proof.
  unfold repair. destruct (lastIndexOf (chr "}") cleaned) as [b|]; [|discriminate].
  destruct (0 <? b) eqn:B; [|discriminate]. apply Nat.ltb_lt in B.
  unfold substring. cbn [skipn]. rewrite !Nat.sub_0_r, Nat.add_1_r.
  set (truncated := firstn (S b) cleaned).
  intros H. exists b. split; [reflexivity|]. split; [exact B|].
  inversion H as [F]. clear H.
  destruct (Nat.odd (count_char DQUOTE truncated)) eqn:O; [|reflexivity].
  destruct (lastIndexOf DQUOTE truncated) as [q|] eqn:Q; [|reflexivity].
  destruct ((0 <? q) && negb (nth (q - 1) truncated 0%N =? BACKSLASH)%N);
    [|reflexivity].
  rewrite (count_before_last _ _ _ Q), Nat.odd_succ in O.
  cbn [skipn]. rewrite ?Nat.sub_0_r. unfold Nat.odd. rewrite O. reflexivity.
Qed.

Lemma lastIndexOf_firstn c s j :
  lastIndexOf c s = Some j -> lastIndexOf c (firstn (S j) s) = Some j.
Proof.
  intros H. destruct (lastIndexOf_split c s j H) as (S1 & _ & S3).
  assert (E : firstn (S j) s = firstn j s ++ [c]).
  { rewrite S1 at 1. rewrite <- S3 at 1.
    change (c :: skipn (S j) s) with ([c] ++ skipn (S j) s).
    rewrite app_assoc, <- (Nat.add_1_r (length (firstn j s))).
    replace (length (firstn j s) + 1) with (length (firstn j s ++ [c]) + 0)
      by (rewrite length_app; cbn [length]; lia).
    rewrite firstn_app_2. cbn [firstn]. apply app_nil_r. }
  rewrite E, (lastIndexOf_fresh c (firstn j s) [] (fun I => I)), S3.
  reflexivity.
Qed.

(** The span from the first opening brace to the last closing brace, when
    there is one, is what a second attempt would parse again. *)
Lemma json_span_repair s m fixed :
  json_span s = Some m -> repair m = Some fixed -> fixed = m.
Proof.
  unfold json_span. destruct (indexOf (chr "{") s) as [i|]; [|discriminate].
  destruct (lastIndexOf (chr "}") (skipn i s)) as [j|] eqn:L; [|discriminate].
  intros H R.
  assert (M : m = firstn (S j) (skipn i s)) by (cbv zeta in H; congruence).
  subst m. clear H.
  apply repair_truncates in R. destruct R as (b & Hb & _ & ->).
  rewrite (lastIndexOf_firstn _ _ _ L) in Hb. inversion Hb; subst b.
  rewrite firstn_firstn, Nat.min_id. reflexivity.
Qed.

(** Without such a span, a second attempt has no opening brace to parse. *)
Lemma no_span_repair s fixed :
  json_span s = None -> repair s = Some fixed ->
  ~ In (chr "{") fixed /\ exists front, fixed = front ++ [chr "}"].
Proof.
  intros J R. apply repair_truncates in R. destruct R as (b & Hb & _ & ->).
  destruct (lastIndexOf_split _ _ _ Hb) as (S1 & _ & S3).
  assert (E : firstn (S b) s = firstn b s ++ [chr "}"]).
  { pose proof (lastIndexOf_firstn _ _ _ Hb) as F.
    destruct (lastIndexOf_split _ _ _ F) as (T1 & _ & _).
    rewrite firstn_firstn, Nat.min_l in T1 by lia.
    rewrite T1 at 1. f_equal. f_equal.
    rewrite skipn_all2; [reflexivity|]. rewrite length_firstn. lia. }
  split; [|exists (firstn b s); exact E].
  intros I. unfold json_span in J.
  destruct (indexOf (chr "{") s) as [i|] eqn:X.
  - destruct (indexOf_first _ _ _ X) as [N1 _].
    destruct (lastIndexOf (chr "}") (skipn i s)) eqn:L; [discriminate J|].
    apply lastIndexOf_none in L.
    destruct (Nat.le_gt_cases i b) as [Le|Gt].
    + apply L. rewrite S1. rewrite skipn_app, S3.
      apply in_or_app. right.
      replace (i - b) with 0 by lia. left. reflexivity.
    + apply N1. replace (firstn (S b) s) with (firstn (S b) (firstn i s)) in I
        by (rewrite firstn_firstn, Nat.min_l by lia; reflexivity).
      apply (in_firstn _ _ _ I).
  - apply (indexOf_none _ _ X). apply (in_firstn _ _ _ I).
Qed.

Import ResponseParser.

(** X1: the second attempt of [parseJsonResponse] never succeeds.  The
    parser returns exactly when [JSON.parse] accepts the cleaned text,
    and then what [JSON.parse] gives, leaving the console alone;
    otherwise it throws "Invalid JSON response from model: " followed by the
    message of that first failure, after the error line with the first
    500 characters (and, when there was a closing brace to cut at, the
    warning line before it). *)
Theorem second_attempt_never_succeeds (env : Env) (text : jstring) (w : World) :
  parseJsonResponse env (JString text) w
  = match JSON_parse (engine env) (clean text) with
    | Return v => (Return v, w)
    | Throw m =>
        (Throw (str "Invalid JSON response from model: " ++ m),
         add_console w
           (match repair (clean text) with
            | Some _ => [warning_entry; failure_entry (clean text)]
            | None => [failure_entry (clean text)]
            end))
    end.
Proof.
  unfold parseJsonResponse. cbv zeta.
  destruct (JSON_parse (engine env) (clean text)) as [v|m] eqn:P1;
    [reflexivity|].
  destruct (repair (clean text)) as [fixed|] eqn:R;
    [|apply throw_invalid_run].
  assert (F : forall v', JSON_parse (engine env) fixed <> Return v').
  { intros v' P2. unfold clean in R, P1.
    set (c0 := if startsWith (trim text) fence
               then strip_closing_fence (strip_opening_fence (trim text))
               else trim text) in *.
    destruct (json_span c0) as [span|] eqn:J.
    - rewrite (json_span_repair _ _ _ J R) in P2. congruence.
    - destruct (no_span_repair _ _ J R) as (N & front & ->).
      unfold JSON_parse in P2.
      destruct (parse_text (front ++ [chr "}"])) as [v0 rest| |] eqn:T;
        try discriminate P2.
      apply N. apply (text_closed_by_brace _ _ _ T). }
  destruct (JSON_parse (engine env) fixed) as [v'|m'] eqn:P2;
    [exfalso; apply (F v'); reflexivity|].
  unfold bind, print. cbn [fst snd]. rewrite throw_invalid_run.
  unfold add_console. cbn [requests timers console clock_reads analysisHistory].
  rewrite <- app_assoc. reflexivity.
Qed.

(** ** An object inside other text *)

Lemma trimStart_keep x r :
  is_space x = false ->
  forall p, trimStart (p ++ x :: r) = trimStart p ++ x :: r.
Proof.
  intros H. induction p as [|d p IH]; cbn [app trimStart].
  - rewrite H. reflexivity.
  - destruct (is_space d); [exact IH|reflexivity].
Qed.

Lemma trimEnd_keep x p :
  is_space x = false ->
  forall l, trimEnd (l ++ x :: p) = l ++ x :: trimEnd p.
Proof.
  intros H. induction l as [|d l IH]; cbn [app trimEnd].
  - rewrite H. destruct (trimEnd p); reflexivity.
  - rewrite IH. destruct l; reflexivity.
Qed.

Lemma in_trimStart (c : codeunit) p : In c (trimStart p) -> In c p.
Proof.
  induction p as [|d p IH]; [intros []|]. cbn [trimStart].
  destruct (is_space d); [intros I; right; apply IH, I|intros I; exact I].
Qed.

Lemma in_trimEnd (c : codeunit) p : In c (trimEnd p) -> In c p.
Proof.
  induction p as [|d p IH]; [intros []|]. cbn [trimEnd].
  destruct (trimEnd p) as [|e t].
  - destruct (is_space d); [intros []|].
    intros [I|[]]. left. exact I.
  - intros [I|I]; [left; exact I|right; apply IH, I].
Qed.

Import RoundTrip.

(** [JSON.parse] reads the text of a well-formed object back. *)
Lemma JSON_parse_stringify E props :
  Spec.wellformed (JObject props) = true ->
  JSON_parse E (stringify (JObject props)) = Return (JObject props).
Proof.
  intros Hwf. pose proof (value_roundtrip (JObject props) Hwf) as R.
  unfold reads_back in R.
  specialize (R (2 * length (stringify (JObject props)) + 1) []
                ltac:(lia) I).
  rewrite app_nil_r in R. unfold JSON_parse, parse_text.
  cbn [Spec.wellformed] in Hwf. apply andb_prop in Hwf.
  destruct Hwf as [_ Hwf]. rewrite (stringify_object props Hwf) in R |- *.
  cbn [skip_ws]. change (is_json_ws (chr "{")) with false. cbv iota.
  rewrite R. reflexivity.
Qed.

(** Cleaning finds the text of an object between a prefix that has no
    opening brace and no backtick and a suffix that has no closing
    brace. *)
Lemma clean_embedded props pre post :
  Spec.wellformed (JObject props) = true ->
  ~ In (chr "{") pre -> ~ In (chr "`") pre -> ~ In (chr "}") post ->
  clean (pre ++ stringify (JObject props) ++ post) = stringify (JObject props).
Proof.
  intros Hwf N1 N2 N3.
  { pose proof Hwf as Hps. cbn [Spec.wellformed] in Hps.
    apply andb_prop in Hps. destruct Hps as [_ Hps].
    rewrite (stringify_object props Hps).
    set (body := join [chr ","] (map member_text props)).
    unfold clean, trim.
    replace (pre ++ (chr "{" :: body ++ [chr "}"]) ++ post)
      with (pre ++ chr "{" :: body ++ chr "}" :: post)
      by (cbn [app]; rewrite <- app_assoc; reflexivity).
    rewrite (trimStart_keep (chr "{") _ eq_refl).
    replace (trimStart pre ++ chr "{" :: body ++ chr "}" :: post)
      with ((trimStart pre ++ chr "{" :: body) ++ chr "}" :: post)
      by (rewrite <- app_assoc; reflexivity).
    rewrite (trimEnd_keep (chr "}") _ eq_refl).
    assert (F : startsWith
                  ((trimStart pre ++ chr "{" :: body) ++ chr "}" :: trimEnd post)
                  fence = false).
    { destruct (trimStart pre) as [|c p] eqn:T; [reflexivity|].
      cbn [app]. change fence with [chr "`"; chr "`"; chr "`"].
      cbn [startsWith]. destruct (chr "`" =? c)%N eqn:E; [|reflexivity].
      apply N.eqb_eq in E. exfalso. apply N2, in_trimStart. rewrite T.
      left. symmetry. exact E. }
    rewrite F. unfold json_span.
    rewrite <- app_assoc. cbn [app].
    rewrite indexOf_fresh by (intros I; apply N1, in_trimStart, I).
    cbv iota zeta. rewrite skipn_app, skipn_all, Nat.sub_diag. cbn [app skipn].
    change (chr "{" :: body ++ chr "}" :: trimEnd post)
      with ((chr "{" :: body) ++ chr "}" :: trimEnd post).
    rewrite lastIndexOf_fresh by (intros I; apply N3, in_trimEnd, I).
    cbv iota.
    replace (S (length (chr "{" :: body)))
      with (length ((chr "{" :: body) ++ [chr "}"]) + 0)
      by (rewrite length_app; cbn [length]; lia).
    change ((chr "{" :: body) ++ chr "}" :: trimEnd post)
      with ((chr "{" :: body) ++ [chr "}"] ++ trimEnd post).
    rewrite app_assoc, firstn_app_2. cbn [firstn]. rewrite app_nil_r.
    reflexivity. }
Qed.

(** The answer of mock mode parses to the mock report. *)
Lemma mock_response_parses env w :
  parseJsonResponse env (JString (stringify mockReport)) w
  = (Return mockReport, w).
Proof.
  assert (Hwf : Spec.wellformed mockReport = true) by (vm_compute; reflexivity).
  pose proof (clean_embedded _ [] [] Hwf (fun I => I) (fun I => I) (fun I => I))
    as C.
  cbn [app] in C. rewrite app_nil_r in C.
  unfold parseJsonResponse. cbv zeta. unfold mockReport in *.
  rewrite C, (JSON_parse_stringify _ _ Hwf). reflexivity.
Qed.

(** X2: a well-formed object is recovered from the text around it.  When
    the text of the object stands between a prefix that has no opening
    brace and no backtick and a suffix that has no closing brace,
    [parseJsonResponse] returns the object and writes nothing. *)
Theorem object_in_prose (env : Env) (props : Props) (pre post : jstring)
  (w : World) :
  Spec.wellformed (JObject props) = true ->
  ~ In (chr "{") pre -> ~ In (chr "`") pre -> ~ In (chr "}") post ->
  parseJsonResponse env (JString (pre ++ stringify (JObject props) ++ post)) w
  = (Return (JObject props), w).
Proof.
  intros Hwf N1 N2 N3. unfold parseJsonResponse. cbv zeta.
  rewrite (clean_embedded props pre post Hwf N1 N2 N3),
    (JSON_parse_stringify _ _ Hwf).
  reflexivity.
Qed.

Lemma object_in_prose_witness :
  parseJsonResponse (Samples.sample_env false Samples.failing_model)
    (JString (str "Here is the report: "
              ++ stringify (JObject sample_object)
              ++ str " I hope this helps."))
    initial_world
  = (Return (JObject sample_object), initial_world).
Proof.
  apply object_in_prose.
  - vm_compute. reflexivity.
  - vm_compute. intuition discriminate.
  - vm_compute. intuition discriminate.
  - vm_compute. intuition discriminate.
Defined.

End ParserRecovery.

(* ===================================================================== *)
(** * The retry loop: bounds that hold whatever the model does            *)
(* ===================================================================== *)

Module RetryBounds.
Import JS Runtime GeminiClient ModelInvoker.
Local Open Scope m_scope.

(** What a call of [invokeWithRetry] may have done to a world [w] on the
    way to [w']: [k] requests, all with the same prompt, and the first
    [j] waits of the doubling sequence from [attempt] on; the clock and
    the history are as they were. *)
Definition retried (prompt : jstring) (attempt k j : nat) (w w' : World)
  : Prop :=
  requests w' = requests w ++ repeat prompt k
  /\ timers w' = timers w ++ map waitTime (seq attempt j)
  /\ clock_reads w' = clock_reads w
  /\ analysisHistory w' = analysisHistory w.

(** The loop throws only when it has run out of attempts: the message is
    "Failed after ... attempts: " and the message caught last, or, when
    nothing was caught, the engine's message for reading [message] of
    [undefined]. *)
Lemma retry_loop_throws env prompt retries remaining :
  forall attempt last w m w',
    retry_loop env prompt retries remaining attempt last w = (Throw m, w') ->
    (exists msg,
       m = str "Failed after " ++ decimal (N.of_nat retries)
           ++ str " attempts: " ++ msg)
    \/ (last = None /\ remaining = 0
        /\ m = read_error_message (engine env) JUndefined (str "message")).
Proof.
  induction remaining as [|n IH]; intros attempt last w m w'.
  - cbn [retry_loop]. destruct last as [msg|]; unfold throw; intros H;
      inversion H; subst; [left; eexists; reflexivity|right; repeat split].
  - rewrite retry_loop_S. unfold try_catch at 1. unfold request at 1.
    destruct (generateContent (model env) (length (requests w)) prompt)
      as [text|msg]; [intros H; discriminate H|].
    destruct (attempt <? retries - 1);
      unfold bind, print, sleep, ret; cbn [fst snd]; intros H;
      apply IH in H; destruct H as [H|[H _]];
      solve [left; exact H | discriminate H].
Qed.

(** The loop counted exactly: when it returns, it has sent at least one
    request and waited once less than it sent; when it throws, it has
    used up its attempts and waited after each but the last. *)
Lemma retry_loop_exact env prompt retries remaining :
  forall attempt last w,
    attempt + remaining = retries ->
    exists k j,
      retried prompt attempt k j w
        (snd (retry_loop env prompt retries remaining attempt last w))
      /\ match fst (retry_loop env prompt retries remaining attempt last w) with
         | Return _ => 1 <= k <= remaining /\ j = k - 1
         | Throw _ => k = remaining /\ j = remaining - 1
         end.
Proof.
  induction remaining as [|n IH]; intros attempt last w Hsum.
  - exists 0, 0. cbn [retry_loop]. destruct last; unfold throw;
      cbn [fst snd]; (split; [|split; reflexivity]);
      repeat split; cbn [repeat seq map]; rewrite ?app_nil_r; reflexivity.
  - rewrite retry_loop_S. unfold try_catch at 1 2. unfold request at 1 2.
    destruct (generateContent (model env) (length (requests w)) prompt)
      as [text|msg].
    + exists 1, 0. cbn [fst snd]. split; [|split; [lia|reflexivity]].
      repeat split; cbn [requests timers clock_reads analysisHistory
        repeat seq map]; rewrite ?app_nil_r; reflexivity.
    + destruct (attempt <? retries - 1) eqn:Hlt;
        unfold bind, print, sleep, ret;
        cbn [fst snd requests timers console clock_reads analysisHistory];
        match goal with
        | |- context [retry_loop env prompt retries n (S attempt) (Some msg) ?w2] =>
            destruct (IH (S attempt) (Some msg) w2 ltac:(lia))
              as (k & j & (R1 & R2 & R3 & R4) & Hout);
            destruct (retry_loop env prompt retries n (S attempt) (Some msg) w2)
              as [[text|m] w3]
        end;
        cbn [fst snd requests timers clock_reads analysisHistory] in *.
      * apply Nat.ltb_lt in Hlt. exists (S k), (S j).
        split; [|lia]. split; [|split; [|split]].
        -- rewrite R1, <- app_assoc. reflexivity.
        -- rewrite R2, <- app_assoc. reflexivity.
        -- exact R3.
        -- exact R4.
      * apply Nat.ltb_lt in Hlt. exists (S k), (S j).
        split; [|lia]. split; [|split; [|split]].
        -- rewrite R1, <- app_assoc. reflexivity.
        -- rewrite R2, <- app_assoc. reflexivity.
        -- exact R3.
        -- exact R4.
      * apply Nat.ltb_ge in Hlt. exfalso. lia.
      * apply Nat.ltb_ge in Hlt. assert (n = 0) by lia. subst n.
        destruct Hout as [-> ->]. exists 1, 0. split; [|split; reflexivity].
        cbn [repeat seq map] in *. rewrite app_nil_r in R1, R2.
        repeat split; cbn [repeat seq map]; rewrite ?app_nil_r; assumption.
Qed.

(** What the callers of [invokeWithRetry] rely on. *)
Lemma invokeWithRetry_retried env prompt retries w :
  exists k j,
    k <= retries /\ j <= k /\ j <= retries - 1
    /\ retried prompt 0 k j w (snd (invokeWithRetry env prompt retries w)).
Proof.
  unfold invokeWithRetry. destruct (mockMode (config env)).
  - exists 0, 0. repeat split; try lia;
      cbn [snd ret repeat seq map]; rewrite ?app_nil_r; reflexivity.
  - destruct (retry_loop_exact env prompt retries retries 0 None w eq_refl)
      as (k & j & R & Hout).
    exists k, j.
    destruct (fst (retry_loop env prompt retries retries 0 None w));
      (split; [lia|]); (split; [lia|]); (split; [lia|exact R]).
Qed.


End RetryBounds.

(* ===================================================================== *)
(** * The validators: edges                                               *)
(* ===================================================================== *)

Module ValidatorEdges.
Import JS Zod Validators Spec ZodFacts ValidatorsFacts ObjectFacts Samples.

(** X4: a validator reports failure exactly when it lists an error: the
    result of [validateInput], and of [validateOutput], has [success]
    true and no error, or [success] false and at least one error. *)
Theorem validation_result_consistent (data : JValue) :
  (success (validateInput data) = true <-> errors (validateInput data) = [])
  /\ (success (validateOutput data) = true
      <-> errors (validateOutput data) = []).
Proof.
  assert (G : forall sch,
             success (validate sch data) = true
             <-> errors (validate sch data) = []).
  { intros sch. split.
    - unfold validate. destruct (Zod.parse sch data); [reflexivity|].
      intros H. discriminate H.
    - intros H. destruct (success (validate sch data)) eqn:S; [reflexivity|].
      exfalso. apply (validate_errors sch data S H). }
  split; apply G.
Qed.

(** The message of the default error map for a value of the wrong type. *)
Definition type_message (expected : jstring) (data : JValue) : jstring :=
  match data with
  | JUndefined => str "Required"
  | _ => str "Expected " ++ expected ++ str ", received " ++ parsed_type data
  end.

(** X5: on a value that is not an object (undefined, null, a number, a
    string, an array, ...) both validators fail with one error, whose
    path is empty: the text starts with the colon. *)
Theorem validate_not_an_object (data : JValue) :
  (forall ps, data <> JObject ps) ->
  validateInput data
  = {| success := false;
       errors := [str ": " ++ type_message (str "object") data] |}
  /\ validateOutput data
     = {| success := false;
          errors := [str ": " ++ type_message (str "object") data] |}.
Proof.
  intros H. destruct data; try (split; reflexivity).
  exfalso. apply (H props). reflexivity.
Qed.

Lemma validate_not_an_object_witness :
  validateInput JNull
  = {| success := false; errors := [str ": Expected object, received null"] |}
  /\ validateOutput JNull
     = {| success := false;
          errors := [str ": Expected object, received null"] |}.
Proof.
  apply (validate_not_an_object JNull). intros ps H. discriminate H.
Defined.

(** An object schema reads the properties it names, and no other. *)
Lemma object_schema_reads shape p ps ps' :
  (forall k, In k (map fst shape) -> lookup k ps' = lookup k ps) ->
  zparse (ZObject shape) p (JObject ps') = zparse (ZObject shape) p (JObject ps).
Proof.
  intros H. cbn [zparse].
  induction shape as [|[k s] rest IH]; [reflexivity|].
  cbn [fst snd]. rewrite (H k (or_introl eq_refl)). f_equal.
  apply IH. intros k' Hk. apply H. right. exact Hk.
Qed.

(** X6: [validateInput] pays no attention to properties it does not
    know: setting one on the input changes nothing of the result. *)
Theorem validateInput_ignores_unknown (ps : Props) (k : jstring) (v : JValue) :
  ~ In k [str "stock"; str "quantitative"; str "sis"; str "ssis";
          str "qualitative"; str "peerComparison"] ->
  validateInput (JObject (define k v ps)) = validateInput (JObject ps).
Proof.
  intros H. unfold validateInput, validate, Zod.parse, StockInputSchema.
  rewrite (object_schema_reads _ [] ps (define k v ps)); [reflexivity|].
  intros k' Hk. apply lookup_define_other. intros E. subst k'.
  apply H. exact Hk.
Qed.

Lemma validateInput_ignores_unknown_witness :
  validateInput (JObject (define (str "comment") (JNumber (Number_of_Z 1))
                                 (own_enumerable valid_input)))
  = validateInput (JObject (own_enumerable valid_input)).
Proof.
  apply validateInput_ignores_unknown. vm_compute. intuition discriminate.
Defined.

(** ** What validation guarantees of the metrics *)

(** A value the metric schema accepts. *)
Lemma metric_valid q m :
  fst (zparse MetricSchema q m) = Valid ->
  (exists s, read m (str "name") = JString s)
  /\ (read m (str "value") <> JUndefined \/ read m (str "actual") <> JUndefined)
  /\ (read m (str "pass") = JUndefined \/ exists b, read m (str "pass") = JBool b).
Proof.
  intros H. apply refine_valid in H. destruct H as [H C].
  apply object_valid in H. destruct H as (ps & -> & H).
  pose proof (H (str "name") _ (or_introl eq_refl)) as Hn.
  pose proof (H (str "pass") _
                (or_intror (or_intror (or_intror (or_intror (or_introl eq_refl))))))
    as Hp.
  cbn [read]. split; [|split].
  - cbn [zparse] in Hn. destruct (lookup (str "name") ps);
      try discriminate Hn. eexists. reflexivity.
  - apply orb_prop in C. destruct C as [C|C]; [left|right]; intros E;
      rewrite E in C; discriminate C.
  - cbn [zparse] in Hp. destruct (lookup (str "pass") ps);
      try discriminate Hp; [left; reflexivity|right; eexists; reflexivity].
Qed.

Lemma group_valid p v :
  fst (zparse MetricGroupSchema p v) = Valid ->
  forall m, In m (items (read v (str "metrics"))) ->
            exists q, fst (zparse MetricSchema q m) = Valid.
Proof.
  intros H. apply object_valid in H. destruct H as (ps & -> & H).
  pose proof (H (str "metrics") _ (or_intror (or_introl eq_refl))) as F.
  apply array_valid in F. destruct F as (l & Hl & F).
  cbn [read]. rewrite Hl. exact F.
Qed.

Lemma valid_entries data :
  success (validateInput data) = true ->
  forall m, In m (all_entries data) ->
            exists q, fst (zparse MetricSchema q m) = Valid.
Proof.
  intros H. apply validate_success in H.
  apply object_valid in H. destruct H as (ps & -> & H).
  pose proof (H (str "quantitative") _ (or_intror (or_introl eq_refl))) as Q.
  apply object_valid in Q. destruct Q as (qs & Hq & Q).
  pose proof (Q (str "fundamentalResilience") _ (or_introl eq_refl)) as G1.
  pose proof (Q (str "asymmetricRiskReward") _ (or_intror (or_introl eq_refl)))
    as G2.
  pose proof (Q (str "technicalConfirmation") _
                (or_intror (or_intror (or_introl eq_refl)))) as G3.
  intros m Hm. unfold all_entries, group_entries in Hm.
  cbn [read] in Hm. rewrite Hq in Hm. cbn [read] in Hm.
  apply in_app_or in Hm. destruct Hm as [Hm|Hm];
    [apply (group_valid _ _ G1 m Hm)|].
  apply in_app_or in Hm. destruct Hm as [Hm|Hm];
    [apply (group_valid _ _ G2 m Hm)|apply (group_valid _ _ G3 m Hm)].
Qed.

(** X7: in an input that [validateInput] accepts, every metric of the
    three quantitative groups has a string for name, has a value or an
    actual, and has for pass a boolean or nothing. *)
Theorem validated_metrics (data m : JValue) :
  success (validateInput data) = true ->
  In m (all_entries data) ->
  (exists s, read m (str "name") = JString s)
  /\ (read m (str "value") <> JUndefined \/ read m (str "actual") <> JUndefined)
  /\ (read m (str "pass") = JUndefined \/ exists b, read m (str "pass") = JBool b).
Proof.
  intros H Hm. destruct (valid_entries data H m Hm) as (q & Hq).
  apply (metric_valid q m Hq).
Qed.

Lemma validated_metrics_witness :
  (exists s, read (metric "m3" F) (str "name") = JString s)
  /\ (read (metric "m3" F) (str "value") <> JUndefined
      \/ read (metric "m3" F) (str "actual") <> JUndefined)
  /\ (read (metric "m3" F) (str "pass") = JUndefined
      \/ exists b, read (metric "m3" F) (str "pass") = JBool b).
Proof.
  apply (validated_metrics valid_input); [reflexivity|].
  vm_compute. right. right. left. reflexivity.
Defined.

(** ** The counts of the summary *)

Lemma pass_is_exclusive m : pass_is true m && pass_is false m = false.
Proof.
  unfold pass_is. destruct (read m (str "pass")); try reflexivity.
  destruct b; reflexivity.
Qed.

Lemma count_two (l : list JValue) :
  length (filter (pass_is true) l) + length (filter (pass_is false) l)
  + length (filter (fun m => negb (pass_is true m || pass_is false m)) l)
  = length l.
Proof.
  induction l as [|m r IH]; [reflexivity|]. cbn [filter length].
  pose proof (pass_is_exclusive m) as X.
  destruct (pass_is true m), (pass_is false m); try discriminate X;
    cbn [orb negb length]; lia.
Qed.

Lemma filter_none {A : Type} (f : A -> bool) (l : list A) :
  length (filter f l) = 0 <-> forall x, In x l -> f x = false.
Proof.
  induction l as [|a r IH]; cbn [filter]; [split; [intros _ x []|reflexivity]|].
  destruct (f a) eqn:E; cbn [length]; split.
  - intros H. discriminate H.
  - intros H. rewrite (H a (or_introl eq_refl)) in E. discriminate E.
  - intros H x [<-|I]; [exact E|apply IH; assumption].
  - intros H. apply IH. intros x I. apply H. right. exact I.
Qed.

(** X8: for an input that [validateInput] accepts, the counts of
    [extractKeyMetrics] add up: [passedCount] and [failedCount] are the
    lengths of [passedMetrics] and [failedMetrics], which hold strings;
    together they are at most [totalMetrics], and they reach it exactly
    when every metric carries a [pass]. *)
Theorem extractKeyMetrics_counts (E : Engine) (data : JValue) :
  success (validateInput data) = true ->
  exists r p f pn fn,
    extractKeyMetrics E data = Return r
    /\ read r (str "totalMetrics")
       = JNumber (Number_of_nat (length (all_entries data)))
    /\ read r (str "passedCount") = JNumber (Number_of_nat p)
    /\ read r (str "failedCount") = JNumber (Number_of_nat f)
    /\ read r (str "passedMetrics") = JArray pn /\ length pn = p
    /\ read r (str "failedMetrics") = JArray fn /\ length fn = f
    /\ (forall n, In n (pn ++ fn) -> exists s, n = JString s)
    /\ p + f <= length (all_entries data)
    /\ (p + f = length (all_entries data)
        <-> forall m, In m (all_entries data) ->
                      read m (str "pass") <> JUndefined).
Proof.
  intros H. pose proof (valid_entries data H) as V.
  exists (summary data), (length (filter (pass_is true) (all_entries data))),
    (length (filter (pass_is false) (all_entries data))),
    (map name_of (filter (pass_is true) (all_entries data))),
    (map name_of (filter (pass_is false) (all_entries data))).
  pose proof (count_two (all_entries data)) as C.
  split; [apply extract_well_shaped, valid_well_shaped, H|].
  do 3 (split; [reflexivity|]).
  split; [reflexivity|]. split; [apply length_map|].
  split; [reflexivity|]. split; [apply length_map|].
  split; [|split; [lia|]].
  - intros n I. apply in_app_or in I.
    assert (G : forall b, In n (map name_of (filter (pass_is b) (all_entries data)))
                          -> exists s, n = JString s).
    { intros b J. apply in_map_iff in J. destruct J as (m & <- & J).
      apply filter_In in J. destruct J as [J _].
      destruct (V m J) as (q & Hq). apply metric_valid in Hq.
      destruct Hq as [Hn _]. exact Hn. }
    destruct I as [I|I]; [apply (G true I)|apply (G false I)].
  - split.
    + intros Q m I U.
      assert (Z : length (filter (fun m => negb (pass_is true m || pass_is false m))
                            (all_entries data)) = 0) by lia.
      pose proof (proj1 (filter_none _ _) Z m I) as N. cbv beta in N.
      unfold pass_is in N. rewrite U in N. discriminate N.
    + intros Q.
      assert (Z : length (filter (fun m => negb (pass_is true m || pass_is false m))
                            (all_entries data)) = 0).
      { apply filter_none. intros m I. destruct (V m I) as (q & Hq).
        apply metric_valid in Hq. destruct Hq as (_ & _ & [U|(b & U)]).
        - exfalso. apply (Q m I U).
        - unfold pass_is. rewrite U. destruct b; reflexivity. }
      lia.
Qed.

Lemma extractKeyMetrics_counts_witness :
  exists r p f pn fn,
    extractKeyMetrics v8 valid_input = Return r
    /\ read r (str "totalMetrics") = JNumber (Number_of_nat 10)
    /\ read r (str "passedCount") = JNumber (Number_of_nat p)
    /\ read r (str "failedCount") = JNumber (Number_of_nat f)
    /\ read r (str "passedMetrics") = JArray pn /\ length pn = p
    /\ read r (str "failedMetrics") = JArray fn /\ length fn = f
    /\ p + f <= 10.
Proof.
  destruct (extractKeyMetrics_counts v8 valid_input eq_refl)
    as (r & p & f & pn & fn & H1 & H2 & H3 & H4 & H5 & H6 & H7 & H8 & _ & H9 & _).
  exists r, p, f, pn, fn. auto 10.
Defined.

(** X9: without validation, an input that has no [quantitative] makes
    [extractKeyMetrics] throw the engine's TypeError: for reading
    [quantitative] when the input itself is [undefined] or [null], and
    for reading [fundamentalResilience] of [undefined] otherwise. *)
Theorem extractKeyMetrics_missing_block (E : Engine) (data : JValue) :
  read data (str "quantitative") = JUndefined ->
  extractKeyMetrics E data
  = Throw (if nullish data
           then read_error_message E data (str "quantitative")
           else read_error_message E JUndefined (str "fundamentalResilience")).
Proof.
  intros H. unfold extractKeyMetrics, group_metrics.
  destruct data; cbn [get bindC nullish]; try reflexivity;
    try (cbn [read] in H |- *; rewrite ?H; reflexivity).
Qed.

Lemma extractKeyMetrics_missing_block_witness :
  extractKeyMetrics v8 invalid_input
  = Throw (read_error_message v8 JUndefined (str "fundamentalResilience")).
Proof.
  apply (extractKeyMetrics_missing_block v8 invalid_input). reflexivity.
Defined.

End ValidatorEdges.

(* ===================================================================== *)
(** * The analyzer: outcomes and history                                  *)
(* ===================================================================== *)

Module AnalyzerFacts.
Import JS Runtime Validators GeminiClient Analyzer Spec Samples.
Import ValidatorsFacts WorkflowEngine ResponseParser.
Local Open Scope m_scope.

Arguments validateInput : simpl never.
Arguments extractKeyMetrics : simpl never.
Arguments invokeWithRetry : simpl never.
Arguments parseJsonResponse : simpl never.

(** The entry [analyze] pushes onto the history. *)
Definition history_entry (input report : JValue) (timestamp : jstring)
  : JValue :=
  JObject [(str "timestamp", JString timestamp);
           (str "symbol", read (read input (str "stock")) (str "symbol"));
           (str "recommendation", read report (str "recommendation"));
           (str "score", read report (str "overallScore"))].

Definition record (w : World) (entry : JValue) : World :=
  {| requests := requests w; timers := timers w; console := console w;
     clock_reads := clock_reads w;
     analysisHistory := analysisHistory w ++ [entry] |}.

(** [analyze] on a valid input, step by step: the request, the parsing,
    the enriching and the entry in the history. *)
Lemma analyze_valid env input w :
  success (validateInput input) = true ->
  analyze env input w
  = match invokeWithRetry env (fullPrompt env input) (maxRetries (config env)) w
    with
    | (Throw m, w1) => (Throw m, w1)
    | (Return raw, w1) =>
        match parseJsonResponse env (JString raw) w1 with
        | (Throw m, w2) =>
            (Throw (str "Failed to generate valid JSON report: " ++ m), w2)
        | (Return report, w2) =>
            if nullish report then
              (Throw (read_error_message (engine env) report
                        (str "recommendation")),
               tick (tick w2))
            else
              (Return
                 (spread_object report
                    [(str "metadata",
                      metadata_block env input (summary input)
                        (now env (clock_reads w2)))]),
               record (tick (tick w2))
                 (history_entry input report (now env (S (clock_reads w2)))))
        end
    end.
Proof.
  intros H. unfold analyze. cbv zeta. rewrite H. cbn [negb].
  rewrite (extract_valid env input H).
  unfold bind at 1. unfold lift at 1. unfold bind at 1.
  destruct (invokeWithRetry env (fullPrompt env input)
              (maxRetries (config env)) w) as [[raw|m] w1]; [|reflexivity].
  unfold bind at 1. unfold try_catch.
  destruct (parseJsonResponse env (JString raw) w1) as [[report|m] w2];
    [|reflexivity].
  unfold bind at 1. rewrite (metadata_run env input _ w2 H).
  destruct (valid_stock input H) as [V1 V2].
  unfold bind, toISOString_now, lift, push_history, ret.
  rewrite (get_defined _ _ _ V1), (get_defined _ _ _ V2).
  destruct (nullish report) eqn:N.
  - destruct report; try discriminate N; reflexivity.
  - rewrite !(get_defined _ report _ N). reflexivity.
Qed.

(** The parser writes to the console and does nothing else. *)
Lemma parseJsonResponse_world env r w :
  exists entries, snd (parseJsonResponse env r w) = add_console w entries.
Proof.
  assert (Z : w = add_console w []).
  { unfold add_console. rewrite app_nil_r. destruct w; reflexivity. }
  unfold parseJsonResponse.
  destruct r; try (exists []; unfold throw; cbn [snd]; exact Z).
  cbv zeta. destruct (JSON_parse (engine env) (clean s));
    [exists []; unfold ret; cbn [snd]; exact Z|].
  destruct (repair (clean s)) as [fixed|];
    [destruct (JSON_parse (engine env) fixed);
     [exists []; unfold ret; cbn [snd]; exact Z|]|].
  - eexists [_; _]. unfold bind, print. cbn [fst snd].
    rewrite throw_invalid_run. cbn [snd]. unfold add_console.
    cbn [requests timers console clock_reads analysisHistory].
    rewrite <- app_assoc. reflexivity.
  - eexists [_]. rewrite throw_invalid_run. reflexivity.
Qed.

(** X10: what a successful [analyze] gives.  On a valid input, when the
    model answers and the answer parses to a report other than [null],
    [analyze] returns a new object with the properties of the report and
    a [metadata] block, and pushes one entry onto the history, with the
    symbol of the input and the recommendation and score of the report.
    The clock is read twice: [metadata.analysisDate] is the first
    reading and the [timestamp] of the history entry the second. *)
Theorem analyze_success (env : Env) (input report : JValue) (raw : jstring)
  (w w1 w2 : World) :
  success (validateInput input) = true ->
  invokeWithRetry env (fullPrompt env input) (maxRetries (config env)) w
  = (Return raw, w1) ->
  parseJsonResponse env (JString raw) w1 = (Return report, w2) ->
  nullish report = false ->
  exists w',
    analyze env input w
    = (Return (spread_object report
                 [(str "metadata",
                   metadata_block env input (summary input)
                     (now env (clock_reads w)))]), w')
    /\ analysisHistory w'
       = analysisHistory w
         ++ [history_entry input report (now env (S (clock_reads w)))]
    /\ clock_reads w' = 2 + clock_reads w
    /\ requests w' = requests w1.
Proof.
  intros H Hi Hp Hn.
  destruct (RetryBounds.invokeWithRetry_retried env (fullPrompt env input)
              (maxRetries (config env)) w)
    as (k & j & _ & _ & _ & _ & _ & C1 & A1).
  rewrite Hi in C1, A1. cbn [snd] in C1, A1.
  destruct (parseJsonResponse_world env (JString raw) w1) as (entries & P).
  rewrite Hp in P. cbn [snd] in P.
  assert (C2 : clock_reads w2 = clock_reads w) by (rewrite P; exact C1).
  rewrite (analyze_valid env input w H), Hi, Hp, Hn.
  exists (record (tick (tick w2))
            (history_entry input report (now env (S (clock_reads w2))))).
  cbn [record tick analysisHistory clock_reads requests].
  rewrite C2, P. cbn [add_console analysisHistory requests].
  rewrite A1. repeat split.
Qed.

Lemma analyze_success_witness :
  exists w',
    analyze (sample_env false (constant_model (str "{}"))) valid_input
            initial_world
    = (Return (spread_object (JObject [])
                 [(str "metadata",
                   metadata_block (sample_env false (constant_model (str "{}")))
                     valid_input (summary valid_input)
                     (str "2025-12-15T00:00:00.000Z"))]), w')
    /\ analysisHistory w'
       = [JObject [(str "timestamp", JString (str "2025-12-15T00:00:01.000Z"));
                   (str "symbol", JString (str "TBD"));
                   (str "recommendation", JUndefined);
                   (str "score", JUndefined)]]
    /\ clock_reads w' = 2
    /\ requests w' = [str "prompt"].
Proof.
  apply (analyze_success (sample_env false (constant_model (str "{}")))
           valid_input (JObject []) (str "{}") initial_world
           {| requests := [str "prompt"]; timers := []; console := [];
              clock_reads := 0; analysisHistory := [] |}
           {| requests := [str "prompt"]; timers := []; console := [];
              clock_reads := 0; analysisHistory := [] |});
    vm_compute; reflexivity.
Defined.

(** A response that is a string is rejected with the message of the
    failed [JSON.parse] behind a fixed prefix. *)
Lemma parse_failure_message env raw w m w' :
  parseJsonResponse env (JString raw) w = (Throw m, w') ->
  exists msg, m = str "Invalid JSON response from model: " ++ msg.
Proof.
  unfold parseJsonResponse. cbv zeta.
  destruct (JSON_parse (engine env) (clean raw)) as [v|msg];
    [unfold ret; intros H; discriminate H|].
  destruct (repair (clean raw)) as [fixed|];
    [destruct (JSON_parse (engine env) fixed);
     [unfold ret; intros H; discriminate H|]|].
  - unfold bind, print. cbn [fst snd]. rewrite throw_invalid_run.
    intros H. inversion H. eexists. reflexivity.
  - rewrite throw_invalid_run. intros H. inversion H. eexists. reflexivity.
Qed.

(** What one call of [analyze] does to the state, whatever the input and
    whatever the model does.  It sends at most [maxRetries] requests,
    all with the prompt of the input.  When it returns, it has read the
    clock twice and added exactly one entry at the end of the history;
    when it throws, the history is as it was. *)
Lemma analyze_effect env input w :
  exists k,
    k <= maxRetries (config env)
    /\ requests (snd (analyze env input w))
       = requests w ++ repeat (fullPrompt env input) k
    /\ match fst (analyze env input w) with
       | Return _ =>
           clock_reads (snd (analyze env input w)) = 2 + clock_reads w
           /\ exists entry,
                analysisHistory (snd (analyze env input w))
                = analysisHistory w ++ [entry]
       | Throw _ =>
           analysisHistory (snd (analyze env input w)) = analysisHistory w
       end.
Proof.
  destruct (success (validateInput input)) eqn:H.
  - rewrite (analyze_valid env input w H).
    destruct (RetryBounds.invokeWithRetry_retried env (fullPrompt env input)
                (maxRetries (config env)) w)
      as (k & j & Hk & _ & _ & R1 & _ & C1 & A1).
    exists k. split; [exact Hk|].
    destruct (invokeWithRetry env (fullPrompt env input)
                (maxRetries (config env)) w) as [[raw|m] w1];
      cbn [fst snd] in *; [|split; assumption].
    destruct (parseJsonResponse_world env (JString raw) w1) as (entries & P).
    destruct (parseJsonResponse env (JString raw) w1) as [[report|m] w2];
      cbn [fst snd] in *; subst w2;
      [|cbn [add_console requests analysisHistory]; split; assumption].
    destruct (nullish report);
      cbn [fst snd record tick add_console requests clock_reads
           analysisHistory].
    + split; assumption.
    + split; [exact R1|]. split; [rewrite C1; reflexivity|].
      eexists. rewrite A1. reflexivity.
  - exists 0. split; [lia|]. unfold analyze. cbv zeta. rewrite H.
    cbn [negb fst snd throw repeat]. rewrite app_nil_r. split; reflexivity.
Qed.

(** X11: the errors of [analyze].  Whenever it throws, the message is one
    of five: the validator's errors behind "Input validation failed:";
    "Failed after ... attempts: " and the last error of the model; the
    engine's message for reading [message] of [undefined], when
    [maxRetries] is 0; the parser's message behind both "Failed to
    generate valid JSON report: " and "Invalid JSON response from model: ";
    or the engine's message for reading [recommendation] of a report that
    is [null].  Only in the last case has the clock been read. *)
Theorem analyze_failure_messages (env : Env) (input : JValue) (w w' : World)
  (m : jstring) :
  analyze env input w = (Throw m, w') ->
  (success (validateInput input) = false
   /\ m = str "Input validation failed:"
          ++ LF :: join [LF] (errors (validateInput input))
   /\ w' = w)
  \/ (success (validateInput input) = true
      /\ ((exists msg,
             m = str "Failed after "
                 ++ decimal (N.of_nat (maxRetries (config env)))
                 ++ str " attempts: " ++ msg
             /\ clock_reads w' = clock_reads w)
          \/ (maxRetries (config env) = 0
              /\ m = read_error_message (engine env) JUndefined (str "message")
              /\ clock_reads w' = clock_reads w)
          \/ (exists msg,
                m = str "Failed to generate valid JSON report: "
                    ++ str "Invalid JSON response from model: " ++ msg
                /\ clock_reads w' = clock_reads w)
          \/ (exists report,
                nullish report = true
                /\ m = read_error_message (engine env) report
                         (str "recommendation")
                /\ clock_reads w' = 2 + clock_reads w))).
Proof.
  destruct (success (validateInput input)) eqn:H.
  - rewrite (analyze_valid env input w H). intros Hrun. right.
    split; [reflexivity|].
    destruct (RetryBounds.invokeWithRetry_retried env (fullPrompt env input)
                (maxRetries (config env)) w)
      as (k & j & _ & _ & _ & _ & _ & C1 & _).
    destruct (invokeWithRetry env (fullPrompt env input)
                (maxRetries (config env)) w) as [[raw|m1] w1] eqn:Hi;
      cbn [snd] in C1.
    + destruct (parseJsonResponse_world env (JString raw) w1) as (entries & P).
      destruct (parseJsonResponse env (JString raw) w1) as [[report|m2] w2]
        eqn:Hp; cbn [snd] in P; subst w2.
      * destruct (nullish report) eqn:N; [|discriminate Hrun].
        inversion Hrun; subst. right. right. right. exists report.
        split; [exact N|]. split; [reflexivity|].
        cbn [tick add_console clock_reads]. rewrite C1. reflexivity.
      * inversion Hrun; subst. right. right. left.
        destruct (parse_failure_message _ _ _ _ _ Hp) as (msg & ->).
        exists msg. split; [reflexivity|exact C1].
    + inversion Hrun; subst. unfold invokeWithRetry in Hi.
      destruct (mockMode (config env)); [discriminate Hi|].
      destruct (RetryBounds.retry_loop_throws _ _ _ _ _ _ _ _ _ Hi)
        as [(msg & ->)|(_ & R & ->)].
      * left. exists msg. split; [reflexivity|exact C1].
      * right. left. split; [exact R|]. split; [reflexivity|exact C1].
  - unfold analyze. cbv zeta. rewrite H. cbn [negb]. unfold throw.
    intros Hrun. inversion Hrun; subst. left. repeat split.
Qed.

Lemma analyze_failure_messages_witness :
  let env := sample_env false failing_model in
  let m := str "Failed after 3 attempts: fetch failed" in
  let w' := snd (analyze env valid_input initial_world) in
  (success (validateInput valid_input) = false
   /\ m = str "Input validation failed:"
          ++ LF :: join [LF] (errors (validateInput valid_input))
   /\ w' = initial_world)
  \/ (success (validateInput valid_input) = true
      /\ ((exists msg,
             m = str "Failed after "
                 ++ decimal (N.of_nat (maxRetries (config env)))
                 ++ str " attempts: " ++ msg
             /\ clock_reads w' = clock_reads initial_world)
          \/ (maxRetries (config env) = 0
              /\ m = read_error_message (engine env) JUndefined (str "message")
              /\ clock_reads w' = clock_reads initial_world)
          \/ (exists msg,
                m = str "Failed to generate valid JSON report: "
                    ++ str "Invalid JSON response from model: " ++ msg
                /\ clock_reads w' = clock_reads initial_world)
          \/ (exists report,
                nullish report = true
                /\ m = read_error_message (engine env) report
                         (str "recommendation")
                /\ clock_reads w' = 2 + clock_reads initial_world))).
Proof.
  intros env m w'.
  apply (analyze_failure_messages env valid_input initial_world w' m).
  vm_compute. reflexivity.
Defined.

(** X12: a model that answers [null].  On a valid input, when the answer
    of the model cleans to a text that [JSON.parse] reads as [null], the
    parser accepts it and [analyze] fails only when it records the
    analysis: it throws the engine's message for reading
    [recommendation] of [null], having read the clock twice, and the
    history is left as it was. *)
Theorem analyze_null_report (env : Env) (input : JValue) (raw : jstring)
  (w w1 : World) :
  success (validateInput input) = true ->
  invokeWithRetry env (fullPrompt env input) (maxRetries (config env)) w
  = (Return raw, w1) ->
  JSON_parse (engine env) (clean raw) = Return JNull ->
  analyze env input w
  = (Throw (read_error_message (engine env) JNull (str "recommendation")),
     tick (tick w1))
  /\ analysisHistory (tick (tick w1)) = analysisHistory w.
Proof.
  intros H Hi Hp.
  destruct (RetryBounds.invokeWithRetry_retried env (fullPrompt env input)
              (maxRetries (config env)) w)
    as (k & j & _ & _ & _ & _ & _ & _ & A1).
  rewrite Hi in A1. cbn [snd] in A1.
  rewrite (analyze_valid env input w H), Hi.
  unfold parseJsonResponse. cbv zeta. rewrite Hp. unfold ret.
  cbn [nullish]. split; [reflexivity|exact A1].
Qed.

Lemma analyze_null_report_witness :
  analyze (sample_env false (constant_model (str " null "))) valid_input
          initial_world
  = (Throw (str "Cannot read properties of null (reading 'recommendation')"),
     {| requests := [str "prompt"]; timers := []; console := [];
        clock_reads := 2; analysisHistory := [] |})
  /\ analysisHistory
       (tick (tick {| requests := [str "prompt"]; timers := [];
                      console := []; clock_reads := 0;
                      analysisHistory := [] |}))
     = analysisHistory initial_world.
Proof.
  apply (analyze_null_report (sample_env false (constant_model (str " null ")))
           valid_input (str " null ") initial_world
           {| requests := [str "prompt"]; timers := []; console := [];
              clock_reads := 0; analysisHistory := [] |});
    vm_compute; reflexivity.
Defined.

(** X13: mock mode.  With [mockMode] set, [analyze] gives for every valid
    input the mock report with the [metadata] block of that input added
    at its end.  No request is sent, nothing is written or waited for,
    and the entry added to the history carries the recommendation
    "Watchlist" and the score 70, whatever the input. *)
Theorem analyze_mock (env : Env) (input : JValue) (w : World) :
  mockMode (config env) = true ->
  success (validateInput input) = true ->
  analyze env input w
  = (Return
       (JObject
          (own_enumerable mockReport
           ++ [(str "metadata",
                metadata_block env input (summary input)
                  (now env (clock_reads w)))])),
     {| requests := requests w; timers := timers w; console := console w;
        clock_reads := 2 + clock_reads w;
        analysisHistory :=
          analysisHistory w
          ++ [JObject
                [(str "timestamp", JString (now env (S (clock_reads w))));
                 (str "symbol", read (read input (str "stock")) (str "symbol"));
                 (str "recommendation", JString (str "Watchlist"));
                 (str "score", JNumber (Number_of_Z 70))]] |}).
Proof.
  intros Hm H. rewrite (analyze_valid env input w H).
  unfold invokeWithRetry at 1. rewrite Hm. unfold ret at 1.
  rewrite ParserRecovery.mock_response_parses.
  reflexivity.
Qed.

Lemma analyze_mock_witness :
  fst (analyze (sample_env true failing_model) valid_input initial_world)
  = Return
      (JObject
         (own_enumerable mockReport
          ++ [(str "metadata",
               metadata_block (sample_env true failing_model) valid_input
                 (summary valid_input) (str "2025-12-15T00:00:00.000Z"))])).
Proof.
  rewrite (analyze_mock (sample_env true failing_model) valid_input
             initial_world eq_refl eq_refl).
  reflexivity.
Defined.

(** ** The history over a batch *)

Import BatchProcessing.

(** [r.success], as [results.filter(r => r.success)] reads it. *)
Definition succeeded (r : JValue) : bool := truthy (read r (str "success")).

Lemma batch_loop_effect env items :
  forall acc w, exists rs w' sent added,
    batch_loop env items acc w = (Return (acc ++ rs), w')
    /\ length rs = length items
    /\ requests w' = requests w ++ sent
    /\ length sent <= maxRetries (config env) * length items
    /\ analysisHistory w' = analysisHistory w ++ added
    /\ length added = length (filter succeeded rs).
Proof.
  induction items as [|x r IH]; intros acc w.
  - exists [], w, [], []. cbn [batch_loop length filter]. unfold ret.
    rewrite !app_nil_r. repeat split. lia.
  - cbn [batch_loop]. unfold bind. rewrite batch_item_returns.
    destruct (IH (acc ++ [item_result env x w]) (snd (analyze env x w)))
      as (rs & w' & sent & added & Hrun & Hlen & Hreq & Hsent & Hhist & Hadd).
    destruct (analyze_effect env x w) as (k & Hk & Hr & Hout).
    unfold item_result in *.
    destruct (analyze env x w) as [[data|m] w1]; cbn [fst snd] in *.
    + destruct Hout as (_ & entry & He).
      eexists (_ :: rs), w', (repeat (fullPrompt env x) k ++ sent),
        (entry :: added).
      split; [rewrite Hrun, <- app_assoc; reflexivity|].
      split; [cbn [length]; rewrite Hlen; reflexivity|].
      split; [rewrite Hreq, Hr, <- app_assoc; reflexivity|].
      split; [rewrite length_app, repeat_length; cbn [length]; nia|].
      split; [rewrite Hhist, He, <- app_assoc; reflexivity|].
      cbn [filter]. change (succeeded _) with true at 1. cbn [length].
      rewrite Hadd. reflexivity.
    + eexists (_ :: rs), w', (repeat (fullPrompt env x) k ++ sent), added.
      split; [rewrite Hrun, <- app_assoc; reflexivity|].
      split; [cbn [length]; rewrite Hlen; reflexivity|].
      split; [rewrite Hreq, Hr, <- app_assoc; reflexivity|].
      split; [rewrite length_app, repeat_length; cbn [length]; nia|].
      split; [rewrite Hhist, Hout; reflexivity|].
      cbn [filter]. change (succeeded _) with false at 1. exact Hadd.
Qed.

(** X14: what [batchAnalyze] does to the state, whatever the inputs and
    whatever the model does.  The history keeps its entries and gains
    one for each input that succeeded, as many as the entries of the
    result whose [success] is true, and none for an input that failed;
    and the batch sends at most [maxRetries] requests per
    input. *)
Theorem batchAnalyze_footprint (env : Env) (items : list JValue) (w : World) :
  exists results w' sent added,
    batchAnalyze env items w = (Return results, w')
    /\ length results = length items
    /\ requests w' = requests w ++ sent
    /\ length sent <= maxRetries (config env) * length items
    /\ analysisHistory w' = analysisHistory w ++ added
    /\ length added = length (filter succeeded results).
Proof.
  unfold batchAnalyze.
  destruct (batch_loop_effect env items [] w)
    as (rs & w' & sent & added & H).
  exists rs, w', sent, added. exact H.
Qed.

End AnalyzerFacts.

(* ===================================================================== *)
(** * The workflows: every run ends                                       *)
(* ===================================================================== *)

Module WorkflowRuns.
Import JS Runtime Validators GeminiClient Workflow Spec ValidatorsFacts Samples.
Import WorkflowEngine.
Local Open Scope m_scope.



Lemma invoke_mock env prompt retries w :
  mockMode (config env) = true ->
  invokeWithRetry env prompt retries w = (Return (stringify mockReport), w).
Proof. intros H. unfold invokeWithRetry. rewrite H. reflexivity. Qed.

Ltac settle input Hnn :=
  fields;
  rewrite ?(coalesce_defined _ input Hnn),
    ?(coalesce_defined _ (summary input) eq_refl),
    ?(coalesce_defined _ (JString _) eq_refl);
  try match goal with
      | Hr : nullish ?report = false |- _ =>
          rewrite ?(coalesce_defined _ report Hr)
      end.

(** X16: the workflows in mock mode.  With [mockMode] set, on every valid
    input the workflow of src/agent/langgraph-workflow.js returns the mock
    report itself and leaves no trace: no request, no output, no reading
    of the clock.  The workflow of src/unnamed/part_001 returns the mock
    report with the [metadata] block of the input added at its end, and
    reads the clock once. *)
Theorem workflows_in_mock_mode (env : Env) (ch : Channels) (input : JValue)
  (w : World) :
  mockMode (config env) = true ->
  success (validateInput input) = true ->
  execute env ch input w = (Return mockReport, w)
  /\ SequentialWorkflow.execute env ch input w
     = (Return
          (JObject
             (own_enumerable mockReport
              ++ [(str "metadata",
                   metadata_block env input (summary input)
                     (now env (clock_reads w)))])),
        tick w).
Proof.
  intros Hm H. destruct (valid_stock input H) as [Hnn _].
  pose proof (extract_valid env input H) as Hx.
  pose proof (fun w => ParserRecovery.mock_response_parses env w) as Hp.
  pose proof (fun p r w => invoke_mock env p r w Hm) as Hi.
  assert (Hr : nullish mockReport = false) by reflexivity.
  assert (Hs : forall block,
            spread_object mockReport [(str "metadata", block)]
            = JObject (own_enumerable mockReport ++ [(str "metadata", block)]))
    by (intros block; reflexivity).
  revert Hp Hi Hr Hs.
  generalize mockReport as report. intros report Hp Hi Hr Hs.
  split.
  - unfold execute, bind, invoke, recursionLimit.
    destruct ch; settle input Hnn;
      rewrite run_step; cbn [node]; unfold validate_input_node; fields;
      rewrite H; cbn [negb]; unfold ret at 1; settle input Hnn;
      rewrite run_step; cbn [node];
      unfold parallel_processing_node, try_catch; fields; rewrite Hx;
      rewrite Hi; settle input Hnn;
      rewrite run_step; cbn [node];
      unfold parse_response_node, try_catch, bind; settle input Hnn;
      rewrite Hp; unfold ret at 1;
      settle input Hnn;
      rewrite run_step; cbn [node]; unfold enrich_report_node, ret;
      settle input Hnn; reflexivity.
  - unfold SequentialWorkflow.execute, bind, SequentialWorkflow.invoke,
      recursionLimit.
    destruct ch; settle input Hnn;
      rewrite run_step; cbn [SequentialWorkflow.node];
      unfold validate_input_node; fields;
      rewrite H; cbn [negb]; unfold ret at 1; settle input Hnn;
      rewrite run_step; cbn [SequentialWorkflow.node];
      unfold SequentialWorkflow.extract_metrics_node, bind, lift; fields;
      rewrite Hx; unfold ret at 1; settle input Hnn;
      rewrite run_step; cbn [SequentialWorkflow.node];
      unfold SequentialWorkflow.generate_analysis_node, try_catch, bind;
      fields; rewrite Hi; unfold ret at 1;
      settle input Hnn;
      rewrite run_step; cbn [SequentialWorkflow.node];
      unfold parse_response_node, try_catch, bind; settle input Hnn;
      rewrite Hp; unfold ret at 1;
      settle input Hnn;
      rewrite run_step; cbn [SequentialWorkflow.node];
      unfold SequentialWorkflow.validate_output_node; unfold ret at 1;
      settle input Hnn;
      rewrite run_step; cbn [SequentialWorkflow.node];
      unfold SequentialWorkflow.enrich_report_node, bind; fields;
      rewrite (metadata_run env input (summary input) _ H); unfold ret;
      settle input Hnn; rewrite Hs; reflexivity.
Qed.

Lemma workflows_in_mock_mode_witness :
  execute (sample_env true failing_model) LastValue valid_input initial_world
  = (Return mockReport, initial_world)
  /\ SequentialWorkflow.execute (sample_env true failing_model) LastValue
       valid_input initial_world
     = (Return
          (JObject
             (own_enumerable mockReport
              ++ [(str "metadata",
                   metadata_block (sample_env true failing_model) valid_input
                     (summary valid_input)
                     (now (sample_env true failing_model)
                        (clock_reads initial_world)))])),
        tick initial_world).
Proof.
  apply (workflows_in_mock_mode (sample_env true failing_model) LastValue
           valid_input initial_world); reflexivity.
Defined.

(** A response that is [null] or [undefined] has no [trim] to call. *)
Lemma parse_nullish env r w :
  nullish r = true ->
  parseJsonResponse env r w
  = (Throw (read_error_message (engine env) r (str "trim")), w).
Proof. destruct r; intros H; try discriminate H; reflexivity. Qed.

(** X17: the workflows when the model fails.  On a valid input, when the
    call of the model throws, neither workflow throws or reports the
    failure in what it returns: the run goes on through the parsing and
    the enriching nodes.  The workflow of
    src/agent/langgraph-workflow.js returns [null] or [undefined]; the
    workflow of src/unnamed/part_001 returns an object whose only
    property is the [metadata] block. *)
Theorem workflows_when_model_fails (env : Env) (ch : Channels)
  (input : JValue) (w w1 : World) (m : jstring) :
  success (validateInput input) = true ->
  invokeWithRetry env (fullPrompt env input) (maxRetries (config env)) w
  = (Throw m, w1) ->
  (exists r, execute env ch input w = (Return r, w1) /\ nullish r = true)
  /\ SequentialWorkflow.execute env ch input w
     = (Return
          (JObject
             [(str "metadata",
               metadata_block env input (summary input)
                 (now env (clock_reads w1)))]),
        tick w1).
Proof.
  intros H Hi. destruct (valid_stock input H) as [Hnn _].
  pose proof (extract_valid env input H) as Hx.
  split.
  - unfold execute, bind, invoke, recursionLimit.
    destruct ch; settle input Hnn;
      rewrite run_step; cbn [node]; unfold validate_input_node; fields;
      rewrite H; cbn [negb]; unfold ret at 1; settle input Hnn;
      rewrite run_step; cbn [node];
      unfold parallel_processing_node, try_catch; fields; rewrite Hx, Hi;
      unfold ret at 1; settle input Hnn;
      rewrite run_step; cbn [node];
      unfold parse_response_node, try_catch, bind; settle input Hnn;
      rewrite parse_nullish by reflexivity; unfold ret at 1;
      settle input Hnn;
      rewrite run_step; cbn [node]; unfold enrich_report_node, ret;
      settle input Hnn; eexists; split; reflexivity.
  - unfold SequentialWorkflow.execute, bind, SequentialWorkflow.invoke,
      recursionLimit.
    destruct ch; settle input Hnn;
      rewrite run_step; cbn [SequentialWorkflow.node];
      unfold validate_input_node; fields;
      rewrite H; cbn [negb]; unfold ret at 1; settle input Hnn;
      rewrite run_step; cbn [SequentialWorkflow.node];
      unfold SequentialWorkflow.extract_metrics_node, bind, lift; fields;
      rewrite Hx; unfold ret at 1; settle input Hnn;
      rewrite run_step; cbn [SequentialWorkflow.node];
      unfold SequentialWorkflow.generate_analysis_node, try_catch, bind;
      fields; rewrite Hi; unfold ret at 1;
      settle input Hnn;
      rewrite run_step; cbn [SequentialWorkflow.node];
      unfold parse_response_node, try_catch, bind; settle input Hnn;
      rewrite parse_nullish by reflexivity; unfold ret at 1;
      settle input Hnn;
      rewrite run_step; cbn [SequentialWorkflow.node];
      unfold SequentialWorkflow.validate_output_node; unfold ret at 1;
      settle input Hnn;
      rewrite run_step; cbn [SequentialWorkflow.node];
      unfold SequentialWorkflow.enrich_report_node, bind; fields;
      rewrite (metadata_run env input (summary input) _ H); unfold ret;
      settle input Hnn; reflexivity.
Qed.

Lemma workflows_when_model_fails_witness :
  (exists r,
     execute (sample_env false failing_model) LastValue valid_input
             initial_world
     = (Return r, snd (invokeWithRetry (sample_env false failing_model)
                         (str "prompt") 3 initial_world))
     /\ nullish r = true)
  /\ SequentialWorkflow.execute (sample_env false failing_model) LastValue
       valid_input initial_world
     = (Return
          (JObject
             [(str "metadata",
               metadata_block (sample_env false failing_model) valid_input
                 (summary valid_input)
                 (now (sample_env false failing_model)
                    (clock_reads
                       (snd (invokeWithRetry (sample_env false failing_model)
                               (str "prompt") 3 initial_world)))))]),
        tick (snd (invokeWithRetry (sample_env false failing_model)
                     (str "prompt") 3 initial_world))).
Proof.
  apply (workflows_when_model_fails (sample_env false failing_model)
           LastValue valid_input initial_world
           (snd (invokeWithRetry (sample_env false failing_model)
                   (str "prompt") 3 initial_world))
           (str "Failed after 3 attempts: fetch failed"));
    vm_compute; reflexivity.
Defined.

End WorkflowRuns.

(* ===================================================================== *)
(** * The check of the configuration                                      *)
(* ===================================================================== *)

Module SettingsFacts.
Import JS Runtime Settings Samples.
Local Open Scope Z_scope.

(** Below 0 and above 1, read off the exact value of a number: the sign
    for the one, the fraction [num / den] for the other.  NaN and the
    zeros are neither. *)
Definition below_zero (x : number) : bool :=
  match x with
  | S754_infinity true | S754_finite true _ _ => true
  | _ => false
  end.

Definition above_one (x : number) : bool :=
  match x with
  | S754_infinity false => true
  | S754_finite false m e =>
      let '(num, den) := exact_fraction m e in den <? num
  | _ => false
  end.

(** The problems the property names, in the order of the message. *)
Definition key_problem (c : Config) : list jstring :=
  match googleApiKey c with
  | [] => [str "GOOGLE_API_KEY is not set in environment variables"]
  | _ => []
  end.

Definition range_problem (c : Config) : list jstring :=
  if below_zero (temperature c) || above_one (temperature c)
  then [str "TEMPERATURE must be between 0 and 1"] else [].

Lemma lt_zero_spec x :
  Number_lt x (Number_of_Z 0) = below_zero x.
Proof. destruct x as [[|]|[|]| |[|] m e]; reflexivity. Qed.

(** For a binary64 value, the comparison with 1 decides whether the
    exact value exceeds 1. *)
Lemma one_lt_spec x :
  valid_binary prec emax x = true ->
  Number_lt (Number_of_Z 1) x = above_one x.
Proof.
  destruct x as [[|]|[|]| |[|] m e]; try reflexivity.
  cbn [valid_binary above_one].
  unfold bounded, canonical_mantissa. intros V.
  apply andb_prop in V. destruct V as [C _]. apply Z.eqb_eq in C.
  unfold fexp, emin, prec, emax in C.
  pose proof (SafeIntegers.digits2_pos_bounds m) as [Lo Hi].
  change (Number_lt (Number_of_Z 1) (S754_finite false m e))
    with (match match (-52 ?= e) with
                | Lt => Lt
                | Gt => Gt
                | Eq => Pos.compare_cont Eq 4503599627370496 m
                end with
          | Lt => true
          | _ => false
          end).
  destruct (Z.compare_spec (-52) e) as [E|E|E].
  - subst e. cbn [exact_fraction].
    change (Pos.compare_cont Eq 4503599627370496 m)
      with (Zpos 4503599627370496 ?= Zpos m).
    change (2 ^ Zpos 52) with 4503599627370496.
    destruct (Z.compare_spec 4503599627370496 (Zpos m)) as [Q|Q|Q];
      symmetry; [apply Z.ltb_ge|apply Z.ltb_lt|apply Z.ltb_ge]; lia.
  - assert (D : Zpos (digits2_pos m) = 53) by lia. rewrite D in Lo.
    change (2 ^ (53 - 1)) with 4503599627370496 in Lo.
    symmetry. destruct e as [|k|k]; cbn [exact_fraction];
      apply Z.ltb_lt.
    + change (2 ^ 0) with 1. lia.
    + pose proof (Z.pow_pos_nonneg 2 (Zpos k) ltac:(lia) ltac:(lia)). nia.
    + assert (2 ^ Zpos k <= 2 ^ 51) by (apply Z.pow_le_mono_r; lia).
      change (2 ^ 51) with 2251799813685248 in *. lia.
  - assert (D : Zpos (digits2_pos m) <= 53) by lia.
    destruct e as [|k|k]; try lia. cbn [exact_fraction].
    symmetry. apply Z.ltb_ge.
    assert (2 ^ Zpos (digits2_pos m) <= 2 ^ Zpos k)
      by (apply Z.pow_le_mono_r; lia).
    lia.
Qed.

(** X18: what [validateConfig] lets through.  For a temperature that is
    a binary64 value, it returns [true] exactly when the key is not the
    empty string and the temperature is neither below 0 nor above 1 (so
    NaN, either zero, and 1 itself are accepted); otherwise it throws
    "Configuration errors:" followed by one line for each of the two
    problems that is there, the key first. *)
Theorem validateConfig_outcomes (c : Config) :
  valid_binary prec emax (temperature c) = true ->
  validateConfig c
  = match key_problem c ++ range_problem c with
    | [] => Return true
    | problems =>
        Throw (str "Configuration errors:" ++ LF :: join [LF] problems)
    end
  /\ (validateConfig c = Return true
      <-> googleApiKey c <> []
          /\ below_zero (temperature c) = false
          /\ above_one (temperature c) = false).
Proof.
  intros V.
  assert (E : validateConfig c
              = match key_problem c ++ range_problem c with
                | [] => Return true
                | problems =>
                    Throw (str "Configuration errors:"
                           ++ LF :: join [LF] problems)
                end).
  { unfold validateConfig, config_errors, key_problem, range_problem.
    cbv zeta. rewrite lt_zero_spec, (one_lt_spec _ V).
    destruct (googleApiKey c) as [|k ks]; cbn [truthy negb];
      destruct (below_zero (temperature c) || above_one (temperature c));
      reflexivity. }
  split; [exact E|]. rewrite E. unfold key_problem, range_problem.
  destruct (googleApiKey c) as [|k ks];
    destruct (below_zero (temperature c));
    destruct (above_one (temperature c)); cbn [orb app];
    split; try (intros H; discriminate H);
    try (intros (H1 & H2 & H3); try discriminate H2; try discriminate H3;
         exfalso; apply H1; reflexivity).
  - intros _. repeat split. discriminate.
  - intros _. reflexivity.
Qed.

Lemma validateConfig_outcomes_witness :
  validateConfig (settings false) = Return true
  /\ (validateConfig (settings false) = Return true
      <-> googleApiKey (settings false) <> []
          /\ below_zero (temperature (settings false)) = false
          /\ above_one (temperature (settings false)) = false).
Proof.
  apply (validateConfig_outcomes (settings false)). reflexivity.
Defined.

End SettingsFacts.
